(** * Normalization engine and entity store: a shallow embedding

    The development follows the TypeScript sources
    [features/normalization/schema.ts], [normalizer.ts] (normalize,
    processEntity, denormalize, denormalizeSingle) and
    [with-normalization.ts] (the signal-store feature), and the code built
    on them: [blog.normalizers.ts] and [utils/normalization.utils.ts] (the
    two normalizeBlogData), and the two versions of
    [normalized-blog.store.ts] (the blog store and its methods).

    Conventions of the embedding.
    - A JavaScript value is a [value]; a plain object is an association list
      in property insertion order, read by its first binding of a key and
      written in place (or appended when the key is new). JavaScript lists
      integer-like property names first; this reordering is not modelled,
      and the statements about a listing order assume names that are not
      integer-like ([insertion_ordered], [ordinary_key]).
    - Numbers are the integer-valued ones, printed in decimal; the
      statements about collection keys assume safe integers
      ([ordinary_id]).
    - The entities held in a collection are records (plain objects), as
      processEntity and updateEntity store them; being objects they are
      truthy, so [!entities[type][id]] tests whether the identifier is
      stored.
    - Only own properties of plain objects are modelled. The statements
      that depend on it carry, as hypotheses, that the type names,
      relationship names, identifier keys and identifiers involved do not
      name a built-in member ([ordinary_name], [ordinary_id_key],
      [ordinary_schemas], [ordinary_input], [ordinary_store]).
    - A thrown exception is the outcome [Throw]; recursion that the source
      does not bound is given fuel, and [Diverge] stands for exhausted fuel. *)

From Stdlib Require Import List String Ascii ZArith Lia Bool Arith PeanoNat.
From Stdlib Require Import DecimalString.
Import ListNotations.
Local Open Scope string_scope.
Local Open Scope list_scope.

Set Implicit Arguments.

(** ** Association lists keyed by property name *)

Module AList.
Section Defs.
Variable A : Type.

Definition t := list (string * A).

Fixpoint lookup (m : t) (k : string) : option A :=
  match m with
  | [] => None
  | (k', v) :: m' => if String.eqb k' k then Some v else lookup m' k
  end.

(** [m[k] = v]: overwrite in place, or append a new property. *)
Fixpoint set (m : t) (k : string) (v : A) : t :=
  match m with
  | [] => [(k, v)]
  | (k', v') :: m' =>
      if String.eqb k' k then (k', v) :: m' else (k', v') :: set m' k v
  end.

(** [delete m[k]]. *)
Fixpoint remove (m : t) (k : string) : t :=
  match m with
  | [] => []
  | (k', v') :: m' =>
      if String.eqb k' k then remove m' k else (k', v') :: remove m' k
  end.

Definition keys (m : t) : list string := map fst m.

(** [{...m, ...m2}]. *)
Definition spread (m m2 : t) : t :=
  fold_left (fun acc kv => set acc (fst kv) (snd kv)) m2 m.
End Defs.
End AList.

(** ** JavaScript values *)

Unset Elimination Schemes.
Inductive value : Type :=
| VUndef
| VNull
| VBool (b : bool)
| VNum (n : Z)
| VStr (s : string)
| VArr (items : list value)
| VObj (fields : list (string * value)).
Set Elimination Schemes.

Definition record := AList.t value.

Definition is_undefined (v : value) : bool :=
  match v with VUndef => true | _ => false end.

Definition is_null (v : value) : bool :=
  match v with VNull => true | _ => false end.

(** [Boolean(v)]. *)
Definition truthy (v : value) : bool :=
  match v with
  | VUndef | VNull => false
  | VBool b => b
  | VNum n => negb (Z.eqb n 0)
  | VStr s => negb (String.eqb s "")
  | VArr _ | VObj _ => true
  end.

(** [r[k]]: a missing property reads as [undefined]. *)
Definition get (r : record) (k : string) : value :=
  match AList.lookup r k with
  | Some v => v
  | None => VUndef
  end.

Definition string_of_Z (n : Z) : string :=
  NilZero.string_of_int (Z.to_int n).

Fixpoint join (sep : string) (l : list string) : string :=
  match l with
  | [] => ""
  | [s] => s
  | s :: l' => s ++ sep ++ join sep l'
  end.

(** [String(v)], which is also how a value becomes a property key. *)
Fixpoint to_string (v : value) : string :=
  match v with
  | VUndef => "undefined"
  | VNull => "null"
  | VBool true => "true"
  | VBool false => "false"
  | VNum n => string_of_Z n
  | VStr s => s
  | VArr l =>
      join "," (map (fun x => match x with
                              | VUndef | VNull => ""
                              | _ => to_string x
                              end) l)
  | VObj _ => "[object Object]"
  end.

Fixpoint depth (v : value) : nat :=
  match v with
  | VArr l => S (list_max (map depth l))
  | VObj f => S (list_max (map (fun kv => depth (snd kv)) f))
  | _ => 0
  end.

(** ** Outcomes: a returned value, a thrown exception, or exhausted fuel *)

Inductive exn : Type :=
| Error (message : string)
| TypeError.

Inductive outcome (A : Type) : Type :=
| Ok (a : A)
| Throw (e : exn)
| Diverge.

Arguments Ok {A} a.
Arguments Throw {A} e.
Arguments Diverge {A}.

Definition bind {A B} (c : outcome A) (k : A -> outcome B) : outcome B :=
  match c with
  | Ok a => k a
  | Throw e => Throw e
  | Diverge => Diverge
  end.

Declare Scope outcome_scope.
Delimit Scope outcome_scope with outcome.
Notation "x <- c ;; k" := (bind c (fun x => k))
  (at level 61, c at next level, right associativity) : outcome_scope.
Notation "' p <- c ;; k" := (bind c (fun x => let 'p := x in k))
  (at level 61, p pattern, c at next level, right associativity) : outcome_scope.
Local Open Scope outcome_scope.

(** [l.map(f)] for an [f] that may throw. *)
Fixpoint mapM {A B} (f : A -> outcome B) (l : list A) : outcome (list B) :=
  match l with
  | [] => Ok []
  | x :: l' => y <- f x ;; ys <- mapM f l' ;; Ok (y :: ys)
  end.

(** [l.map(f)] for an [f] that also updates a store. *)
Fixpoint mapS {A B S} (f : A -> S -> outcome (B * S)) (l : list A) (s : S)
  : outcome (list B * S) :=
  match l with
  | [] => Ok ([], s)
  | x :: l' =>
      '(y, s1) <- f x s ;;
      '(ys, s2) <- mapS f l' s1 ;;
      Ok (y :: ys, s2)
  end.

(** The message of the error thrown for an unknown root type. *)
Definition SchemaNotFound (schemaKey : string) : exn :=
  Error ("Schema not found for key: " ++ schemaKey).

(** The message of the error thrown for an entity without identifier. *)
Definition MissingIdentifier (idKey entityType : string) : exn :=
  Error ("Entity ID not found using key '" ++ idKey ++ "' for type '"
         ++ entityType ++ "'").

(** [v[k]] on an arbitrary value: reading a property of [null] or
    [undefined] throws; non-objects have none of the modelled properties. *)
Definition get_prop (v : value) (k : string) : outcome value :=
  match v with
  | VUndef | VNull => Throw TypeError
  | VObj f => Ok (get f k)
  | _ => Ok VUndef
  end.

(** [{...v}]. *)
Definition own_props (v : value) : record :=
  match v with
  | VObj f => f
  | _ => []
  end.

(** ** schema.ts *)

Record RelationshipConfig : Type := {
  type : string;
  isArray : bool
}.

Definition hasOne (entityType : string) : RelationshipConfig :=
  {| type := entityType; isArray := false |}.

Definition hasMany (entityType : string) : RelationshipConfig :=
  {| type := entityType; isArray := true |}.

Record EntitySchema : Type := {
  idKey : option string;
  relationships : option (AList.t RelationshipConfig)
}.

Definition EntitySchemaMap := AList.t EntitySchema.

Definition createEntitySchema (idKey : option string)
    (relationships : option (AList.t RelationshipConfig)) : EntitySchema :=
  {| idKey := Some (match idKey with Some k => k | None => "id" end);
     relationships :=
       Some (match relationships with Some r => r | None => [] end) |}.

(** [schema.idKey || 'id']. *)
Definition id_key (schema : EntitySchema) : string :=
  match idKey schema with
  | Some k => if String.eqb k "" then "id" else k
  | None => "id"
  end.

Definition EntityMap := AList.t record.
Definition Entities := AList.t EntityMap.

Record NormalizedData : Type := {
  entities : Entities;
  result : value
}.

(** [entities[entityType][id]], absent when either level is. *)
Definition entity_at (ents : Entities) (entityType key : string)
  : option record :=
  match AList.lookup ents entityType with
  | Some m => AList.lookup m key
  | None => None
  end.

(** ** normalizer.ts: normalize *)

Section Normalizer.
Variable schemaMap : EntitySchemaMap.

Section Relationships.
(** The recursive call [processEntity(item, type, schemaMap[type], ...)]. *)
Variable recur :
  value -> string -> option EntitySchema -> Entities ->
  outcome (value * Entities).

Fixpoint process_relationships (rels : AList.t RelationshipConfig)
    (processedEntity : record) (ents : Entities)
  : outcome (record * Entities) :=
  match rels with
  | [] => Ok (processedEntity, ents)
  | (key, cfg) :: rest =>
      let v := get processedEntity key in
      if is_undefined v then
        process_relationships rest processedEntity ents
      else if isArray cfg then
        match v with
        | VArr items =>
            '(ids, ents1) <-
               mapS (fun item =>
                       recur item (type cfg)
                             (AList.lookup schemaMap (type cfg)))
                    items ents ;;
            process_relationships rest
              (AList.set processedEntity key (VArr ids)) ents1
        | _ => process_relationships rest processedEntity ents
        end
      else if is_null v then
        process_relationships rest processedEntity ents
      else
        '(id, ents1) <-
           recur v (type cfg) (AList.lookup schemaMap (type cfg)) ents ;;
        process_relationships rest
          (AList.set processedEntity key id) ents1
  end.
End Relationships.

(** [if (!ents[entityType]) ents[entityType] = {}]. *)
Definition ensure_collection (ents : Entities) (entityType : string)
  : Entities :=
  match AList.lookup ents entityType with
  | Some _ => ents
  | None => AList.set ents entityType []
  end.

(** [ents[entityType][key] = entity]. *)
Definition store_entity (ents : Entities) (entityType key : string)
    (entity : record) : Entities :=
  match AList.lookup ents entityType with
  | Some m => AList.set ents entityType (AList.set m key entity)
  | None => AList.set ents entityType [(key, entity)]
  end.

Fixpoint processEntity (fuel : nat) (entity : value) (entityType : string)
    (schema : option EntitySchema) (ents : Entities)
  : outcome (value * Entities) :=
  match fuel with
  | 0 => Diverge
  | S fuel' =>
      match schema with
      | None => Throw TypeError
      | Some schema =>
          let idKey := id_key schema in
          entityId <- get_prop entity idKey ;;
          if is_undefined entityId then
            Throw (MissingIdentifier idKey entityType)
          else
            let ents0 := ensure_collection ents entityType in
            let processedEntity := own_props entity in
            '(processedEntity, ents1) <-
               match relationships schema with
               | Some rels =>
                   process_relationships (processEntity fuel') rels
                                         processedEntity ents0
               | None => Ok (processedEntity, ents0)
               end ;;
            Ok (entityId,
                store_entity ents1 entityType (to_string entityId)
                             processedEntity)
      end
  end.

Definition normalize_fuel (fuel : nat) (input : value) (schemaKey : string)
  : outcome NormalizedData :=
  match AList.lookup schemaMap schemaKey with
  | None => Throw (SchemaNotFound schemaKey)
  | Some schema =>
      match input with
      | VArr items =>
          '(ids, ents) <-
             mapS (fun item =>
                     processEntity fuel item schemaKey (Some schema))
                  items [] ;;
          Ok {| entities := ents; result := VArr ids |}
      | _ =>
          if truthy input then
            '(id, ents) <-
               processEntity fuel input schemaKey (Some schema) [] ;;
            Ok {| entities := ents; result := id |}
          else
            Ok {| entities := []; result := VUndef |}
      end
  end.

(** The input is a finite tree, so its depth bounds the recursion. *)
Definition normalize (input : value) (schemaKey : string)
  : outcome NormalizedData :=
  normalize_fuel (S (depth input)) input schemaKey.

(** ** normalizer.ts: denormalize *)

Section DenormRelationships.
Variable recur : value -> string -> outcome value.

Fixpoint denormalize_relationships (rels : AList.t RelationshipConfig)
    (denormalizedEntity : record) : outcome record :=
  match rels with
  | [] => Ok denormalizedEntity
  | (key, cfg) :: rest =>
      let v := get denormalizedEntity key in
      if is_undefined v then
        denormalize_relationships rest denormalizedEntity
      else if isArray cfg then
        match v with
        | VArr ids =>
            rs <- mapM (fun id => recur id (type cfg)) ids ;;
            denormalize_relationships rest
              (AList.set denormalizedEntity key (VArr (filter truthy rs)))
        | _ => denormalize_relationships rest denormalizedEntity
        end
      else if is_null v then
        denormalize_relationships rest denormalizedEntity
      else
        r <- recur v (type cfg) ;;
        denormalize_relationships rest
          (AList.set denormalizedEntity key r)
  end.
End DenormRelationships.

Fixpoint denormalizeSingle (fuel : nat) (entityId : value)
    (entityType : string) (ents : Entities) : outcome value :=
  match fuel with
  | 0 => Diverge
  | S fuel' =>
      match entity_at ents entityType (to_string entityId) with
      | None => Ok VNull
      | Some entity =>
          match AList.lookup schemaMap entityType with
          | None => Throw TypeError
          | Some schema =>
              match relationships schema with
              | Some rels =>
                  r <- denormalize_relationships
                         (fun id ty => denormalizeSingle fuel' id ty ents)
                         rels entity ;;
                  Ok (VObj r)
              | None => Ok (VObj entity)
              end
          end
      end
  end.

Definition denormalize (fuel : nat) (entityId : value)
    (entityType : string) (ents : Entities) : outcome value :=
  match entityId with
  | VArr ids =>
      rs <- mapM (fun id => denormalizeSingle fuel id entityType ents) ids ;;
      Ok (VArr (filter truthy rs))
  | _ => denormalizeSingle fuel entityId entityType ents
  end.
End Normalizer.

(** ** with-normalization.ts: the store feature *)

Record NormalizationState : Type := {
  st_entities : Entities;
  st_loading : AList.t bool
}.

Inductive OperationResult : Type :=
| Success (data : value)
| Failure (error : string).

Section Store.
Variable schemas : EntitySchemaMap.

Definition entityTypes : list string := AList.keys schemas.

Definition initialState : NormalizationState :=
  {| st_entities :=
       fold_left (fun acc ty => AList.set acc ty []) entityTypes [];
     st_loading :=
       fold_left (fun acc ty => AList.set acc ty false) entityTypes [] |}.

(** [patchState(store, { loading })] and [patchState(store, { entities })]. *)
Definition patch_loading (st : NormalizationState) (l : AList.t bool)
  : NormalizationState :=
  {| st_entities := st_entities st; st_loading := l |}.

Definition patch_entities (st : NormalizationState) (e : Entities)
  : NormalizationState :=
  {| st_entities := e; st_loading := st_loading st |}.

Definition getEntityById (st : NormalizationState) (entityType : string)
    (id : value) : value :=
  match entity_at (st_entities st) entityType (to_string id) with
  | Some e => VObj e
  | None => VNull
  end.

Definition getDenormalizedEntity (fuel : nat) (st : NormalizationState)
    (entityType : string) (id : value) : outcome value :=
  denormalize schemas fuel id entityType (st_entities st).

Definition getDenormalizedEntities (fuel : nat) (st : NormalizationState)
    (entityType : string) : outcome value :=
  match AList.lookup (st_entities st) entityType with
  | None => Ok (VArr [])
  | Some m =>
      denormalize schemas fuel (VArr (map VStr (AList.keys m))) entityType
                  (st_entities st)
  end.

Definition selectDenormalized (fuel : nat) (st : NormalizationState)
    (entityType : string) (id : value) : outcome value :=
  if is_undefined id then getDenormalizedEntities fuel st entityType
  else getDenormalizedEntity fuel st entityType id.

(** The [forEach] of addNormalizedData:
    [updated[type] = {...updated[type], ...entities}]. *)
Definition merge_entities (updated : Entities) (normalized : Entities)
  : Entities :=
  fold_left
    (fun acc te =>
       AList.set acc (fst te)
         (AList.spread
            (match AList.lookup acc (fst te) with
             | Some m => m
             | None => []
             end)
            (snd te)))
    normalized updated.

(** addNormalizedData, as the sequence of states it writes with
    patchState together with how the call ends. *)
Definition addNormalizedData_steps (st : NormalizationState) (data : value)
    (entityType : string) : list NormalizationState * outcome unit :=
  let st1 := patch_loading st (AList.set (st_loading st) entityType true) in
  match normalize schemas data entityType with
  | Ok normalizedData =>
      let st2 :=
        patch_entities st1
          (merge_entities (st_entities st1) (entities normalizedData)) in
      let st3 :=
        patch_loading st2 (AList.set (st_loading st2) entityType false) in
      ([st1; st2; st3], Ok tt)
  | Throw e =>
      let st3 :=
        patch_loading st1 (AList.set (st_loading st1) entityType false) in
      ([st1; st3], Throw e)
  | Diverge => ([st1], Diverge)
  end.

(** The state in which addNormalizedData leaves the store. *)
Definition addNormalizedData (st : NormalizationState) (data : value)
    (entityType : string) : NormalizationState :=
  last (fst (addNormalizedData_steps st data entityType)) st.

Definition removeEntity (st : NormalizationState) (entityType : string)
    (id : value) : NormalizationState :=
  match AList.lookup (st_entities st) entityType with
  | None => st
  | Some m =>
      match AList.lookup m (to_string id) with
      | None => st
      | Some _ =>
          let entityMap := AList.remove m (to_string id) in
          patch_entities st (AList.set (st_entities st) entityType entityMap)
      end
  end.

Definition updateEntity (st : NormalizationState) (entityType : string)
    (id : value) (changes : record) : OperationResult * NormalizationState :=
  match AList.lookup (st_entities st) entityType with
  | None =>
      (Failure ("Entity with ID " ++ to_string id
                ++ " not found in collection " ++ entityType), st)
  | Some m =>
      match AList.lookup m (to_string id) with
      | None =>
          (Failure ("Entity with ID " ++ to_string id
                    ++ " not found in collection " ++ entityType), st)
      | Some e =>
          let updated := AList.spread e changes in
          let entityMap := AList.set m (to_string id) updated in
          (Success (VObj updated),
           patch_entities st
             (AList.set (st_entities st) entityType entityMap))
      end
  end.
End Store.

(** ** blog.store.ts: the blog schemas and the sample data *)

Definition blogSchemas : EntitySchemaMap :=
  [ ("users", createEntitySchema (Some "username") None);
    ("comments",
      createEntitySchema (Some "id") (Some [("author", hasOne "users")]));
    ("posts",
      createEntitySchema (Some "id")
        (Some [("author", hasOne "users"); ("comments", hasMany "comments")]))
  ].

Definition user (username name : string) : value :=
  VObj [("username", VStr username); ("name", VStr name)].

Definition comment (id : string) (author : value) (text : string) : value :=
  VObj [("id", VStr id); ("author", author); ("comment", VStr text)].

Definition post (id : string) (author : value) (body : string)
    (comments : list value) : value :=
  VObj [("id", VStr id); ("author", author); ("body", VStr body);
        ("comments", VArr comments)].

Definition samplePost1 : value :=
  post "post1" (user "user1" "User 1") "This is the first post content."
    [ comment "comment1" (user "user2" "User 2") "Great post!";
      comment "comment2" (user "user3" "User 3") "I learned a lot from this." ].

Definition samplePost2 : value :=
  post "post2" (user "user2" "User 2") "This is the second post content."
    [ comment "comment3" (user "user3" "User 3") "Interesting perspective!";
      comment "comment4" (user "user1" "User 1") "I disagree with some points.";
      comment "comment5" (user "user3" "User 3") "Could you elaborate more?" ].

Definition sampleBlogData : value := VArr [samplePost1; samplePost2].

(** ** Well-formed schemas and inputs

    What the round trip assumes of its input: the nested shape announced by
    the schema map, identifiers that are strings or numbers, and objects
    whose property names are pairwise distinct (as those of any JavaScript
    object are). *)

Fixpoint nodupb (l : list string) : bool :=
  match l with
  | [] => true
  | x :: l' => negb (existsb (String.eqb x) l') && nodupb l'
  end.

(** The relationship names of every schema are pairwise distinct. *)
Definition wf_schema (schema : EntitySchema) : bool :=
  match relationships schema with
  | Some rels => nodupb (AList.keys rels)
  | None => true
  end.

Definition wf_schemas (schemaMap : EntitySchemaMap) : bool :=
  forallb (fun ts => wf_schema (snd ts)) schemaMap.

(** [EntityId = string | number]. *)
Definition is_entity_id (v : value) : bool :=
  match v with
  | VStr _ | VNum _ => true
  | _ => false
  end.

Definition relationships_of (schema : EntitySchema)
  : AList.t RelationshipConfig :=
  match relationships schema with
  | Some rels => rels
  | None => []
  end.

Section Shapes.
Variable schemaMap : EntitySchemaMap.

(** The identifier of a nested entity of the given type. *)
Definition id_of (entityType : string) (entity : value) : value :=
  match AList.lookup schemaMap entityType with
  | Some schema => get (own_props entity) (id_key schema)
  | None => VUndef
  end.

(** [conforms ty v]: [v] is an entity of type [ty] nested in full: an
    object with distinct property names, a string or number at the
    identifier key, under every plural relationship an array of
    conforming entities and under every singular one a conforming entity
    or [null]. *)
Fixpoint conforms (entityType : string) (v : value) {struct v} : bool :=
  match v with
  | VObj fields =>
      match AList.lookup schemaMap entityType with
      | None => false
      | Some schema =>
          nodupb (AList.keys fields)
          && is_entity_id (get fields (id_key schema))
          && forallb
               (fun kv =>
                  let '(k, x) := kv in
                  match AList.lookup (relationships_of schema) k with
                  | None => true
                  | Some cfg =>
                      if isArray cfg then
                        match x with
                        | VArr items => forallb (conforms (type cfg)) items
                        | _ => false
                        end
                      else
                        match x with
                        | VNull => true
                        | _ => conforms (type cfg) x
                        end
                  end)
               fields
      end
  | _ => false
  end.

(** A normalize input: one conforming entity or an array of them, of a
    type that the schema map knows. *)
Definition conforms_input (rootType : string) (input : value) : bool :=
  match AList.lookup schemaMap rootType with
  | None => false
  | Some _ =>
      match input with
      | VArr items => forallb (conforms rootType) items
      | _ => conforms rootType input
      end
  end.

(** Every entity nested in [v], with its type, [v] included. *)
Fixpoint occurrences (entityType : string) (v : value) {struct v}
  : list (string * value) :=
  match v with
  | VObj fields =>
      (entityType, v) ::
      match AList.lookup schemaMap entityType with
      | None => []
      | Some schema =>
          flat_map
            (fun kv =>
               let '(k, x) := kv in
               match AList.lookup (relationships_of schema) k with
               | None => []
               | Some cfg =>
                   if isArray cfg then
                     match x with
                     | VArr items => flat_map (occurrences (type cfg)) items
                     | _ => []
                     end
                   else occurrences (type cfg) x
               end)
            fields
      end
  | _ => []
  end.

Definition input_occurrences (rootType : string) (input : value)
  : list (string * value) :=
  match input with
  | VArr items => flat_map (occurrences rootType) items
  | _ => occurrences rootType input
  end.

(** Two nested entities of one type whose identifiers give the same
    collection key are the same nested object. *)
Definition consistent (occs : list (string * value)) : Prop :=
  forall ty x y,
    In (ty, x) occs -> In (ty, y) occs ->
    to_string (id_of ty x) = to_string (id_of ty y) -> x = y.
End Shapes.

(** Equality of values up to the order of the properties of objects. *)
Fixpoint same_value (a b : value) {struct a} : bool :=
  match a, b with
  | VUndef, VUndef => true
  | VNull, VNull => true
  | VBool x, VBool y => Bool.eqb x y
  | VNum x, VNum y => Z.eqb x y
  | VStr x, VStr y => String.eqb x y
  | VArr l, VArr m =>
      (fix items (l m : list value) {struct l} : bool :=
         match l, m with
         | [], [] => true
         | x :: l', y :: m' => same_value x y && items l' m'
         | _, _ => false
         end) l m
  | VObj f, VObj g =>
      Nat.eqb (List.length f) (List.length g)
      && forallb (fun kv =>
                    match AList.lookup g (fst kv) with
                    | Some y => same_value (snd kv) y
                    | None => false
                    end) f
  | _, _ => false
  end.

(** ** One turn of the relationship loops

    What the body of the [for] loop of denormalizeSingle, respectively of
    processEntity, computes for one relationship from the current value of
    its field: the new value of the field, or [None] when the field is left
    as it is. The loops are related to these bodies by
    [denormalize_relationships_step] and [process_relationships_step]. *)

Definition denormalize_field (recur : value -> string -> outcome value)
    (cfg : RelationshipConfig) (v : value) : outcome (option value) :=
  if is_undefined v then Ok None
  else if isArray cfg then
    match v with
    | VArr ids =>
        rs <- mapM (fun id => recur id (type cfg)) ids ;;
        Ok (Some (VArr (filter truthy rs)))
    | _ => Ok None
    end
  else if is_null v then Ok None
  else r <- recur v (type cfg) ;; Ok (Some r).

Definition process_field (schemaMap : EntitySchemaMap)
    (recur : value -> string -> option EntitySchema -> Entities ->
             outcome (value * Entities))
    (cfg : RelationshipConfig) (v : value) (ents : Entities)
  : outcome (option value * Entities) :=
  if is_undefined v then Ok (None, ents)
  else if isArray cfg then
    match v with
    | VArr items =>
        '(ids, ents1) <-
           mapS (fun item =>
                   recur item (type cfg) (AList.lookup schemaMap (type cfg)))
                items ents ;;
        Ok (Some (VArr ids), ents1)
    | _ => Ok (None, ents)
    end
  else if is_null v then Ok (None, ents)
  else
    '(id, ents1) <-
       recur v (type cfg) (AList.lookup schemaMap (type cfg)) ents ;;
    Ok (Some id, ents1).

Definition write_field (r : record) (key : string) (x : option value)
  : record :=
  match x with
  | Some v => AList.set r key v
  | None => r
  end.

(** ** The calls made during a normalization

    A call of processEntity, with the collections as they are when the call
    is made. [invokes c c'] holds when the body of call [c] makes the call
    [c'] itself: the relationships before the one at hand and the items
    before the one at hand have been processed without a throw. An entity
    is visited during a normalization when processEntity is called on it. *)

Record call : Type := {
  c_fuel : nat;
  c_entity : value;
  c_type : string;
  c_schema : option EntitySchema;
  c_ents : Entities
}.

Definition run (schemaMap : EntitySchemaMap) (c : call)
  : outcome (value * Entities) :=
  processEntity schemaMap (c_fuel c) (c_entity c) (c_type c) (c_schema c)
                (c_ents c).

Inductive invokes (schemaMap : EntitySchemaMap) : call -> call -> Prop :=
| invokes_item n e ty s ents idv rels1 key cfg rels2 pe1 e1 l1 x l2 ids e2 :
    get_prop e (id_key s) = Ok idv ->
    is_undefined idv = false ->
    relationships s = Some (rels1 ++ (key, cfg) :: rels2) ->
    process_relationships schemaMap (processEntity schemaMap n) rels1
                          (own_props e) (ensure_collection ents ty)
    = Ok (pe1, e1) ->
    isArray cfg = true ->
    get pe1 key = VArr (l1 ++ x :: l2) ->
    mapS (fun item =>
            processEntity schemaMap n item (type cfg)
                          (AList.lookup schemaMap (type cfg)))
         l1 e1 = Ok (ids, e2) ->
    invokes schemaMap
      {| c_fuel := S n; c_entity := e; c_type := ty; c_schema := Some s;
         c_ents := ents |}
      {| c_fuel := n; c_entity := x; c_type := type cfg;
         c_schema := AList.lookup schemaMap (type cfg); c_ents := e2 |}
| invokes_single n e ty s ents idv rels1 key cfg rels2 pe1 e1 :
    get_prop e (id_key s) = Ok idv ->
    is_undefined idv = false ->
    relationships s = Some (rels1 ++ (key, cfg) :: rels2) ->
    process_relationships schemaMap (processEntity schemaMap n) rels1
                          (own_props e) (ensure_collection ents ty)
    = Ok (pe1, e1) ->
    isArray cfg = false ->
    is_undefined (get pe1 key) = false ->
    is_null (get pe1 key) = false ->
    invokes schemaMap
      {| c_fuel := S n; c_entity := e; c_type := ty; c_schema := Some s;
         c_ents := ents |}
      {| c_fuel := n; c_entity := get pe1 key; c_type := type cfg;
         c_schema := AList.lookup schemaMap (type cfg); c_ents := e1 |}.

Inductive visits (schemaMap : EntitySchemaMap) : call -> call -> Prop :=
| visits_self c : visits schemaMap c c
| visits_step c c1 c2 :
    invokes schemaMap c c1 -> visits schemaMap c1 c2 -> visits schemaMap c c2.

(** The calls that normalize makes itself. *)
Inductive normalize_invokes (schemaMap : EntitySchemaMap) (input : value)
    (schemaKey : string) : call -> Prop :=
| normalize_invokes_item s l1 x l2 ids e1 :
    AList.lookup schemaMap schemaKey = Some s ->
    input = VArr (l1 ++ x :: l2) ->
    mapS (fun item =>
            processEntity schemaMap (S (depth input)) item schemaKey (Some s))
         l1 [] = Ok (ids, e1) ->
    normalize_invokes schemaMap input schemaKey
      {| c_fuel := S (depth input); c_entity := x; c_type := schemaKey;
         c_schema := Some s; c_ents := e1 |}
| normalize_invokes_single s :
    AList.lookup schemaMap schemaKey = Some s ->
    (forall l, input <> VArr l) ->
    truthy input = true ->
    normalize_invokes schemaMap input schemaKey
      {| c_fuel := S (depth input); c_entity := input; c_type := schemaKey;
         c_schema := Some s; c_ents := [] |}.

(** The calls of processEntity made in the course of
    [normalize(input, schemaKey, schemaMap)]. *)
Definition normalize_visits (schemaMap : EntitySchemaMap) (input : value)
    (schemaKey : string) (c : call) : Prop :=
  exists c0,
    normalize_invokes schemaMap input schemaKey c0 /\ visits schemaMap c0 c.

(** ** The stored form of a nested entity

    What processEntity stores for a nested entity: the entity with, under
    every relationship, the identifier(s) of what was nested there. *)

Section StoredForm.
Variable schemaMap : EntitySchemaMap.

Definition normalize_field_value (cfg : RelationshipConfig) (v : value)
  : value :=
  if is_undefined v then v
  else if isArray cfg then
    match v with
    | VArr items => VArr (map (id_of schemaMap (type cfg)) items)
    | _ => v
    end
  else if is_null v then v
  else id_of schemaMap (type cfg) v.

Definition normal_form (entityType : string) (entity : value) : record :=
  match AList.lookup schemaMap entityType with
  | Some schema =>
      map (fun kv =>
             (fst kv,
              match AList.lookup (relationships_of schema) (fst kv) with
              | Some cfg => normalize_field_value cfg (snd kv)
              | None => snd kv
              end))
          (own_props entity)
  | None => own_props entity
  end.

(** The entities nested under one relationship field. *)
Definition field_occurrences (cfg : RelationshipConfig) (v : value)
  : list (string * value) :=
  if isArray cfg then
    match v with
    | VArr items => flat_map (occurrences schemaMap (type cfg)) items
    | _ => []
    end
  else occurrences schemaMap (type cfg) v.
End StoredForm.

(** ** Vocabulary of the round trip

    [universe] stands for the nested entities of the whole input. *)

Section RoundTripVocabulary.
Variable schemaMap : EntitySchemaMap.
Variable universe : list (string * value).

(** The collections hold the stored form of a nested entity. *)
Definition written (ents : Entities) (o : string * value) : Prop :=
  entity_at ents (fst o) (to_string (id_of schemaMap (fst o) (snd o)))
  = Some (normal_form schemaMap (fst o) (snd o)).

(** Every cell is as before, or holds the stored form of a nested entity
    of the input. *)
Definition extends (ents ents' : Entities) : Prop :=
  forall t k,
    entity_at ents' t k = entity_at ents t k
    \/ exists x,
         In (t, x) universe
         /\ k = to_string (id_of schemaMap t x)
         /\ entity_at ents' t k = Some (normal_form schemaMap t x).

Definition nested_ok (fuel : nat) (ty : string) (x : value) : Prop :=
  conforms schemaMap ty x = true
  /\ depth x < fuel
  /\ incl (occurrences schemaMap ty x) universe.

(** A relationship field as a conforming entity has it: absent, or an
    array of nested entities under a plural relationship, or null or a
    nested entity under a singular one, the nested entities satisfying
    [P]. *)
Definition field_shape (P : string -> value -> Prop)
    (cfg : RelationshipConfig) (v : value) : Prop :=
  v = VUndef
  \/ (isArray cfg = true
      /\ exists items,
           v = VArr items /\ forall x, In x items -> P (type cfg) x)
  \/ (isArray cfg = false /\ (v = VNull \/ P (type cfg) v)).

Definition field_ready (fuel : nat) : RelationshipConfig -> value -> Prop :=
  field_shape (nested_ok fuel).

Definition entity_spec (fuel : nat) : Prop :=
  forall e ty ents,
    nested_ok fuel ty e ->
    exists ents',
      processEntity schemaMap fuel e ty (AList.lookup schemaMap ty) ents
      = Ok (id_of schemaMap ty e, ents')
      /\ extends ents ents'
      /\ forall o, In o (occurrences schemaMap ty e) -> written ents' o.

(** [x] is nested directly under the relationship [cfg] of an entity. *)
Definition nested_under (fields : record) (schema : EntitySchema)
    (cfg : RelationshipConfig) (x : value) : Prop :=
  exists k v,
    AList.lookup (relationships_of schema) k = Some cfg
    /\ AList.lookup fields k = Some v
    /\ if isArray cfg then exists items, v = VArr items /\ In x items
       else v = x.

Definition stored_ok (ents : Entities) (fuel : nat) (ty : string)
    (x : value) : Prop :=
  conforms schemaMap ty x = true
  /\ depth x < fuel
  /\ forall o, In o (occurrences schemaMap ty x) -> written ents o.

Definition restore_spec (fuel : nat) : Prop :=
  forall e ty ents,
    stored_ok ents fuel ty e ->
    denormalizeSingle schemaMap fuel (id_of schemaMap ty e) ty ents = Ok e.
End RoundTripVocabulary.

Definition post_with_anonymous_author : value :=
  VObj [("id", VStr "p1"); ("author", VObj [("name", VStr "Nobody")])].

(** Two posts whose nested authors share the username user1 but differ in
    their names. *)
Definition conflictingAuthors : value :=
  VArr [ post "p1" (user "user1" "Alice") "first" [];
         post "p2" (user "user1" "Bob") "second" [] ].

(** ** Shapes of stored data and of schema maps *)

(** A relationship field of a stored entity that holds no nested object:
    nothing, [null] or an identifier under a singular relationship, an
    array of identifiers under a plural one. *)
Definition flat_value (cfg : RelationshipConfig) (v : value) : bool :=
  match v with
  | VUndef => true
  | VArr ids => isArray cfg && forallb is_entity_id ids
  | VNull => negb (isArray cfg)
  | _ => negb (isArray cfg) && is_entity_id v
  end.

(** [acyclic_from schemaMap n ty]: following relationships from type [ty]
    leads through fewer than [n] types in a row. *)
Fixpoint acyclic_from (schemaMap : EntitySchemaMap) (n : nat) (ty : string)
  : bool :=
  match n with
  | 0 => false
  | S n' =>
      match AList.lookup schemaMap ty with
      | None => true
      | Some schema =>
          forallb (fun kc => acyclic_from schemaMap n' (type (snd kc)))
                  (relationships_of schema)
      end
  end.

(** Every collection has distinct keys, and so has the map of collections. *)
Definition distinct_keys (ents : Entities) : Prop :=
  NoDup (AList.keys ents)
  /\ forall ty m, AList.lookup ents ty = Some m -> NoDup (AList.keys m).

(** [ents[ty]], or the empty collection. *)
Definition collection_of (ents : Entities) (ty : string) : EntityMap :=
  match AList.lookup ents ty with
  | Some m => m
  | None => []
  end.

(** A type whose entities have a parent of the same type, and a node nested
    as its own parent. *)
Definition nodeSchemas : EntitySchemaMap :=
  [("nodes", createEntitySchema (Some "id") (Some [("parent", hasOne "nodes")]))].

Definition nodeInItself : value :=
  VObj [("id", VStr "n1"); ("parent", VObj [("id", VStr "n1")])].

(** ** blog.normalizers.ts and utils/normalization.utils.ts

    Both files declare the nested blog data with the interfaces
    [NestedAuthor] (fields [username], [name]), [NestedComment] (fields
    [id], [author], [comment]) and [NestedPost] (fields [id], [author],
    [body], [comments]), and a function [normalizeBlogData] that returns
    the users, the comments and the posts as three arrays. *)

Record NestedAuthor : Type := {
  author_username : string;
  author_name : string
}.

Record NestedComment : Type := {
  comment_id : string;
  comment_author : NestedAuthor;
  comment_comment : string
}.

Record NestedPost : Type := {
  post_id : string;
  post_author : NestedAuthor;
  post_body : string;
  post_comments : list NestedComment
}.

(** [{ users, comments, posts }]. *)
Record BlogCollections : Type := {
  blog_users : list record;
  blog_comments : list record;
  blog_posts : list record
}.

(** [Object.values(m)]. *)
Definition object_values (A : Type) (m : AList.t A) : list A := map snd m.

(** The nested data as JavaScript values. *)
Definition author_value (a : NestedAuthor) : value :=
  VObj [("username", VStr (author_username a));
        ("name", VStr (author_name a))].

Definition comment_value (c : NestedComment) : value :=
  VObj [("id", VStr (comment_id c));
        ("author", author_value (comment_author c));
        ("comment", VStr (comment_comment c))].

Definition post_value (p : NestedPost) : value :=
  VObj [("id", VStr (post_id p));
        ("author", author_value (post_author p));
        ("body", VStr (post_body p));
        ("comments", VArr (map comment_value (post_comments p)))].

(** blog.normalizers.ts: the nested data is first rewritten to the shape of
    the [Comment] and [Post] models, whose [author] is a username, and then
    given to the generic [normalize]. *)
Module BlogNormalizers.

Definition schemaMap : EntitySchemaMap :=
  [ ("users", createEntitySchema (Some "username") None);
    ("comments",
      createEntitySchema (Some "id") (Some [("author", hasOne "users")]));
    ("posts",
      createEntitySchema (Some "id")
        (Some [("author", hasOne "users"); ("comments", hasMany "comments")]))
  ].

Definition transformComment (c : NestedComment) : value :=
  VObj [("id", VStr (comment_id c));
        ("author", VStr (author_username (comment_author c)));
        ("comment", VStr (comment_comment c))].

Definition transformPost (p : NestedPost) : value :=
  let transformedComments := map transformComment (post_comments p) in
  VObj [("id", VStr (post_id p));
        ("author", VStr (author_username (post_author p)));
        ("body", VStr (post_body p));
        ("comments", VArr transformedComments)].

Definition normalizeBlogData (blogPosts : list NestedPost)
  : outcome BlogCollections :=
  let transformedData := VArr (map transformPost blogPosts) in
  normalizedData <- normalize schemaMap transformedData "posts" ;;
  let ents := entities normalizedData in
  Ok {| blog_users := object_values (collection_of ents "users");
        blog_comments := object_values (collection_of ents "comments");
        blog_posts := object_values (collection_of ents "posts") |}.

End BlogNormalizers.

(** utils/normalization.utils.ts: the collections are filled by hand, in
    two nested [forEach] loops. *)
Module NormalizationUtils.

(** [if (!users[a.username]) users[a.username] = { username, name }]; the
    objects held in [users] are truthy. *)
Definition add_author (users : AList.t record) (a : NestedAuthor)
  : AList.t record :=
  match AList.lookup users (author_username a) with
  | Some _ => users
  | None =>
      AList.set users (author_username a)
        [("username", VStr (author_username a));
         ("name", VStr (author_name a))]
  end.

(** The body of [post.comments.forEach], on the users, the comments and the
    [commentIds] collected so far. *)
Definition add_comment
    (acc : AList.t record * AList.t record * list string)
    (c : NestedComment) : AList.t record * AList.t record * list string :=
  let '(users, comments, commentIds) := acc in
  let users := add_author users (comment_author c) in
  let comments :=
    AList.set comments (comment_id c)
      [("id", VStr (comment_id c));
       ("author", VStr (author_username (comment_author c)));
       ("comment", VStr (comment_comment c))] in
  (users, comments, commentIds ++ [comment_id c]).

(** The body of [blogPosts.forEach]. *)
Definition add_post
    (acc : AList.t record * AList.t record * AList.t record)
    (p : NestedPost) : AList.t record * AList.t record * AList.t record :=
  let '(users, comments, posts) := acc in
  let users := add_author users (post_author p) in
  let '(users, comments, commentIds) :=
    fold_left add_comment (post_comments p) (users, comments, []) in
  let posts :=
    AList.set posts (post_id p)
      [("id", VStr (post_id p));
       ("author", VStr (author_username (post_author p)));
       ("body", VStr (post_body p));
       ("comments", VArr (map VStr commentIds))] in
  (users, comments, posts).

Definition collect (blogPosts : list NestedPost)
  : AList.t record * AList.t record * AList.t record :=
  fold_left add_post blogPosts ([], [], []).

Definition normalizeBlogData (blogPosts : list NestedPost)
  : BlogCollections :=
  let '(users, comments, posts) := collect blogPosts in
  {| blog_users := object_values users;
     blog_comments := object_values comments;
     blog_posts := object_values posts |}.

Definition sampleBlogData : list NestedPost :=
  [ {| post_id := "post1";
       post_author := {| author_username := "user1"; author_name := "User 1" |};
       post_body := "This is the first post content.";
       post_comments :=
         [ {| comment_id := "comment1";
              comment_author :=
                {| author_username := "user2"; author_name := "User 2" |};
              comment_comment := "Great post!" |};
           {| comment_id := "comment2";
              comment_author :=
                {| author_username := "user3"; author_name := "User 3" |};
              comment_comment := "I learned a lot from this." |} ] |};
    {| post_id := "post2";
       post_author := {| author_username := "user2"; author_name := "User 2" |};
       post_body := "This is the second post content.";
       post_comments :=
         [ {| comment_id := "comment3";
              comment_author :=
                {| author_username := "user3"; author_name := "User 3" |};
              comment_comment := "Interesting perspective!" |};
           {| comment_id := "comment4";
              comment_author :=
                {| author_username := "user1"; author_name := "User 1" |};
              comment_comment := "I disagree with some points." |};
           {| comment_id := "comment5";
              comment_author :=
                {| author_username := "user3"; author_name := "User 3" |};
              comment_comment := "Could you elaborate more?" |} ] |} ].

End NormalizationUtils.

(** The authors nested anywhere in the blog data. *)
Definition authors_of (blogPosts : list NestedPost) : list NestedAuthor :=
  flat_map (fun p => post_author p :: map comment_author (post_comments p))
           blogPosts.

(** Authors with the same username have the same name. *)
Definition consistent_authors (authors : list NestedAuthor) : Prop :=
  forall a b, In a authors -> In b authors ->
              author_username a = author_username b ->
              author_name a = author_name b.

(** Every user of the collection is one of the authors, stored under the
    author's username. *)
Definition known_authors (authors : list NestedAuthor)
    (users : AList.t record) : Prop :=
  forall k r, AList.lookup users k = Some r ->
              exists a, In a authors /\ author_username a = k
                        /\ r = own_props (author_value a).

(** The [User], [Comment] and [Post] objects of the models that the
    hand-written normalizer builds for a nested author, comment and post. *)
Definition author_record (a : NestedAuthor) : record :=
  [("username", VStr (author_username a)); ("name", VStr (author_name a))].

Definition comment_record (c : NestedComment) : record :=
  [("id", VStr (comment_id c));
   ("author", VStr (author_username (comment_author c)));
   ("comment", VStr (comment_comment c))].

Definition post_record (p : NestedPost) : record :=
  [("id", VStr (post_id p));
   ("author", VStr (author_username (post_author p)));
   ("body", VStr (post_body p));
   ("comments", VArr (map VStr (map comment_id (post_comments p))))].

(** The first author of the list with the given username. *)
Definition first_author (authors : list NestedAuthor) (username : string)
  : option NestedAuthor :=
  find (fun a => String.eqb (author_username a) username) authors.

(** ** normalized-blog.store.ts: the blog store built on the feature

    The methods that [withMethods] adds to the store. The store is the
    state of the normalization feature together with what the methods
    have written with [console.error]. A method returns the store it
    leaves behind and how the call ended; an exception ends a [forEach]
    at the element that threw, with the updates made so far in place. *)

Record BlogStoreState : Type := {
  bs_state : NormalizationState;
  bs_console : list string
}.

Definition with_state (s : BlogStoreState) (st : NormalizationState)
  : BlogStoreState :=
  {| bs_state := st; bs_console := bs_console s |}.

(** [console.error(message)]. *)
Definition console_error (s : BlogStoreState) (message : string)
  : BlogStoreState :=
  {| bs_state := bs_state s; bs_console := bs_console s ++ [message] |}.

(** [l.forEach(f)] for an [f] that updates the store and may throw. *)
Fixpoint forEach (A : Type)
    (f : A -> BlogStoreState -> BlogStoreState * outcome unit)
    (l : list A) (s : BlogStoreState) : BlogStoreState * outcome unit :=
  match l with
  | [] => (s, Ok tt)
  | x :: l' =>
      match f x s with
      | (s1, Ok _) => forEach f l' s1
      | (s1, Throw e) => (s1, Throw e)
      | (s1, Diverge) => (s1, Diverge)
      end
  end.

(** [typeof v === 'object'], which holds of [null] too. *)
Definition typeof_object (v : value) : bool :=
  match v with
  | VNull | VArr _ | VObj _ => true
  | _ => false
  end.

(** [typeof v === 'string']. *)
Definition typeof_string (v : value) : bool :=
  match v with
  | VStr _ => true
  | _ => false
  end.

(** [v === s] for a string [s]; [includes] compares with a string in the
    same way. *)
Definition strict_eq_string (v : value) (s : string) : bool :=
  match v with
  | VStr s' => String.eqb s' s
  | _ => false
  end.

(** The receiver of an array method ([v.map], [v.filter], [v.forEach]):
    anything but an array has no such method, or is [null] or
    [undefined], and the call throws. *)
Definition as_array (v : value) : outcome (list value) :=
  match v with
  | VArr l => Ok l
  | _ => Throw TypeError
  end.

(** The characters of a string, as one-character strings. *)
Fixpoint characters (s : string) : list value :=
  match s with
  | EmptyString => []
  | String c s' => VStr (String c EmptyString) :: characters s'
  end.

(** [[...v]]: arrays and strings are iterable, the other values are not. *)
Definition spread_iterable (v : value) : outcome (list value) :=
  match v with
  | VArr l => Ok l
  | VStr s => Ok (characters s)
  | _ => Throw TypeError
  end.

(** [s.includes(sub)] on strings. *)
Fixpoint string_includes (s sub : string) : bool :=
  String.prefix sub s
  || match s with
     | EmptyString => false
     | String _ s' => string_includes s' sub
     end.

(** [v.includes(s)] for a string [s]: arrays and strings have the method. *)
Definition includes_string (v : value) (s : string) : outcome bool :=
  match v with
  | VArr l => Ok (existsb (fun x => strict_eq_string x s) l)
  | VStr str => Ok (string_includes str s)
  | _ => Throw TypeError
  end.

Module NormalizedBlogStore.
Section Methods.
(** The bound on the recursion of the denormalizing selectors. *)
Variable fuel : nat.

Definition schemas : EntitySchemaMap := blogSchemas.

(** [store.addNormalizedData(data, entityType)]. *)
Definition store_addNormalizedData (s : BlogStoreState) (data : value)
    (entityType : string) : BlogStoreState * outcome unit :=
  let r := addNormalizedData_steps schemas (bs_state s) data entityType in
  (with_state s (last (fst r) (bs_state s)), snd r).

Definition loadSampleData (s : BlogStoreState)
  : BlogStoreState * outcome unit :=
  store_addNormalizedData s sampleBlogData "posts".

Definition getAllPosts (s : BlogStoreState) : outcome value :=
  selectDenormalized schemas fuel (bs_state s) "posts" VUndef.

Definition getPostById (s : BlogStoreState) (postId : string)
  : outcome value :=
  selectDenormalized schemas fuel (bs_state s) "posts" (VStr postId).

Definition getAllUsers (s : BlogStoreState) : outcome value :=
  selectDenormalized schemas fuel (bs_state s) "users" VUndef.

Definition getUserByUsername (s : BlogStoreState) (username : string)
  : outcome value :=
  selectDenormalized schemas fuel (bs_state s) "users" (VStr username).

Definition getAllComments (s : BlogStoreState) : outcome value :=
  selectDenormalized schemas fuel (bs_state s) "comments" VUndef.

Definition getCommentById (s : BlogStoreState) (commentId : string)
  : outcome value :=
  selectDenormalized schemas fuel (bs_state s) "comments" (VStr commentId).

Definition getCommentsForPost (s : BlogStoreState) (postId : string)
  : outcome value :=
  post <- getPostById s postId ;;
  if negb (truthy post) then Ok (VArr [])
  else
    comments <- get_prop post "comments" ;;
    comments <- as_array comments ;;
    mapped <-
      mapM (fun comment =>
              if typeof_string comment
              then selectDenormalized schemas fuel (bs_state s) "comments"
                                      comment
              else Ok comment)
           comments ;;
    Ok (VArr (filter (fun comment => negb (is_null comment)) mapped)).

(** [now] is the value of [Date.now()]. *)
Definition addComment (s : BlogStoreState) (now : Z) (postId : string)
    (comment : record) : BlogStoreState * outcome unit :=
  let commentId := ("comment" ++ string_of_Z now)%string in
  let newComment := AList.set comment "id" (VStr commentId) in
  match store_addNormalizedData s (VObj newComment) "comments" with
  | (s1, Ok _) =>
      let post := getEntityById (bs_state s1) "posts" (VStr postId) in
      if truthy post then
        match (comments <- get_prop post "comments" ;;
               spread_iterable comments) with
        | Ok comments =>
            let '(result, st2) :=
              updateEntity (bs_state s1) "posts" (VStr postId)
                [("comments", VArr (comments ++ [VStr commentId]))] in
            match result with
            | Success _ => (with_state s1 st2, Ok tt)
            | Failure error =>
                (console_error (with_state s1 st2)
                   ("Failed to update post with new comment: " ++ error)%string,
                 Ok tt)
            end
        | Throw e => (s1, Throw e)
        | Diverge => (s1, Diverge)
        end
      else (s1, Ok tt)
  | (s1, Throw e) => (s1, Throw e)
  | (s1, Diverge) => (s1, Diverge)
  end.

Definition updateUserName (s : BlogStoreState) (username name : string)
  : BlogStoreState :=
  let '(result, st1) :=
    updateEntity (bs_state s) "users" (VStr username)
                 [("name", VStr name)] in
  match result with
  | Success _ => with_state s st1
  | Failure error =>
      console_error (with_state s st1)
        ("Failed to update user: " ++ error)%string
  end.

(** The body of the [forEach] of removeComment, for one denormalized
    post. *)
Definition removeComment_post (commentId : string) (post : value)
    (s : BlogStoreState) : BlogStoreState * outcome unit :=
  match (comments <- get_prop post "comments" ;;
         comments <- as_array comments ;;
         postCommentIds <-
           mapM (fun comment => get_prop comment "id")
                (filter typeof_object comments) ;;
         if existsb (fun x => strict_eq_string x commentId) postCommentIds
         then
           postId <- get_prop post "id" ;;
           let originalPost := getEntityById (bs_state s) "posts" postId in
           if truthy originalPost then
             comments <- get_prop originalPost "comments" ;;
             comments <- as_array comments ;;
             Ok (Some (postId,
                       filter (fun id => negb (strict_eq_string id commentId))
                              comments))
           else Ok None
         else Ok None) with
  | Ok (Some (postId, remaining)) =>
      let '(result, st1) :=
        updateEntity (bs_state s) "posts" postId
                     [("comments", VArr remaining)] in
      match result with
      | Success _ => (with_state s st1, Ok tt)
      | Failure error =>
          (console_error (with_state s st1)
             ("Failed to remove comment reference from post: " ++ error)%string,
           Ok tt)
      end
  | Ok None => (s, Ok tt)
  | Throw e => (s, Throw e)
  | Diverge => (s, Diverge)
  end.

Definition removeComment (s : BlogStoreState) (commentId : string)
  : BlogStoreState * outcome unit :=
  match (posts <- getAllPosts s ;; as_array posts) with
  | Ok posts =>
      match forEach (removeComment_post commentId) posts s with
      | (s1, Ok _) =>
          (with_state s1 (removeEntity (bs_state s1) "comments"
                                       (VStr commentId)),
           Ok tt)
      | (s1, Throw e) => (s1, Throw e)
      | (s1, Diverge) => (s1, Diverge)
      end
  | Throw e => (s, Throw e)
  | Diverge => (s, Diverge)
  end.

End Methods.
End NormalizedBlogStore.

(** The earlier version of the store, whose removeComment looks for the
    identifier among the denormalized comments themselves. *)
Module NormalizedBlogStoreEarly.
Section Methods.
Variable fuel : nat.

Definition removeComment_post (commentId : string) (post : value)
    (s : BlogStoreState) : BlogStoreState * outcome unit :=
  match (comments <- get_prop post "comments" ;;
         found <- includes_string comments commentId ;;
         if found then
           postId <- get_prop post "id" ;;
           comments <- as_array comments ;;
           Ok (Some (postId,
                     filter (fun id => negb (strict_eq_string id commentId))
                            comments))
         else Ok None) with
  | Ok (Some (postId, remaining)) =>
      let '(result, st1) :=
        updateEntity (bs_state s) "posts" postId
                     [("comments", VArr remaining)] in
      match result with
      | Success _ => (with_state s st1, Ok tt)
      | Failure error =>
          (console_error (with_state s st1)
             ("Failed to remove comment reference from post: " ++ error)%string,
           Ok tt)
      end
  | Ok None => (s, Ok tt)
  | Throw e => (s, Throw e)
  | Diverge => (s, Diverge)
  end.

Definition removeComment (s : BlogStoreState) (commentId : string)
  : BlogStoreState * outcome unit :=
  match (posts <-
           selectDenormalized NormalizedBlogStore.schemas fuel (bs_state s)
                              "posts" VUndef ;;
         as_array posts) with
  | Ok posts =>
      match forEach (removeComment_post commentId) posts s with
      | (s1, Ok _) =>
          (with_state s1 (removeEntity (bs_state s1) "comments"
                                       (VStr commentId)),
           Ok tt)
      | (s1, Throw e) => (s1, Throw e)
      | (s1, Diverge) => (s1, Diverge)
      end
  | Throw e => (s, Throw e)
  | Diverge => (s, Diverge)
  end.

End Methods.
End NormalizedBlogStoreEarly.

(** A plain object. *)
Definition is_plain_object (v : value) : bool :=
  match v with
  | VObj _ => true
  | _ => false
  end.

(** Every relationship of the schema map names a type of the map. *)
Definition closed_schemas (schemaMap : EntitySchemaMap) : bool :=
  forallb
    (fun ts =>
       forallb
         (fun kc =>
            match AList.lookup schemaMap (type (snd kc)) with
            | Some _ => true
            | None => false
            end)
         (relationships_of (snd ts)))
    schemaMap.

(** The entities of a store that respects the [Post] and [Comment]
    models: every post and every comment is stored under its [id], and the
    [comments] of every post is an array of strings; the posts have
    distinct keys. *)
Definition typed_blog_store (ents : Entities) : bool :=
  nodupb (AList.keys (collection_of ents "posts"))
  && forallb
       (fun kp =>
          strict_eq_string (get (snd kp) "id") (fst kp)
          && match get (snd kp) "comments" with
             | VArr l => forallb typeof_string l
             | _ => false
             end)
       (collection_of ents "posts")
  && forallb (fun kc => strict_eq_string (get (snd kc) "id") (fst kc))
             (collection_of ents "comments").

(** A comment is stored under the identifier. *)
Definition stored_comment (ents : Entities) (id : string) : bool :=
  match entity_at ents "comments" id with
  | Some _ => true
  | None => false
  end.

(** [p'] is the post [p] with the identifier taken out of its comments and
    nothing else changed. *)
Definition cleaned_post (commentId : string) (p p' : record) : Prop :=
  (exists l,
      get p "comments" = VArr l
      /\ get p' "comments"
         = VArr (filter (fun id => negb (strict_eq_string id commentId)) l))
  /\ forall key, key <> "comments" ->
                 AList.lookup p' key = AList.lookup p key.

(** What removeComment reads off the denormalized view of the post stored
    under [k]: its [id], and the identifiers of the comments it embeds,
    which are the stored ones among the identifiers the post lists. *)
Definition post_view_of (ents : Entities) (k : string) (v : value) : Prop :=
  exists view cviews p l,
    v = VObj view
    /\ get view "id" = VStr k
    /\ get view "comments" = VArr cviews
    /\ mapM (fun comment => get_prop comment "id")
            (filter typeof_object cviews)
       = Ok (map VStr (filter (stored_comment ents) l))
    /\ entity_at ents "posts" k = Some p
    /\ get p "comments" = VArr (map VStr l).

(** The computed selectors [<type>List] and [<type>Loading] of the
    feature. *)
Definition entityList (st : NormalizationState) (entityType : string)
  : list record :=
  object_values (collection_of (st_entities st) entityType).

Definition entityLoading (st : NormalizationState) (entityType : string)
  : bool :=
  match AList.lookup (st_loading st) entityType with
  | Some b => b
  | None => false
  end.

(** ** The names and identifiers on which the embedding follows the code

    JavaScript reads a property through the prototype chain, so that
    [o[k]] finds a member of [Object.prototype] where the object has no
    property [k] of its own, and a member of the wrapper prototypes on a
    string, an array, a number or a boolean; it assigns [__proto__] through
    a setter; it prints a number of 1e21 or more in exponent form; and it
    lists integer-like property names first, in ascending order. The
    embedding reads and writes own properties in insertion order and prints
    integers in decimal. The predicates below delimit the names and
    identifiers on which the two agree; the statements that depend on the
    agreement assume them. *)

(** The string-keyed members of [Object.prototype]. *)
Definition object_prototype_members : list string :=
  [ "constructor"; "__proto__"; "hasOwnProperty"; "isPrototypeOf";
    "propertyIsEnumerable"; "toLocaleString"; "toString"; "valueOf";
    "__defineGetter__"; "__defineSetter__"; "__lookupGetter__";
    "__lookupSetter__" ].

(** The string-keyed members of [String.prototype], [Array.prototype],
    [Number.prototype] and [Boolean.prototype] that [Object.prototype] does
    not have, and [length]. *)
Definition wrapper_prototype_members : list string :=
  [ "length";
    "anchor"; "at"; "big"; "blink"; "bold"; "charAt"; "charCodeAt";
    "codePointAt"; "concat"; "endsWith"; "fixed"; "fontcolor"; "fontsize";
    "includes"; "indexOf"; "isWellFormed"; "italics"; "lastIndexOf"; "link";
    "localeCompare"; "match"; "matchAll"; "normalize"; "padEnd"; "padStart";
    "repeat"; "replace"; "replaceAll"; "search"; "slice"; "small"; "split";
    "startsWith"; "strike"; "sub"; "substr"; "substring"; "sup";
    "toLocaleLowerCase"; "toLocaleUpperCase"; "toLowerCase"; "toUpperCase";
    "toWellFormed"; "trim"; "trimEnd"; "trimLeft"; "trimRight"; "trimStart";
    "copyWithin"; "entries"; "every"; "fill"; "filter"; "find"; "findIndex";
    "findLast"; "findLastIndex"; "flat"; "flatMap"; "forEach"; "join";
    "keys"; "map"; "pop"; "push"; "reduce"; "reduceRight"; "reverse";
    "shift"; "some"; "sort"; "splice"; "toReversed"; "toSorted";
    "toSpliced"; "unshift"; "values"; "with";
    "toExponential"; "toFixed"; "toPrecision" ].

(** A name that no object inherits: read on a plain object it finds an own
    property or nothing, and assigned it creates or overwrites an own
    property. *)
Definition ordinary_name (k : string) : bool :=
  negb (existsb (String.eqb k) object_prototype_members).

(** The decimal form of a natural number, which JavaScript lists before the
    other property names. *)
Definition index_like (k : string) : bool :=
  match NilZero.uint_of_string k with
  | Some u => String.eqb (string_of_Z (Z.of_uint u)) k
  | None => false
  end.

(** An identifier key that reads as [undefined] on every value without an
    own property of that name, strings, arrays, numbers and booleans
    included. *)
Definition ordinary_id_key (k : string) : bool :=
  ordinary_name k
  && negb (existsb (String.eqb k) wrapper_prototype_members)
  && negb (index_like k).

(** [Number.isSafeInteger(n)]: such a number is printed in decimal. *)
Definition safe_integer (n : Z) : bool :=
  (Z.abs n <=? 9007199254740991)%Z.

(** An identifier of the type [EntityId = string | number] whose property
    key is an ordinary name and is the one [to_string] gives. *)
Definition ordinary_id (v : value) : bool :=
  match v with
  | VStr s => ordinary_name s
  | VNum n => safe_integer n
  | _ => false
  end.

(** A name that is read, written and listed as the embedding does. *)
Definition ordinary_key (k : string) : bool :=
  ordinary_name k && negb (index_like k).

Definition ordinary_schema (schema : EntitySchema) : bool :=
  ordinary_id_key (id_key schema)
  && forallb (fun kc => ordinary_key (fst kc)
                        && ordinary_key (type (snd kc)))
             (relationships_of schema).

(** The type names, identifier keys and relationship names of the schema
    map are ordinary. *)
Definition ordinary_schemas (schemaMap : EntitySchemaMap) : bool :=
  forallb (fun ts => ordinary_key (fst ts) && ordinary_schema (snd ts))
          schemaMap.

(** The identifiers of all entities nested in the input are ordinary. *)
Definition ordinary_input (schemaMap : EntitySchemaMap) (rootType : string)
    (input : value) : bool :=
  forallb (fun o => ordinary_id (id_of schemaMap (fst o) (snd o)))
          (input_occurrences schemaMap rootType input).

(** What denormalizeSingle looks up for a relationship field holds
    ordinary identifiers only. *)
Definition ordinary_reference (cfg : RelationshipConfig) (v : value)
  : bool :=
  match v with
  | VUndef | VNull => true
  | VArr ids => isArray cfg && forallb ordinary_id ids
  | _ => isArray cfg || ordinary_id v
  end.

(** The collections are stored under ordinary type names, the entities
    under ordinary keys, and the relationship fields of the entities refer
    to ordinary identifiers. *)
Definition ordinary_store (schemaMap : EntitySchemaMap) (ents : Entities)
  : bool :=
  forallb
    (fun tm =>
       ordinary_name (fst tm)
       && forallb
            (fun ke =>
               ordinary_name (fst ke)
               && forallb
                    (fun kc => ordinary_reference (snd kc)
                                                  (get (snd ke) (fst kc)))
                    (match AList.lookup schemaMap (fst tm) with
                     | Some schema => relationships_of schema
                     | None => []
                     end))
            (snd tm))
    ents.

(** The keys that [Object.keys] lists in the order of their insertion:
    none of them is the decimal form of a natural number. *)
Definition insertion_ordered {A} (m : AList.t A) : bool :=
  forallb (fun k => negb (index_like k)) (AList.keys m).

(** The usernames and the identifiers of the nested blog data are ordinary
    names, listed in the order of their insertion. *)
Definition ordinary_blog (blogPosts : list NestedPost) : bool :=
  forallb (fun a => ordinary_key (author_username a)) (authors_of blogPosts)
  && forallb (fun c => ordinary_key (comment_id c))
             (flat_map post_comments blogPosts)
  && forallb (fun p => ordinary_key (post_id p)) blogPosts.

(** A schema map that declares the author of a post as a user and has no
    schema for users. *)
Definition postsWithoutUsers : EntitySchemaMap :=
  [("posts", createEntitySchema (Some "id")
               (Some [("author", hasOne "users")]))].

(** * Properties *)

(** ** Association lists *)

Module AListFacts.
Import AList.
Section Facts.
Variable A : Type.
Implicit Types (m : AList.t A) (k : string) (v : A).

Lemma lookup_set_eq m k v : lookup (set m k v) k = Some v.
Proof.
  induction m as [|[k' v'] m IH]; simpl.
  - now rewrite String.eqb_refl.
  - destruct (String.eqb k' k) eqn:E; simpl; rewrite E; auto.
Qed.

Lemma lookup_set_neq m k k' v :
  k <> k' -> lookup (set m k v) k' = lookup m k'.
Proof.
  intros Hne. induction m as [|[k0 v0] m IH]; simpl.
  - destruct (String.eqb_spec k k'); congruence.
  - destruct (String.eqb_spec k0 k); simpl.
    + subst. destruct (String.eqb_spec k k'); congruence.
    + now rewrite IH.
Qed.

Lemma lookup_remove_eq m k : lookup (remove m k) k = None.
Proof.
  induction m as [|[k' v'] m IH]; simpl; auto.
  destruct (String.eqb k' k) eqn:E; simpl; auto. now rewrite E.
Qed.

Lemma lookup_remove_neq m k k' :
  k <> k' -> lookup (remove m k) k' = lookup m k'.
Proof.
  intros Hne. induction m as [|[k0 v0] m IH]; simpl; auto.
  destruct (String.eqb_spec k0 k); simpl.
  - subst. destruct (String.eqb_spec k k'); congruence.
  - now rewrite IH.
Qed.

Lemma lookup_none_remove m k : lookup m k = None -> remove m k = m.
Proof.
  induction m as [|[k' v'] m IH]; simpl; auto.
  destruct (String.eqb k' k); [discriminate|].
  intros H. now rewrite IH.
Qed.

Lemma lookup_in m k v : lookup m k = Some v -> In (k, v) m.
Proof.
  induction m as [|[k' v'] m IH]; simpl; [discriminate|].
  destruct (String.eqb_spec k' k).
  - intros [= ->]. subst. now left.
  - auto.
Qed.

Lemma lookup_none_keys m k : lookup m k = None <-> ~ In k (keys m).
Proof.
  induction m as [|[k' v'] m IH]; simpl.
  - tauto.
  - destruct (String.eqb_spec k' k).
    + split; [discriminate|]. intros H. exfalso. apply H. now left.
    + rewrite IH. unfold keys. tauto.
Qed.

Lemma in_lookup m k v :
  NoDup (keys m) -> In (k, v) m -> lookup m k = Some v.
Proof.
  induction m as [|[k' v'] m IH]; simpl; [tauto|].
  intros Hnd [Heq|Hin]; inversion Hnd as [|? ? Hni Hnd']; subst.
  - injection Heq as -> ->. now rewrite String.eqb_refl.
  - destruct (String.eqb_spec k' k).
    + subst. exfalso. apply Hni. change k with (fst (k, v)).
      now apply in_map.
    + auto.
Qed.

Lemma keys_set_present m k v :
  lookup m k <> None -> keys (set m k v) = keys m.
Proof.
  induction m as [|[k' v'] m IH]; simpl; [congruence|].
  destruct (String.eqb_spec k' k); simpl; auto.
  intros H. f_equal. now apply IH.
Qed.

Lemma lookup_app m1 m2 k :
  lookup (m1 ++ m2) k =
  match lookup m1 k with Some v => Some v | None => lookup m2 k end.
Proof.
  induction m1 as [|[k' v'] m1 IH]; simpl; auto.
  destruct (String.eqb k' k); auto.
Qed.

(** A property written several times by a spread keeps its last value. *)
Lemma lookup_spread m m2 k :
  lookup (spread m m2) k =
  match lookup (rev m2) k with Some v => Some v | None => lookup m k end.
Proof.
  unfold spread. revert m.
  induction m2 as [|[k' v'] m2 IH]; intros m; simpl; auto.
  rewrite IH, lookup_app. destruct (lookup (rev m2) k); auto.
  simpl. destruct (String.eqb_spec k' k).
  - subst. apply lookup_set_eq.
  - now apply lookup_set_neq.
Qed.

(** Two objects with the same keys in the same order and the same value
    at every key are the same object. *)
Lemma ext m1 m2 :
  keys m1 = keys m2 -> NoDup (keys m1) ->
  (forall k, lookup m1 k = lookup m2 k) -> m1 = m2.
Proof.
  revert m2.
  induction m1 as [|[k1 v1] m1 IH]; intros [|[k2 v2] m2]; simpl;
    try discriminate; auto.
  intros [= -> Hk] Hnd Hl. inversion Hnd as [|? ? Hni Hnd']; subst.
  pose proof (Hl k2) as H2. rewrite String.eqb_refl in H2.
  injection H2 as ->. f_equal. apply IH; auto.
  intros k. specialize (Hl k). destruct (String.eqb_spec k2 k); auto.
  subst. pose proof Hni as Hni2. apply lookup_none_keys in Hni2.
  rewrite Hni2. symmetry. apply lookup_none_keys.
  unfold keys in *. now rewrite <- Hk.
Qed.
End Facts.
End AListFacts.

(** ** Outcomes *)

Lemma bind_ok {A B} (c : outcome A) (k : A -> outcome B) b :
  bind c k = Ok b -> exists a, c = Ok a /\ k a = Ok b.
Proof. destruct c; simpl; try discriminate. eauto. Qed.

Lemma bind_not_diverge {A B} (c : outcome A) (k : A -> outcome B) :
  c <> Diverge -> (forall a, c = Ok a -> k a <> Diverge) ->
  bind c k <> Diverge.
Proof. destruct c; simpl; auto; congruence. Qed.

Ltac bind_inv H :=
  let a := fresh "a" in
  let Ha := fresh "Hc" in
  apply bind_ok in H; destruct H as (a & Ha & H).

Lemma list_max_in (l : list nat) n : In n l -> n <= list_max l.
Proof.
  intros Hin.
  assert (H : Forall (fun k => k <= list_max l) l)
    by (apply list_max_le; lia).
  rewrite Forall_forall in H. auto.
Qed.

Lemma depth_field (f : record) k v :
  AList.lookup f k = Some v -> depth v < depth (VObj f).
Proof.
  intros H. apply AListFacts.lookup_in in H. simpl.
  apply Nat.lt_succ_r. apply list_max_in.
  apply (in_map (fun kv => depth (snd kv))) in H. exact H.
Qed.

Lemma depth_item (l : list value) x : In x l -> depth x < depth (VArr l).
Proof.
  intros H. simpl. apply Nat.lt_succ_r. apply list_max_in.
  now apply in_map.
Qed.

(** ** normalize always returns or throws *)

Section NormalizeTotal.
Variable schemaMap : EntitySchemaMap.

(** The identifier that processEntity returns is a field of the entity. *)
Lemma processEntity_id fuel e ty sch ents id ents' :
  processEntity schemaMap fuel e ty sch ents = Ok (id, ents') ->
  exists f s, e = VObj f /\ sch = Some s /\
              AList.lookup f (id_key s) = Some id /\ id <> VUndef.
Proof.
  destruct fuel as [|fuel]; simpl; [discriminate|].
  destruct sch as [s|]; [|discriminate].
  intros H. bind_inv H.
  destruct (is_undefined a) eqn:Hu; [discriminate|].
  bind_inv H. destruct a0 as [pe e1]. injection H as <- <-.
  destruct e; simpl in Hc; try discriminate; injection Hc as <-;
    try discriminate.
  exists fields, s. unfold get in *.
  destruct (AList.lookup fields (id_key s)); [|discriminate].
  repeat split; auto. intros ->. discriminate.
Qed.

Lemma processEntity_id_depth fuel e ty sch ents id ents' :
  processEntity schemaMap fuel e ty sch ents = Ok (id, ents') ->
  depth id < depth e.
Proof.
  intros H. apply processEntity_id in H.
  destruct H as (f & s & -> & _ & Hl & _). eapply depth_field; eauto.
Qed.

Lemma mapS_depth (f : value -> Entities -> outcome (value * Entities))
    l s ids s' :
  (forall x s y s', f x s = Ok (y, s') -> depth y < depth x) ->
  mapS f l s = Ok (ids, s') ->
  list_max (map depth ids) <= list_max (map depth l).
Proof.
  intros Hf. revert s ids s'.
  induction l as [|x l IH]; intros s ids s' H; simpl in H.
  - injection H as <- <-. auto.
  - bind_inv H. destruct a as [y s1]. bind_inv H. destruct a as [ys s2].
    injection H as <- <-. simpl.
    apply Hf in Hc. apply IH in Hc0. lia.
Qed.

Lemma mapS_not_diverge {A B S} (f : A -> S -> outcome (B * S)) l s :
  (forall x s, In x l -> f x s <> Diverge) -> mapS f l s <> Diverge.
Proof.
  revert s. induction l as [|x l IH]; intros s Hf; simpl; [discriminate|].
  apply bind_not_diverge; [apply Hf; now left|].
  intros [y s1] _. apply bind_not_diverge.
  - apply IH. intros; apply Hf; now right.
  - intros [ys s2] _. discriminate.
Qed.

Lemma process_relationships_not_diverge fuel rels :
  (forall e ty sch ents,
      depth e < fuel ->
      processEntity schemaMap fuel e ty sch ents <> Diverge) ->
  forall pe ents,
    (forall k v, AList.lookup pe k = Some v -> depth v < fuel) ->
    process_relationships schemaMap (processEntity schemaMap fuel)
                          rels pe ents <> Diverge.
Proof.
  intros IH. induction rels as [|[key cfg] rels IHr]; intros pe ents Hpe;
    simpl; [discriminate|].
  unfold get. destruct (AList.lookup pe key) as [v|] eqn:Hl; simpl; auto.
  destruct (is_undefined v); auto.
  pose proof (Hpe _ _ Hl) as Hd.
  destruct (isArray cfg).
  - destruct v; auto.
    apply bind_not_diverge.
    + apply mapS_not_diverge. intros x s Hin. apply IH.
      apply depth_item in Hin. lia.
    + intros [ids e1] Hm. apply IHr. intros k v Hk.
      destruct (String.eqb_spec key k).
      * subst. rewrite AListFacts.lookup_set_eq in Hk. injection Hk as <-.
        apply mapS_depth in Hm.
        -- simpl in *. lia.
        -- intros. eapply processEntity_id_depth; eauto.
      * rewrite AListFacts.lookup_set_neq in Hk; eauto.
  - destruct (is_null v) eqn:Hn; auto.
    apply bind_not_diverge.
    + now apply IH.
    + intros [id e1] Hm. apply IHr. intros k v' Hk.
      destruct (String.eqb_spec key k).
      * subst. rewrite AListFacts.lookup_set_eq in Hk. injection Hk as <-.
        apply processEntity_id_depth in Hm. lia.
      * rewrite AListFacts.lookup_set_neq in Hk; eauto.
Qed.
Lemma processEntity_not_diverge fuel :
  forall e ty sch ents,
    depth e < fuel ->
    processEntity schemaMap fuel e ty sch ents <> Diverge.
Proof.
  induction fuel as [|fuel IH]; intros e ty sch ents Hd; [lia|].
  simpl. destruct sch as [s|]; [|discriminate].
  apply bind_not_diverge.
  - destruct e; simpl; discriminate.
  - intros id Hid. destruct (is_undefined id); [discriminate|].
    apply bind_not_diverge; [|intros [pe e1] _; discriminate].
    destruct (relationships s) as [rels|]; [|discriminate].
    apply process_relationships_not_diverge.
    + intros. apply IH. lia.
    + intros k v Hl. destruct e; simpl in Hl; try discriminate.
      apply depth_field in Hl. lia.
Qed.

Lemma normalize_not_diverge input schemaKey :
  normalize schemaMap input schemaKey <> Diverge.
Proof.
  unfold normalize, normalize_fuel.
  destruct (AList.lookup schemaMap schemaKey) as [s|]; [|discriminate].
  assert (Hsingle :
    (if truthy input
     then '(id, ents) <-
            processEntity schemaMap (S (depth input)) input schemaKey
                          (Some s) [] ;;
          Ok {| entities := ents; result := id |}
     else Ok {| entities := []; result := VUndef |}) <> Diverge).
  { destruct (truthy input); [|discriminate].
    apply bind_not_diverge; [|intros [? ?] _; discriminate].
    apply processEntity_not_diverge. lia. }
  destruct input; auto.
  apply bind_not_diverge; [|intros [? ?] _; discriminate].
  apply mapS_not_diverge. intros x s0 Hin.
  apply processEntity_not_diverge. apply depth_item in Hin. lia.
Qed.
(** More fuel than the depth of the input changes nothing. *)

Lemma mapS_agree {A B S} (f g : A -> S -> outcome (B * S)) l s :
  (forall x s, f x s <> Diverge -> g x s = f x s) ->
  mapS f l s <> Diverge -> mapS g l s = mapS f l s.
Proof.
  intros Hfg. revert s. induction l as [|x l IH]; intros s Hnd; simpl in *;
    auto.
  assert (Hx : f x s <> Diverge) by (intros E; rewrite E in Hnd; now apply Hnd).
  rewrite (Hfg x s Hx).
  destruct (f x s) as [[y s1]| |]; simpl in *; auto.
  rewrite IH; auto.
  intros E. rewrite E in Hnd. now apply Hnd.
Qed.

Lemma process_relationships_agree
    (f g : value -> string -> option EntitySchema -> Entities ->
           outcome (value * Entities)) rels :
  (forall e ty sch ents, f e ty sch ents <> Diverge ->
                         g e ty sch ents = f e ty sch ents) ->
  forall pe ents,
    process_relationships schemaMap f rels pe ents <> Diverge ->
    process_relationships schemaMap g rels pe ents
    = process_relationships schemaMap f rels pe ents.
Proof.
  intros Hfg. induction rels as [|[key cfg] rels IH]; intros pe ents Hnd;
    simpl in *; auto.
  destruct (is_undefined (get pe key)); auto.
  destruct (isArray cfg).
  - destruct (get pe key); auto.
    set (fi := fun item => f item (type cfg)
                             (AList.lookup schemaMap (type cfg))) in *.
    set (gi := fun item => g item (type cfg)
                             (AList.lookup schemaMap (type cfg))).
    assert (Hm : mapS fi items ents <> Diverge)
      by (intros E; rewrite E in Hnd; now apply Hnd).
    rewrite (mapS_agree fi gi) by (auto; intros; apply Hfg; auto).
    destruct (mapS fi items ents) as [[ids e1]| |]; simpl in *; auto.
  - destruct (is_null (get pe key)); auto.
    assert (Hm : f (get pe key) (type cfg)
                   (AList.lookup schemaMap (type cfg)) ents <> Diverge)
      by (intros E; rewrite E in Hnd; now apply Hnd).
    rewrite (Hfg _ _ _ _ Hm).
    destruct (f (get pe key) (type cfg) (AList.lookup schemaMap (type cfg))
                ents) as [[id e1]| |]; simpl in *; auto.
Qed.

Lemma processEntity_fuel n :
  forall m e ty sch ents,
    n <= m ->
    processEntity schemaMap n e ty sch ents <> Diverge ->
    processEntity schemaMap m e ty sch ents
    = processEntity schemaMap n e ty sch ents.
Proof.
  induction n as [|n IH]; intros m e ty sch ents Hle Hnd; [now elim Hnd|].
  destruct m as [|m]; [lia|]. simpl in *.
  destruct sch as [s|]; auto.
  destruct (get_prop e (id_key s)) as [id| |]; simpl in *; auto.
  destruct (is_undefined id); auto.
  destruct (relationships s) as [rels|]; auto.
  rewrite (process_relationships_agree
             (processEntity schemaMap n) (processEntity schemaMap m)); auto.
  - intros. apply IH; auto. lia.
  - intros E. rewrite E in Hnd. now apply Hnd.
Qed.

Lemma normalize_fuel_stable input schemaKey fuel :
  S (depth input) <= fuel ->
  normalize_fuel schemaMap fuel input schemaKey
  = normalize schemaMap input schemaKey.
Proof.
  intros Hle. pose proof (normalize_not_diverge input schemaKey) as Hnd.
  unfold normalize, normalize_fuel in *.
  destruct (AList.lookup schemaMap schemaKey) as [s|]; auto.
  assert (Hp : forall e ents,
             processEntity schemaMap (S (depth input)) e schemaKey (Some s)
                           ents <> Diverge ->
             processEntity schemaMap fuel e schemaKey (Some s) ents
             = processEntity schemaMap (S (depth input)) e schemaKey (Some s)
                             ents)
    by (intros; now apply processEntity_fuel).
  assert (Hsingle :
    (if truthy input
     then '(id, ents) <-
            processEntity schemaMap (S (depth input)) input schemaKey
                          (Some s) [] ;;
          Ok {| entities := ents; result := id |}
     else Ok {| entities := []; result := VUndef |}) <> Diverge ->
    (if truthy input
     then '(id, ents) <-
            processEntity schemaMap fuel input schemaKey (Some s) [] ;;
          Ok {| entities := ents; result := id |}
     else Ok {| entities := []; result := VUndef |})
    = (if truthy input
       then '(id, ents) <-
              processEntity schemaMap (S (depth input)) input schemaKey
                            (Some s) [] ;;
            Ok {| entities := ents; result := id |}
       else Ok {| entities := []; result := VUndef |})).
  { destruct (truthy input); auto. intros H. rewrite Hp; auto.
    intros E. rewrite E in H. now apply H. }
  destruct input; auto.
  rewrite (mapS_agree
             (fun item => processEntity schemaMap (S (depth (VArr items)))
                                        item schemaKey (Some s))
             (fun item => processEntity schemaMap fuel item schemaKey
                                        (Some s))); auto.
  intros E. rewrite E in Hnd. now apply Hnd.
Qed.
End NormalizeTotal.

(** ** Fuel only matters until the recursion bottoms out *)

Lemma mapM_agree {A B} (f g : A -> outcome B) l :
  (forall x, In x l -> f x <> Diverge -> g x = f x) ->
  mapM f l <> Diverge -> mapM g l = mapM f l.
Proof.
  induction l as [|x l IH]; intros Hfg Hnd; simpl in *; auto.
  assert (Hx : f x <> Diverge) by (intros E; rewrite E in Hnd; now apply Hnd).
  rewrite (Hfg x (or_introl eq_refl) Hx).
  destruct (f x) as [y| |]; simpl in *; auto.
  rewrite IH; auto.
  intros E. rewrite E in Hnd. now apply Hnd.
Qed.

Lemma denormalize_relationships_agree (f g : value -> string -> outcome value)
    rels :
  (forall id ty, f id ty <> Diverge -> g id ty = f id ty) ->
  forall de,
    denormalize_relationships f rels de <> Diverge ->
    denormalize_relationships g rels de = denormalize_relationships f rels de.
Proof.
  intros Hfg. induction rels as [|[key cfg] rels IH]; intros de Hnd;
    simpl in *; auto.
  destruct (is_undefined (get de key)); auto.
  destruct (isArray cfg).
  - destruct (get de key); auto.
    assert (Hm : mapM (fun id => f id (type cfg)) items <> Diverge)
      by (intros E; rewrite E in Hnd; now apply Hnd).
    rewrite (mapM_agree (fun id => f id (type cfg))
                        (fun id => g id (type cfg))); auto.
    destruct (mapM (fun id => f id (type cfg)) items); simpl in *; auto.
  - destruct (is_null (get de key)); auto.
    assert (Hm : f (get de key) (type cfg) <> Diverge)
      by (intros E; rewrite E in Hnd; now apply Hnd).
    rewrite (Hfg _ _ Hm).
    destruct (f (get de key) (type cfg)); simpl in *; auto.
Qed.

Section DenormalizeFuel.
Variable schemaMap : EntitySchemaMap.
Variable ents : Entities.

Lemma denormalizeSingle_fuel n :
  forall m id ty,
    n <= m ->
    denormalizeSingle schemaMap n id ty ents <> Diverge ->
    denormalizeSingle schemaMap m id ty ents
    = denormalizeSingle schemaMap n id ty ents.
Proof.
  induction n as [|n IH]; intros m id ty Hle Hnd; [now elim Hnd|].
  destruct m as [|m]; [lia|]. simpl in *.
  destruct (entity_at ents ty (to_string id)); auto.
  destruct (AList.lookup schemaMap ty) as [s|]; auto.
  destruct (relationships s) as [rels|]; auto.
  rewrite (denormalize_relationships_agree
             (fun id0 ty0 => denormalizeSingle schemaMap n id0 ty0 ents)
             (fun id0 ty0 => denormalizeSingle schemaMap m id0 ty0 ents));
    auto.
  - intros. apply IH; auto. lia.
  - intros E. rewrite E in Hnd. now apply Hnd.
Qed.

Lemma denormalize_fuel n m id ty :
  n <= m ->
  denormalize schemaMap n id ty ents <> Diverge ->
  denormalize schemaMap m id ty ents = denormalize schemaMap n id ty ents.
Proof.
  intros Hle Hnd.
  assert (Hs : forall i t,
             denormalizeSingle schemaMap n i t ents <> Diverge ->
             denormalizeSingle schemaMap m i t ents
             = denormalizeSingle schemaMap n i t ents)
    by (intros; now apply denormalizeSingle_fuel).
  destruct id; simpl in *; auto.
  rewrite (mapM_agree
             (fun id => denormalizeSingle schemaMap n id ty ents)
             (fun id => denormalizeSingle schemaMap m id ty ents)); auto.
  intros E. rewrite E in Hnd. now apply Hnd.
Qed.

Lemma denormalize_fuel_ok n m id ty v :
  n <= m ->
  denormalize schemaMap n id ty ents = Ok v ->
  denormalize schemaMap m id ty ents = Ok v.
Proof.
  intros Hle H. rewrite (denormalize_fuel id ty Hle); auto.
  rewrite H. discriminate.
Qed.
End DenormalizeFuel.

(** ** The store: frame lemmas *)

Lemma entity_at_set_same (ents : Entities) ty m k :
  entity_at (AList.set ents ty m) ty k = AList.lookup m k.
Proof. unfold entity_at. now rewrite AListFacts.lookup_set_eq. Qed.

Lemma entity_at_set_other (ents : Entities) ty ty' m k :
  ty <> ty' -> entity_at (AList.set ents ty m) ty' k = entity_at ents ty' k.
Proof. intros H. unfold entity_at. now rewrite AListFacts.lookup_set_neq. Qed.

Lemma lookup_rev_nodup {A} (m : AList.t A) k :
  NoDup (AList.keys m) -> AList.lookup (rev m) k = AList.lookup m k.
Proof.
  induction m as [|[k' v'] m IH]; simpl; auto.
  intros Hnd. inversion Hnd as [|? ? Hni Hnd']; subst.
  rewrite AListFacts.lookup_app, IH by auto. simpl.
  destruct (String.eqb_spec k' k).
  - subst. apply AListFacts.lookup_none_keys in Hni. now rewrite Hni.
  - now destruct (AList.lookup m k).
Qed.

(** ** updateEntity *)



(** Renaming user1 in the loaded sample blog, and updating a user that
    does not exist. *)
Example updateEntity_blog :
  let st := addNormalizedData blogSchemas (initialState blogSchemas)
                              sampleBlogData "posts" in
  fst (updateEntity st "users" (VStr "user1") [("name", VStr "Renamed")])
  = Success (VObj [("username", VStr "user1"); ("name", VStr "Renamed")])
  /\ updateEntity st "users" (VStr "nonexistent") [("name", VStr "x")]
     = (Failure "Entity with ID nonexistent not found in collection users",
        st).
Proof. split; vm_compute; reflexivity. Qed.

(** ** addNormalizedData *)





(** ** The blog scenario *)

(** C9. Normalizing the sample blog data with root type posts gives the
    three users, the five comments and the two posts, each collection
    holding exactly those identifiers, and the result list post1, post2;
    denormalizing post1 from these collections gives back the post with its
    author user1 and its comments comment1 and comment2, in this order,
    each with its own author object. *)
Theorem blog_scenario :
  exists nd,
    normalize blogSchemas sampleBlogData "posts" = Ok nd
    /\ option_map (@AList.keys record) (AList.lookup (entities nd) "users")
       = Some ["user1"; "user2"; "user3"]
    /\ option_map (@AList.keys record) (AList.lookup (entities nd) "comments")
       = Some ["comment1"; "comment2"; "comment3"; "comment4"; "comment5"]
    /\ option_map (@AList.keys record) (AList.lookup (entities nd) "posts")
       = Some ["post1"; "post2"]
    /\ option_map (@List.length _) (AList.lookup (entities nd) "users") = Some 3
    /\ option_map (@List.length _) (AList.lookup (entities nd) "comments") = Some 5
    /\ option_map (@List.length _) (AList.lookup (entities nd) "posts") = Some 2
    /\ AList.keys (entities nd) = ["posts"; "users"; "comments"]
    /\ result nd = VArr [VStr "post1"; VStr "post2"]
    /\ forall fuel,
         3 <= fuel ->
         denormalize blogSchemas fuel (VStr "post1") "posts" (entities nd)
         = Ok (VObj
                 [("id", VStr "post1");
                  ("author",
                    VObj [("username", VStr "user1"); ("name", VStr "User 1")]);
                  ("body", VStr "This is the first post content.");
                  ("comments",
                    VArr
                      [VObj
                         [("id", VStr "comment1");
                          ("author",
                            VObj [("username", VStr "user2");
                                  ("name", VStr "User 2")]);
                          ("comment", VStr "Great post!")];
                       VObj
                         [("id", VStr "comment2");
                          ("author",
                            VObj [("username", VStr "user3");
                                  ("name", VStr "User 3")]);
                          ("comment", VStr "I learned a lot from this.")]])]).
Proof.
  eexists. split; [vm_compute; reflexivity|].
  repeat (split; [reflexivity|]).
  intros fuel Hle. apply (denormalize_fuel_ok _ _ _ _ Hle).
  vm_compute. reflexivity.
Qed.

(** ** The relationship loops, one field at a time *)

Lemma denormalize_relationships_step recur key cfg rest de :
  denormalize_relationships recur ((key, cfg) :: rest) de
  = (x <- denormalize_field recur cfg (get de key) ;;
     denormalize_relationships recur rest (write_field de key x)).
Proof.
  simpl. unfold denormalize_field.
  destruct (is_undefined (get de key)); auto.
  destruct (isArray cfg).
  - destruct (get de key); auto.
    destruct (mapM (fun id => recur id (type cfg)) items); auto.
  - destruct (is_null (get de key)); auto.
    destruct (recur (get de key) (type cfg)); auto.
Qed.

Lemma process_relationships_step schemaMap recur key cfg rest pe ents :
  process_relationships schemaMap recur ((key, cfg) :: rest) pe ents
  = ('(x, ents1) <- process_field schemaMap recur cfg (get pe key) ents ;;
     process_relationships schemaMap recur rest (write_field pe key x) ents1).
Proof.
  simpl. unfold process_field.
  destruct (is_undefined (get pe key)); auto.
  destruct (isArray cfg).
  - destruct (get pe key); auto.
    destruct (mapS _ items ents) as [[ids e1]| |]; auto.
  - destruct (is_null (get pe key)); auto.
    destruct (recur (get pe key) (type cfg) _ ents) as [[id e1]| |]; auto.
Qed.

Lemma denormalize_field_some recur cfg v x :
  denormalize_field recur cfg v = Ok (Some x) -> v <> VUndef.
Proof. intros H ->. discriminate. Qed.

Lemma process_field_some schemaMap recur cfg v ents x ents' :
  process_field schemaMap recur cfg v ents = Ok (Some x, ents') -> v <> VUndef.
Proof. intros H ->. discriminate. Qed.

Lemma get_defined (r : record) k :
  get r k <> VUndef -> AList.lookup r k <> None.
Proof. unfold get. destruct (AList.lookup r k); congruence. Qed.

Lemma write_field_keys (r : record) key x :
  (x <> None -> get r key <> VUndef) ->
  AList.keys (write_field r key x) = AList.keys r.
Proof.
  destruct x as [v|]; simpl; auto. intros H.
  apply AListFacts.keys_set_present, get_defined, H. discriminate.
Qed.

Lemma write_field_get_other (r : record) key x k :
  key <> k -> get (write_field r key x) k = get r k.
Proof.
  intros H. destruct x; simpl; auto. unfold get.
  now rewrite AListFacts.lookup_set_neq.
Qed.

Lemma write_field_lookup_other (r : record) key x k :
  key <> k -> AList.lookup (write_field r key x) k = AList.lookup r k.
Proof.
  intros H. destruct x; simpl; auto. now apply AListFacts.lookup_set_neq.
Qed.

Lemma write_field_lookup_same (r : record) key x :
  AList.lookup (write_field r key x) key
  = match x with Some v => Some v | None => AList.lookup r key end.
Proof. destruct x; simpl; auto. apply AListFacts.lookup_set_eq. Qed.

Lemma lookup_cons_none {A} (m : AList.t A) key (c : A) k :
  AList.lookup ((key, c) :: m) k = None ->
  key <> k /\ AList.lookup m k = None.
Proof.
  simpl. destruct (String.eqb_spec key k); [discriminate|auto].
Qed.

(** What a completed run of the denormalize loop did to each field. *)
Lemma denormalize_relationships_ok recur rels :
  NoDup (AList.keys rels) ->
  forall de de',
    denormalize_relationships recur rels de = Ok de' ->
    AList.keys de' = AList.keys de
    /\ (forall k, AList.lookup rels k = None ->
                  AList.lookup de' k = AList.lookup de k)
    /\ (forall k cfg,
           In (k, cfg) rels ->
           exists x,
             denormalize_field recur cfg (get de k) = Ok x
             /\ AList.lookup de' k
                = match x with
                  | Some v => Some v
                  | None => AList.lookup de k
                  end).
Proof.
  induction rels as [|[key cfg] rels IH]; intros Hnd de de' H.
  - injection H as <-. repeat split; auto. intros ? ? [].
  - rewrite denormalize_relationships_step in H. bind_inv H.
    inversion Hnd as [|? ? Hni Hnd']; subst.
    destruct (IH Hnd' _ _ H) as (Hk & Hnone & Hsome).
    assert (Hkeys : AList.keys (write_field de key a) = AList.keys de).
    { apply write_field_keys. intros Ha. destruct a; [|congruence].
      eapply denormalize_field_some; eauto. }
    split; [congruence|]. split.
    + intros k Hl. apply lookup_cons_none in Hl. destruct Hl as [Hne Hl].
      rewrite (Hnone _ Hl). now apply write_field_lookup_other.
    + intros k c [Heq|Hin].
      * injection Heq as <- <-. exists a. split; auto.
        rewrite Hnone by now apply AListFacts.lookup_none_keys.
        apply write_field_lookup_same.
      * assert (Hne : key <> k).
        { intros <-. apply Hni. change key with (fst (key, c)).
          now apply in_map. }
        destruct (Hsome _ _ Hin) as (x & Hx & Hl).
        rewrite write_field_get_other in Hx by auto.
        rewrite write_field_lookup_other in Hl by auto. eauto.
Qed.

(** The denormalize loop completes as soon as every field does. *)
Lemma denormalize_relationships_complete recur rels :
  NoDup (AList.keys rels) ->
  forall de,
    (forall k cfg, In (k, cfg) rels ->
                   exists x, denormalize_field recur cfg (get de k) = Ok x) ->
    exists de', denormalize_relationships recur rels de = Ok de'.
Proof.
  induction rels as [|[key cfg] rels IH]; intros Hnd de H.
  - simpl. eauto.
  - rewrite denormalize_relationships_step.
    inversion Hnd as [|? ? Hni Hnd']; subst.
    destruct (H key cfg (or_introl eq_refl)) as (x & Hx). rewrite Hx. simpl.
    apply IH; auto. intros k c Hin.
    rewrite write_field_get_other; [apply H; now right|].
    intros <-. apply Hni. change key with (fst (key, c)). now apply in_map.
Qed.

Lemma mapM_Forall2 {A B} (f : A -> outcome B) l rs :
  mapM f l = Ok rs <-> Forall2 (fun x y => f x = Ok y) l rs.
Proof.
  revert rs. induction l as [|x l IH]; intros rs; simpl.
  - split.
    + intros [= <-]. constructor.
    + intros H. inversion H. reflexivity.
  - split.
    + intros H. bind_inv H. bind_inv H. injection H as <-.
      constructor; auto. now apply IH.
    + intros H. inversion H as [|? y ? ys Hx Hr]; subst.
      rewrite Hx. simpl. apply IH in Hr. now rewrite Hr.
Qed.

Lemma filter_truthy_no_null (rs : list value) :
  ~ In VNull (filter truthy rs).
Proof. intros H. apply filter_In in H. destruct H as [_ H]. discriminate. Qed.

(** ** denormalize and absent entities *)



(** ** Well-formed schema maps *)

Lemma nodupb_NoDup (l : list string) : nodupb l = true -> NoDup l.
Proof.
  induction l as [|x l IH]; simpl; [constructor|].
  intros H. apply andb_prop in H. destruct H as [Hx Hl].
  constructor; auto. intros Hin.
  apply negb_true_iff in Hx.
  assert (existsb (String.eqb x) l = true); [|congruence].
  apply existsb_exists. exists x. split; auto. apply String.eqb_refl.
Qed.

Lemma wf_schemas_nodup schemaMap ty schema :
  wf_schemas schemaMap = true ->
  AList.lookup schemaMap ty = Some schema ->
  NoDup (AList.keys (relationships_of schema)).
Proof.
  intros Hwf Hl. apply AListFacts.lookup_in in Hl.
  unfold wf_schemas in Hwf. rewrite forallb_forall in Hwf.
  specialize (Hwf _ Hl). unfold wf_schema, relationships_of in *. simpl in *.
  destruct (relationships schema); [now apply nodupb_NoDup|constructor].
Qed.

Lemma wf_schemas_nodup_rels schemaMap ty schema rels :
  wf_schemas schemaMap = true ->
  AList.lookup schemaMap ty = Some schema ->
  relationships schema = Some rels ->
  NoDup (AList.keys rels).
Proof.
  intros Hwf Hl Hr. pose proof (@wf_schemas_nodup _ _ _ Hwf Hl) as H.
  unfold relationships_of in H. now rewrite Hr in H.
Qed.

(** ** Denormalizing from a store that lost entities *)

Lemma mapM_transfer {A B} (f g : A -> outcome B) l rs :
  (forall x y, f x = Ok y -> exists y', g x = Ok y') ->
  mapM f l = Ok rs -> exists rs', mapM g l = Ok rs'.
Proof.
  intros Hfg. revert rs. induction l as [|x l IH]; intros rs H; simpl in *.
  - eauto.
  - bind_inv H. bind_inv H. destruct (Hfg _ _ Hc) as (y' & Hy).
    destruct (IH _ Hc0) as (rs' & Hrs). rewrite Hy, Hrs. simpl. eauto.
Qed.

Lemma denormalize_field_transfer (f g : value -> string -> outcome value)
    cfg v x :
  (forall i t y, f i t = Ok y -> exists y', g i t = Ok y') ->
  denormalize_field f cfg v = Ok x ->
  exists x', denormalize_field g cfg v = Ok x'.
Proof.
  intros Hfg. unfold denormalize_field.
  destruct (is_undefined v); [eauto|].
  destruct (isArray cfg).
  - destruct v; eauto. intros H. bind_inv H.
    destruct (mapM_transfer (fun id => f id (type cfg))
                            (fun id => g id (type cfg)) items
                            (fun x y => Hfg x (type cfg) y) Hc) as (rs' & ->).
    simpl. eauto.
  - destruct (is_null v); [eauto|]. intros H. bind_inv H.
    destruct (Hfg _ _ _ Hc) as (y' & ->). simpl. eauto.
Qed.

Section Removal.
Variable schemaMap : EntitySchemaMap.
Hypothesis Hwf : wf_schemas schemaMap = true.
Variables ents ents' : Entities.
Hypothesis Hsub :
  forall ty k, entity_at ents' ty k = entity_at ents ty k
               \/ entity_at ents' ty k = None.

(** Whatever could be denormalized before entities were removed can
    still be denormalized afterwards. *)
Lemma denormalizeSingle_after_removal fuel :
  forall id ty v,
    denormalizeSingle schemaMap fuel id ty ents = Ok v ->
    exists v', denormalizeSingle schemaMap fuel id ty ents' = Ok v'.
Proof.
  induction fuel as [|fuel IH]; intros id ty v H; [discriminate|].
  simpl in *.
  destruct (Hsub ty (to_string id)) as [-> | ->]; [|eauto].
  destruct (entity_at ents ty (to_string id)) as [e|]; [|eauto].
  destruct (AList.lookup schemaMap ty) as [s|] eqn:Hs; [|discriminate].
  destruct (relationships s) as [rels|] eqn:Hr; [|eauto].
  bind_inv H.
  pose proof (@wf_schemas_nodup_rels _ _ _ _ Hwf Hs Hr) as Hnd.
  apply denormalize_relationships_ok in Hc; auto.
  destruct Hc as (_ & _ & Hsome).
  destruct (@denormalize_relationships_complete
              (fun id0 ty0 => denormalizeSingle schemaMap fuel id0 ty0 ents')
              rels Hnd e) as (de' & Hde).
  - intros k cfg Hin. destruct (Hsome _ _ Hin) as (x & Hx & _).
    eapply denormalize_field_transfer; [|exact Hx]. apply IH.
  - rewrite Hde. simpl. eauto.
Qed.
End Removal.

Lemma mapM_filter_null {A} (f : A -> outcome value) (p : A -> bool) l rs :
  (forall x y, p x = false -> f x = Ok y -> y = VNull) ->
  mapM f l = Ok rs ->
  exists rs', mapM f (filter p l) = Ok rs'
              /\ filter truthy rs' = filter truthy rs.
Proof.
  intros Hp. revert rs. induction l as [|x l IH]; intros rs H; simpl in *.
  - injection H as <-. exists []. auto.
  - bind_inv H. bind_inv H. injection H as <-.
    destruct (IH _ Hc0) as (rs' & Hm & Hf).
    destruct (p x) eqn:Hpx; simpl.
    + rewrite Hc, Hm. simpl. eexists. split; eauto. simpl. now rewrite Hf.
    + rewrite (Hp _ _ Hpx Hc). simpl. eauto.
Qed.

Lemma denormalize_single schemaMap fuel id ty ents :
  (forall ids, id <> VArr ids) ->
  denormalize schemaMap fuel id ty ents
  = denormalizeSingle schemaMap fuel id ty ents.
Proof. intros H. destruct id; auto. now elim (H items). Qed.

(** ** removeEntity *)

Lemma removeEntity_entity_at st entityType id ty k :
  entity_at (st_entities (removeEntity st entityType id)) ty k
  = if String.eqb ty entityType && String.eqb k (to_string id) then None
    else entity_at (st_entities st) ty k.
Proof.
  unfold removeEntity.
  destruct (String.eqb_spec ty entityType) as [->|Hty]; simpl.
  - destruct (String.eqb_spec k (to_string id)) as [->|Hk].
    + unfold entity_at.
      destruct (AList.lookup (st_entities st) entityType) as [m|] eqn:Hm;
        [|now rewrite Hm].
      destruct (AList.lookup m (to_string id)) eqn:Hi; simpl.
      * rewrite AListFacts.lookup_set_eq. apply AListFacts.lookup_remove_eq.
      * now rewrite Hm.
    + unfold entity_at.
      destruct (AList.lookup (st_entities st) entityType) as [m|] eqn:Hm;
        [|now rewrite Hm].
      destruct (AList.lookup m (to_string id)) eqn:Hi; simpl.
      * rewrite AListFacts.lookup_set_eq.
        apply AListFacts.lookup_remove_neq. congruence.
      * now rewrite Hm.
  - destruct (AList.lookup (st_entities st) entityType) as [m|]; auto.
    destruct (AList.lookup m (to_string id)); auto. simpl.
    apply entity_at_set_other. congruence.
Qed.



(** Removing comment1 from the sample blog: post1 still lists comment1,
    and its denormalized view shows comment2 alone. *)
Example removeEntity_blog :
  let st := addNormalizedData blogSchemas (initialState blogSchemas)
                              sampleBlogData "posts" in
  let st' := removeEntity st "comments" (VStr "comment1") in
  get (own_props (getEntityById st' "posts" (VStr "post1"))) "comments"
  = VArr [VStr "comment1"; VStr "comment2"]
  /\ exists r,
       getDenormalizedEntity blogSchemas 3 st' "posts" (VStr "post1")
       = Ok (VObj r)
       /\ get r "comments"
          = VArr [comment "comment2" (user "user3" "User 3")
                          "I learned a lot from this."].
Proof.
  split; [vm_compute; reflexivity|].
  eexists. split; vm_compute; reflexivity.
Qed.

(** ** The normalize loop, one field at a time *)

Lemma process_relationships_ok schemaMap recur rels :
  NoDup (AList.keys rels) ->
  forall pe ents pe' ents',
    process_relationships schemaMap recur rels pe ents = Ok (pe', ents') ->
    AList.keys pe' = AList.keys pe
    /\ (forall k, AList.lookup rels k = None ->
                  AList.lookup pe' k = AList.lookup pe k)
    /\ (forall k cfg,
           In (k, cfg) rels ->
           exists x e1 e2,
             process_field schemaMap recur cfg (get pe k) e1 = Ok (x, e2)
             /\ AList.lookup pe' k
                = match x with
                  | Some v => Some v
                  | None => AList.lookup pe k
                  end).
Proof.
  induction rels as [|[key cfg] rels IH]; intros Hnd pe ents pe' ents' H.
  - injection H as <- <-. repeat split; auto. intros ? ? [].
  - rewrite process_relationships_step in H. bind_inv H.
    destruct a as [x e1].
    inversion Hnd as [|? ? Hni Hnd']; subst.
    destruct (IH Hnd' _ _ _ _ H) as (Hk & Hnone & Hsome).
    assert (Hkeys : AList.keys (write_field pe key x) = AList.keys pe).
    { apply write_field_keys. intros Ha. destruct x; [|congruence].
      eapply process_field_some; eauto. }
    split; [congruence|]. split.
    + intros k Hl. apply lookup_cons_none in Hl. destruct Hl as [Hne Hl].
      rewrite (Hnone _ Hl). now apply write_field_lookup_other.
    + intros k c [Heq|Hin].
      * injection Heq as <- <-. exists x, ents, e1. split; auto.
        rewrite Hnone by now apply AListFacts.lookup_none_keys.
        apply write_field_lookup_same.
      * assert (Hne : key <> k).
        { intros <-. apply Hni. change key with (fst (key, c)).
          now apply in_map. }
        destruct (Hsome _ _ Hin) as (y & s1 & s2 & Hy & Hl).
        rewrite write_field_get_other in Hy by auto.
        rewrite write_field_lookup_other in Hl by auto. eauto 6.
Qed.

Lemma entity_at_store_same ents ty k r :
  entity_at (store_entity ents ty k r) ty k = Some r.
Proof.
  unfold store_entity, entity_at.
  destruct (AList.lookup ents ty) as [m|]; rewrite AListFacts.lookup_set_eq.
  - apply AListFacts.lookup_set_eq.
  - simpl. now rewrite String.eqb_refl.
Qed.

Lemma entity_at_store_other ents ty k r ty' k' :
  (ty', k') <> (ty, k) ->
  entity_at (store_entity ents ty k r) ty' k' = entity_at ents ty' k'.
Proof.
  intros Hne. unfold store_entity, entity_at.
  destruct (String.eqb_spec ty ty') as [<-|Hty].
  - destruct (AList.lookup ents ty) as [m|] eqn:Hm;
      rewrite AListFacts.lookup_set_eq.
    + apply AListFacts.lookup_set_neq. congruence.
    + simpl. destruct (String.eqb_spec k k'); congruence.
  - destruct (AList.lookup ents ty) as [m|];
      now rewrite AListFacts.lookup_set_neq.
Qed.

Lemma entity_at_ensure ents ty ty' k :
  entity_at (ensure_collection ents ty) ty' k = entity_at ents ty' k.
Proof.
  unfold ensure_collection, entity_at.
  destruct (AList.lookup ents ty) eqn:Hl; auto.
  destruct (String.eqb_spec ty ty') as [<-|Hty].
  - now rewrite AListFacts.lookup_set_eq, Hl.
  - now rewrite AListFacts.lookup_set_neq.
Qed.

(** The identifiers returned for the items of an array are the items'
    identifiers, in order. *)
Lemma mapS_processEntity_ids schemaMap fuel ty sch items ents ids ents' :
  sch = AList.lookup schemaMap ty ->
  mapS (fun item => processEntity schemaMap fuel item ty sch)
       items ents = Ok (ids, ents') ->
  ids = map (id_of schemaMap ty) items.
Proof.
  intros Hs. revert ents ids ents'.
  induction items as [|x l IH]; intros ents ids ents' H; simpl in H.
  - now injection H as <- <-.
  - bind_inv H. destruct a as [y s1]. bind_inv H. destruct a as [ys s2].
    injection H as <- <-. simpl. f_equal; eauto.
    apply processEntity_id in Hc.
    destruct Hc as (f & s & -> & Hsch & Hl & _).
    unfold id_of, get. rewrite <- Hs, Hsch. simpl. now rewrite Hl.
Qed.

(** ** Order of identifiers *)

Lemma processEntity_plural_field schemaMap fuel e ty schema ents id ents'
    rels key cfg items :
  processEntity schemaMap fuel e ty (Some schema) ents = Ok (id, ents') ->
  relationships schema = Some rels ->
  NoDup (AList.keys rels) ->
  In (key, cfg) rels -> isArray cfg = true ->
  get (own_props e) key = VArr items ->
  exists stored,
    entity_at ents' ty (to_string id) = Some stored
    /\ AList.lookup stored key
       = Some (VArr (map (id_of schemaMap (type cfg)) items)).
Proof.
  intros H Hr Hnd Hin Harr Hget.
  destruct fuel as [|fuel]; simpl in H; [discriminate|].
  bind_inv H. destruct (is_undefined a); [discriminate|].
  rewrite Hr in H. bind_inv H. destruct a0 as [pe e1].
  injection H as <- <-. exists pe. split; [apply entity_at_store_same|].
  apply process_relationships_ok in Hc0; auto.
  destruct Hc0 as (_ & _ & Hsome).
  destruct (Hsome _ _ Hin) as (x & s1 & s2 & Hx & Hl).
  unfold process_field in Hx. rewrite Hget, Harr in Hx. simpl in Hx.
  bind_inv Hx. destruct a0 as [ids s3]. injection Hx as <- <-.
  rewrite Hl. apply mapS_processEntity_ids in Hc0; auto. now subst.
Qed.

(** C7. For a schema map with ordinary names, ordinary type names and
    entities stored under ordinary identifiers: (1) for an array input, the
    result of normalize is the array of the identifiers of its elements, in
    the order of the input. (2) Every entity that processEntity stores has,
    under each plural relationship whose field held an array, the array of
    the identifiers of the nested entities in the order in which they were
    nested; (3) in particular the entity stored for a single input
    object. *)
Theorem normalize_preserves_order (schemaMap : EntitySchemaMap) :
  ordinary_schemas schemaMap = true ->
  (forall items rootType nd,
      ordinary_name rootType = true ->
      normalize schemaMap (VArr items) rootType = Ok nd ->
      result nd = VArr (map (id_of schemaMap rootType) items))
  /\
  (forall fuel e ty schema ents id ents' rels key cfg items,
      ordinary_name ty = true ->
      ordinary_schema schema = true ->
      ordinary_id id = true ->
      processEntity schemaMap fuel e ty (Some schema) ents = Ok (id, ents') ->
      relationships schema = Some rels ->
      NoDup (AList.keys rels) ->
      In (key, cfg) rels -> isArray cfg = true ->
      get (own_props e) key = VArr items ->
      exists stored,
        entity_at ents' ty (to_string id) = Some stored
        /\ AList.lookup stored key
           = Some (VArr (map (id_of schemaMap (type cfg)) items)))
  /\
  (forall fields rootType nd schema rels key cfg items,
      ordinary_name rootType = true ->
      ordinary_id (result nd) = true ->
      normalize schemaMap (VObj fields) rootType = Ok nd ->
      AList.lookup schemaMap rootType = Some schema ->
      relationships schema = Some rels ->
      NoDup (AList.keys rels) ->
      In (key, cfg) rels -> isArray cfg = true ->
      get fields key = VArr items ->
      exists stored,
        entity_at (entities nd) rootType (to_string (result nd)) = Some stored
        /\ AList.lookup stored key
           = Some (VArr (map (id_of schemaMap (type cfg)) items))).
Proof.
  intros _. split; [|split].
  - intros items rootType nd _ H. unfold normalize, normalize_fuel in H.
    destruct (AList.lookup schemaMap rootType) as [s|] eqn:Hs; [|discriminate].
    bind_inv H. destruct a as [ids ents]. injection H as <-. simpl.
    f_equal. eapply mapS_processEntity_ids; [symmetry; exact Hs|exact Hc].
  - intros fuel e ty schema ents id ents' rels key cfg items _ _ _.
    intros. eapply processEntity_plural_field; eauto.
  - intros fields rootType nd schema rels key cfg items _ _
           H Hs Hr Hnd Hin Ha Hg.
    unfold normalize, normalize_fuel in H. rewrite Hs in H.
    cbn [truthy] in H. bind_inv H. destruct a as [id ents].
    injection H as <-. simpl.
    eapply processEntity_plural_field; eauto.
Qed.

(** normalize returns on the sample blog data, with the identifiers of the
    two posts in their order; and on the first post alone, whose stored
    entity lists the identifiers of its comments in their order. *)
Lemma normalize_preserves_order_witness :
  (exists nd,
      normalize blogSchemas sampleBlogData "posts" = Ok nd
      /\ result nd = VArr [VStr "post1"; VStr "post2"])
  /\ (exists nd stored,
         normalize blogSchemas samplePost1 "posts" = Ok nd
         /\ entity_at (entities nd) "posts" "post1" = Some stored
         /\ AList.lookup stored "comments"
            = Some (VArr [VStr "comment1"; VStr "comment2"])).
Proof.
  destruct (normalize_preserves_order blogSchemas eq_refl)
    as (Harray & _ & Hsingle).
  split.
  - destruct (normalize blogSchemas sampleBlogData "posts") as [nd| |] eqn:Hn;
      try (vm_compute in Hn; discriminate).
    exists nd. split; [reflexivity|].
    exact (Harray [samplePost1; samplePost2] "posts" nd eq_refl Hn).
  - destruct (normalize blogSchemas samplePost1 "posts") as [nd| |] eqn:Hn;
      try (vm_compute in Hn; discriminate).
    assert (Hres : result nd = VStr "post1")
      by (vm_compute in Hn; injection Hn as <-; reflexivity).
    destruct (Hsingle
                [("id", VStr "post1");
                 ("author", VObj [("username", VStr "user1");
                                  ("name", VStr "User 1")]);
                 ("body", VStr "This is the first post content.");
                 ("comments", get (own_props samplePost1) "comments")]
                "posts" nd
                (createEntitySchema (Some "id")
                   (Some [("author", hasOne "users");
                          ("comments", hasMany "comments")]))
                [("author", hasOne "users"); ("comments", hasMany "comments")]
                "comments" (hasMany "comments")
                (match get (own_props samplePost1) "comments" with
                 | VArr items => items
                 | _ => []
                 end))
      as (stored & Hstored & Hfield).
    + reflexivity.
    + now rewrite Hres.
    + exact Hn.
    + reflexivity.
    + reflexivity.
    + repeat constructor; simpl; intuition discriminate.
    + right. left. reflexivity.
    + reflexivity.
    + reflexivity.
    + exists nd, stored. rewrite Hres in Hstored.
      repeat split; [exact Hstored|exact Hfield].
Defined.

(** ** Exceptions propagate to the caller of normalize *)

Lemma mapS_app {A B S} (f : A -> S -> outcome (B * S)) l1 l2 s :
  mapS f (l1 ++ l2) s
  = ('(ys, s1) <- mapS f l1 s ;;
     '(zs, s2) <- mapS f l2 s1 ;;
     Ok (ys ++ zs, s2)).
Proof.
  revert s. induction l1 as [|x l1 IH]; intros s; simpl.
  - destruct (mapS f l2 s) as [[zs s2]| |]; auto.
  - destruct (f x s) as [[y s1]| |]; simpl; auto. rewrite IH.
    destruct (mapS f l1 s1) as [[ys s2]| |]; simpl; auto.
    destruct (mapS f l2 s2) as [[zs s3]| |]; simpl; auto.
Qed.

Lemma mapS_throw {A B S} (f : A -> S -> outcome (B * S)) l1 x l2 s ys s1 e :
  mapS f l1 s = Ok (ys, s1) -> f x s1 = Throw e ->
  mapS f (l1 ++ x :: l2) s = Throw e.
Proof. intros H1 Hx. rewrite mapS_app, H1. simpl. now rewrite Hx. Qed.

Lemma process_relationships_app schemaMap recur rels1 rels2 pe ents :
  process_relationships schemaMap recur (rels1 ++ rels2) pe ents
  = ('(pe1, e1) <- process_relationships schemaMap recur rels1 pe ents ;;
     process_relationships schemaMap recur rels2 pe1 e1).
Proof.
  revert pe ents. induction rels1 as [|[key cfg] rels1 IH]; intros pe ents.
  - reflexivity.
  - rewrite <- app_comm_cons, !process_relationships_step.
    destruct (process_field schemaMap recur cfg (get pe key) ents)
      as [[x e1]| |]; simpl; auto.
Qed.

Lemma invokes_throw schemaMap c c' e :
  invokes schemaMap c c' -> run schemaMap c' = Throw e ->
  run schemaMap c = Throw e.
Proof.
  intros Hi. destruct Hi; unfold run; simpl; intros Hthrow.
  - rewrite H, H1. cbn [bind]. rewrite H0.
    rewrite process_relationships_app, H2. cbn [bind].
    rewrite process_relationships_step. unfold process_field.
    rewrite H4, H3. cbn [is_undefined].
    erewrite mapS_throw; [reflexivity|exact H5|exact Hthrow].
  - rewrite H, H1. cbn [bind]. rewrite H0.
    rewrite process_relationships_app, H2. cbn [bind].
    rewrite process_relationships_step. unfold process_field.
    rewrite H4, H3, H5. now rewrite Hthrow.
Qed.

Lemma visits_throw schemaMap c c' e :
  visits schemaMap c c' -> run schemaMap c' = Throw e ->
  run schemaMap c = Throw e.
Proof.
  induction 1; auto. intros Ht. eapply invokes_throw; eauto.
Qed.

Lemma normalize_visits_throw schemaMap input schemaKey c e :
  normalize_visits schemaMap input schemaKey c ->
  run schemaMap c = Throw e ->
  normalize schemaMap input schemaKey = Throw e.
Proof.
  intros (c0 & Hn & Hv) Ht. pose proof (visits_throw Hv Ht) as H0.
  unfold normalize, normalize_fuel.
  destruct Hn as [s l1 x l2 ids e1 Hs Hin Hm | s Hs Hna Htr];
    unfold run in H0;
    cbn [c_fuel c_entity c_type c_schema c_ents] in H0; rewrite Hs.
  - subst input. erewrite mapS_throw; [reflexivity|exact Hm|exact H0].
  - destruct input; try (now elim (Hna items)); try discriminate Htr;
      rewrite Htr, H0; reflexivity.
Qed.

(** Every call made during a normalization has fuel left. *)

Lemma process_field_depth schemaMap fuel cfg v ents x ents' :
  process_field schemaMap (processEntity schemaMap fuel) cfg v ents
  = Ok (Some x, ents') ->
  depth x <= depth v.
Proof.
  unfold process_field. destruct (is_undefined v); [discriminate|].
  destruct (isArray cfg).
  - destruct v; try discriminate. intros H. bind_inv H.
    destruct a as [ids e1]. injection H as <- <-.
    apply mapS_depth in Hc.
    + simpl. lia.
    + intros. eapply processEntity_id_depth; eauto.
  - destruct (is_null v); [discriminate|]. intros H. bind_inv H.
    destruct a as [id e1]. injection H as <- <-.
    apply processEntity_id_depth in Hc. lia.
Qed.

Lemma process_relationships_depth schemaMap fuel n rels :
  forall pe ents pe' ents',
    (forall k v, AList.lookup pe k = Some v -> depth v < n) ->
    process_relationships schemaMap (processEntity schemaMap fuel) rels pe ents
    = Ok (pe', ents') ->
    forall k v, AList.lookup pe' k = Some v -> depth v < n.
Proof.
  induction rels as [|[key cfg] rels IH]; intros pe ents pe' ents' Hpe H.
  - now injection H as <- <-.
  - rewrite process_relationships_step in H. bind_inv H.
    destruct a as [x e1]. eapply IH; [|exact H].
    intros k v Hl. destruct x as [y|]; simpl in Hl; eauto.
    destruct (String.eqb_spec key k).
    + subst. rewrite AListFacts.lookup_set_eq in Hl. injection Hl as <-.
      assert (Hdef : get pe k <> VUndef)
        by (eapply process_field_some; eauto).
      apply process_field_depth in Hc. unfold get in *.
      destruct (AList.lookup pe k) as [v0|] eqn:Hv0; [|congruence].
      apply Hpe in Hv0. lia.
    + rewrite AListFacts.lookup_set_neq in Hl; eauto.
Qed.

Lemma get_lookup (r : record) k v :
  get r k = v -> v <> VUndef -> AList.lookup r k = Some v.
Proof. unfold get. destruct (AList.lookup r k); congruence. Qed.

Lemma invokes_depth schemaMap c c' :
  invokes schemaMap c c' ->
  depth (c_entity c) < c_fuel c -> depth (c_entity c') < c_fuel c'.
Proof.
  intros Hi. destruct Hi; simpl; intros Hd.
  - assert (Hpe : forall k v, AList.lookup pe1 k = Some v -> depth v < n).
    { eapply process_relationships_depth; [|exact H2].
      intros k v Hl. destruct e; simpl in Hl; try discriminate.
      apply depth_field in Hl. lia. }
    apply get_lookup in H4; [|discriminate]. apply Hpe in H4.
    assert (depth x < depth (VArr (l1 ++ x :: l2)))
      by (apply depth_item, in_elt).
    lia.
  - assert (Hpe : forall k v, AList.lookup pe1 k = Some v -> depth v < n).
    { eapply process_relationships_depth; [|exact H2].
      intros k v Hl. destruct e; simpl in Hl; try discriminate.
      apply depth_field in Hl. lia. }
    apply (Hpe key). apply get_lookup; auto.
    intros E. rewrite E in H4. discriminate.
Qed.

Lemma visits_depth schemaMap c c' :
  visits schemaMap c c' ->
  depth (c_entity c) < c_fuel c -> depth (c_entity c') < c_fuel c'.
Proof.
  induction 1; auto. intros Hd. apply IHvisits. eapply invokes_depth; eauto.
Qed.

Lemma normalize_visits_fuel schemaMap input schemaKey c :
  normalize_visits schemaMap input schemaKey c ->
  exists n, c_fuel c = S n.
Proof.
  intros (c0 & Hn & Hv).
  assert (Hd : depth (c_entity c) < c_fuel c).
  { apply (visits_depth Hv).
    destruct Hn as [s l1 x l2 ids e1 Hs Hin Hm | s Hs Hna Htr]; simpl.
    - subst input.
      assert (depth x < depth (VArr (l1 ++ x :: l2)))
        by (apply depth_item, in_elt).
      lia.
    - lia. }
  destruct (c_fuel c); [lia|eauto].
Qed.

(** ** Missing identifiers *)


Lemma anonymous_author_visited :
  normalize_visits blogSchemas post_with_anonymous_author "posts"
    {| c_fuel := 2;
       c_entity := VObj [("name", VStr "Nobody")];
       c_type := "users";
       c_schema := Some (createEntitySchema (Some "username") None);
       c_ents := [("posts", [])] |}.
Proof.
  eexists. split.
  - eapply normalize_invokes_single; [reflexivity|discriminate|reflexivity].
  - eapply visits_step; [|apply visits_self].
    apply (@invokes_single blogSchemas 2 post_with_anonymous_author "posts"
             (createEntitySchema (Some "id")
                (Some [("author", hasOne "users");
                       ("comments", hasMany "comments")]))
             [] (VStr "p1") [] "author" (hasOne "users")
             [("comments", hasMany "comments")]
             (own_props post_with_anonymous_author) [("posts", [])]);
      reflexivity.
Qed.


(** ** Types that the schema map lacks *)

Lemma visits_schema schemaMap c c' :
  visits schemaMap c c' ->
  c_schema c = AList.lookup schemaMap (c_type c) ->
  c_schema c' = AList.lookup schemaMap (c_type c').
Proof.
  induction 1 as [|c c1 c2 Hi Hv IH]; auto.
  intros _. apply IH. destruct Hi; reflexivity.
Qed.

Lemma normalize_visits_schema schemaMap input schemaKey c :
  normalize_visits schemaMap input schemaKey c ->
  c_schema c = AList.lookup schemaMap (c_type c).
Proof.
  intros (c0 & Hn & Hv). apply (visits_schema Hv).
  destruct Hn; simpl; congruence.
Qed.


Lemma author_without_schema_visited :
  normalize_visits postsWithoutUsers
    (VObj [("id", VStr "p1"); ("author", user "user1" "User 1")]) "posts"
    {| c_fuel := 2;
       c_entity := user "user1" "User 1";
       c_type := "users";
       c_schema := None;
       c_ents := [("posts", [])] |}.
Proof.
  eexists. split.
  - eapply normalize_invokes_single; [reflexivity|discriminate|reflexivity].
  - eapply visits_step; [|apply visits_self].
    apply (@invokes_single postsWithoutUsers 2
             (VObj [("id", VStr "p1"); ("author", user "user1" "User 1")])
             "posts"
             (createEntitySchema (Some "id")
                (Some [("author", hasOne "users")]))
             [] (VStr "p1") [] "author" (hasOne "users") []
             [("id", VStr "p1"); ("author", user "user1" "User 1")]
             [("posts", [])]);
      reflexivity.
Qed.


(** A post nested with its author, normalized against a schema map that
    declares the relationship but has no schema for users: the call of
    processEntity for the author reads [idKey] of [undefined]. *)
Example normalize_unknown_relationship_type :
  normalize
    [("posts", createEntitySchema (Some "id")
                 (Some [("author", hasOne "users")]))]
    (VObj [("id", VStr "p1"); ("author", user "user1" "User 1")]) "posts"
  = Throw TypeError.
Proof. vm_compute. reflexivity. Qed.


(** ** The round trip *)

Lemma lookup_map_values {A B} (f : string -> A -> B) (m : AList.t A) k :
  AList.lookup (map (fun kv => (fst kv, f (fst kv) (snd kv))) m) k
  = option_map (f k) (AList.lookup m k).
Proof.
  induction m as [|[k' v] m IH]; simpl; auto.
  destruct (String.eqb_spec k' k); subst; auto.
Qed.

Lemma keys_map_values {A B} (f : string -> A -> B) (m : AList.t A) :
  AList.keys (map (fun kv => (fst kv, f (fst kv) (snd kv))) m) = AList.keys m.
Proof. unfold AList.keys. rewrite map_map. reflexivity. Qed.

Section StoredFormFacts.
Variable schemaMap : EntitySchemaMap.

Lemma occurrences_obj ty fields :
  occurrences schemaMap ty (VObj fields)
  = (ty, VObj fields) ::
    match AList.lookup schemaMap ty with
    | None => []
    | Some schema =>
        flat_map
          (fun kv =>
             match AList.lookup (relationships_of schema) (fst kv) with
             | None => []
             | Some cfg => field_occurrences schemaMap cfg (snd kv)
             end)
          fields
    end.
Proof.
  simpl. f_equal. destruct (AList.lookup schemaMap ty); auto.
  apply flat_map_ext. intros [k x]. reflexivity.
Qed.

(** What is nested under a relationship field is nested in the entity. *)
Lemma field_occurrences_incl ty fields schema k cfg v :
  AList.lookup schemaMap ty = Some schema ->
  AList.lookup (relationships_of schema) k = Some cfg ->
  AList.lookup fields k = Some v ->
  incl (field_occurrences schemaMap cfg v)
       (occurrences schemaMap ty (VObj fields)).
Proof.
  intros Hs Hc Hv o Ho. rewrite occurrences_obj, Hs. right.
  apply in_flat_map. exists (k, v). split.
  - now apply AListFacts.lookup_in.
  - simpl. now rewrite Hc.
Qed.

(** The value that a completed turn of the normalize loop leaves in a
    field is the one of the stored form. *)
Lemma process_field_value fuel cfg v ents x ents' :
  process_field schemaMap (processEntity schemaMap fuel) cfg v ents
  = Ok (x, ents') ->
  match x with Some y => y | None => v end
  = normalize_field_value schemaMap cfg v.
Proof.
  unfold process_field, normalize_field_value.
  destruct (is_undefined v); [now intros [= <- _]|].
  destruct (isArray cfg).
  - destruct v; try (now intros [= <- _]).
    intros H. bind_inv H. destruct a as [ids e1]. injection H as <- <-.
    f_equal. eapply mapS_processEntity_ids; [reflexivity|exact Hc].
  - destruct (is_null v); [now intros [= <- _]|].
    intros H. bind_inv H. destruct a as [id e1]. injection H as <- <-.
    apply processEntity_id in Hc.
    destruct Hc as (f & s & -> & Hs & Hl & _).
    unfold id_of, get. rewrite Hs. simpl. now rewrite Hl.
Qed.

(** A completed normalize loop turns the fields of an entity into its
    stored form. *)
Lemma process_relationships_normal_form fuel ty schema fields ents
    pe' ents' :
  AList.lookup schemaMap ty = Some schema ->
  NoDup (AList.keys (relationships_of schema)) ->
  NoDup (AList.keys fields) ->
  process_relationships schemaMap (processEntity schemaMap fuel)
                        (relationships_of schema) fields ents
  = Ok (pe', ents') ->
  pe' = normal_form schemaMap ty (VObj fields).
Proof.
  intros Hs Hnd Hndf H.
  apply process_relationships_ok in H; auto.
  destruct H as (Hk & Hnone & Hsome).
  unfold normal_form. rewrite Hs. simpl.
  apply AListFacts.ext.
  - rewrite Hk. symmetry.
    apply (keys_map_values
             (fun k x =>
                match AList.lookup (relationships_of schema) k with
                | Some cfg => normalize_field_value schemaMap cfg x
                | None => x
                end)).
  - now rewrite Hk.
  - intros k.
    rewrite (lookup_map_values
               (fun k x =>
                  match AList.lookup (relationships_of schema) k with
                  | Some cfg => normalize_field_value schemaMap cfg x
                  | None => x
                  end)).
    destruct (AList.lookup (relationships_of schema) k) as [cfg|] eqn:Hl.
    + apply AListFacts.lookup_in in Hl.
      destruct (Hsome _ _ Hl) as (x & e1 & e2 & Hx & Hlx).
      rewrite Hlx. pose proof (process_field_value _ _ _ _ Hx) as Hv.
      unfold get in *.
      destruct (AList.lookup fields k) as [v|]; simpl.
      * destruct x; congruence.
      * destruct x as [y|]; auto. discriminate Hx.
    + rewrite (Hnone _ Hl). now destruct (AList.lookup fields k).
Qed.

Lemma conforms_inv ty v :
  conforms schemaMap ty v = true ->
  exists fields schema,
    v = VObj fields
    /\ AList.lookup schemaMap ty = Some schema
    /\ NoDup (AList.keys fields)
    /\ is_entity_id (get fields (id_key schema)) = true
    /\ forall k cfg x,
         AList.lookup (relationships_of schema) k = Some cfg ->
         In (k, x) fields ->
         if isArray cfg then
           exists items,
             x = VArr items
             /\ forall i, In i items ->
                          conforms schemaMap (type cfg) i = true
         else x = VNull \/ conforms schemaMap (type cfg) x = true.
Proof.
  destruct v; try discriminate. simpl.
  destruct (AList.lookup schemaMap ty) as [schema|]; [|discriminate].
  intros H. apply andb_prop in H. destruct H as [H Hf].
  apply andb_prop in H. destruct H as [Hnd Hid].
  exists fields, schema. repeat split; auto using nodupb_NoDup.
  intros k cfg x Hc Hin. rewrite forallb_forall in Hf.
  specialize (Hf _ Hin). simpl in Hf. rewrite Hc in Hf.
  destruct (isArray cfg).
  - destruct x; try discriminate. exists items. split; auto.
    now rewrite forallb_forall in Hf.
  - destruct x; auto.
Qed.

Lemma conforms_truthy ty v : conforms schemaMap ty v = true -> truthy v = true.
Proof. destruct v; try discriminate. reflexivity. Qed.

Lemma is_entity_id_defined v :
  is_entity_id v = true -> is_undefined v = false /\ is_null v = false.
Proof. destruct v; try discriminate; auto. Qed.

Lemma process_relationships_of recur schema pe ents :
  match relationships schema with
  | Some rels => process_relationships schemaMap recur rels pe ents
  | None => Ok (pe, ents)
  end
  = process_relationships schemaMap recur (relationships_of schema) pe ents.
Proof. unfold relationships_of. now destruct (relationships schema). Qed.

Lemma denormalize_relationships_of recur schema de :
  match relationships schema with
  | Some rels => r <- denormalize_relationships recur rels de ;; Ok (VObj r)
  | None => Ok (VObj de)
  end
  = (r <- denormalize_relationships recur (relationships_of schema) de ;;
     Ok (VObj r)).
Proof. unfold relationships_of. now destruct (relationships schema). Qed.
End StoredFormFacts.

Unset Implicit Arguments.

Section RoundTrip.
Variable schemaMap : EntitySchemaMap.
Hypothesis Hwf : wf_schemas schemaMap = true.

(** The nested entities of the whole input. *)
Variable universe : list (string * value).
Hypothesis Hcons : consistent schemaMap universe.

Lemma extends_refl ents : extends schemaMap universe ents ents.
Proof. intros t k. now left. Qed.

Lemma extends_trans e1 e2 e3 : extends schemaMap universe e1 e2 -> extends schemaMap universe e2 e3 -> extends schemaMap universe e1 e3.
Proof.
  intros H12 H23 t k. destruct (H23 t k) as [H|H]; auto.
  rewrite H. apply H12.
Qed.

Lemma written_extends ents ents' o :
  In o universe -> written schemaMap ents o -> extends schemaMap universe ents ents' -> written schemaMap ents' o.
Proof.
  destruct o as [t x]. unfold written. simpl. intros Hin Hw He.
  destruct (He t (to_string (id_of schemaMap t x)))
    as [H|(y & Hy & Hk & H)]; [congruence|].
  rewrite H. now rewrite (Hcons _ _ _ Hin Hy Hk).
Qed.

Lemma field_ready_incl fuel cfg v :
  field_ready schemaMap universe fuel cfg v -> incl (field_occurrences schemaMap cfg v) universe.
Proof.
  unfold field_occurrences.
  intros [->|[(Ha & items & -> & Hi)|(Ha & [->|(_ & _ & Hi)])]];
    rewrite ?Ha; auto; try (destruct (isArray cfg); intros ? []).
  intros o Ho. apply in_flat_map in Ho. destruct Ho as (x & Hx & Ho).
  destruct (Hi _ Hx) as (_ & _ & Hincl). auto.
Qed.

Lemma mapS_spec fuel ty :
  entity_spec schemaMap universe fuel ->
  forall items ents,
    (forall x, In x items -> nested_ok schemaMap universe fuel ty x) ->
    exists ents',
      mapS (fun item =>
              processEntity schemaMap fuel item ty
                            (AList.lookup schemaMap ty))
           items ents
      = Ok (map (id_of schemaMap ty) items, ents')
      /\ extends schemaMap universe ents ents'
      /\ forall o, In o (flat_map (occurrences schemaMap ty) items) ->
                   written schemaMap ents' o.
Proof.
  intros IH. induction items as [|x items IHl]; intros ents Hok.
  - exists ents. simpl. repeat split; auto using extends_refl. intros ? [].
  - destruct (IH x ty ents) as (e1 & Hx & He1 & Hw1);
      [apply Hok; now left|].
    destruct (IHl e1) as (e2 & Hl & He2 & Hw2);
      [intros; apply Hok; now right|].
    exists e2. simpl. rewrite Hx. simpl. rewrite Hl. simpl.
    repeat split; eauto using extends_trans.
    intros o Ho. apply in_app_or in Ho. destruct Ho as [Ho|Ho]; auto.
    eapply written_extends; eauto.
    destruct (Hok x (or_introl eq_refl)) as (_ & _ & Hincl). auto.
Qed.

Lemma process_field_spec fuel cfg v ents :
  entity_spec schemaMap universe fuel -> field_ready schemaMap universe fuel cfg v ->
  exists x ents',
    process_field schemaMap (processEntity schemaMap fuel) cfg v ents
    = Ok (x, ents')
    /\ extends schemaMap universe ents ents'
    /\ forall o, In o (field_occurrences schemaMap cfg v) -> written schemaMap ents' o.
Proof.
  intros IH Hr. unfold process_field, field_occurrences.
  destruct Hr as [->|[(Ha & items & -> & Hi)|(Ha & [->|Hok])]].
  - exists None, ents. simpl. repeat split; auto using extends_refl.
    destruct (isArray cfg); intros ? [].
  - rewrite Ha. simpl.
    destruct (mapS_spec fuel (type cfg) IH items ents Hi)
      as (e1 & Hm & He & Hw).
    rewrite Hm. simpl. eauto.
  - rewrite Ha. simpl. exists None, ents.
    repeat split; auto using extends_refl. intros ? [].
  - rewrite Ha. destruct (IH _ _ ents Hok) as (e1 & Hp & He & Hw).
    destruct Hok as (Hc & _).
    destruct v; try discriminate. simpl. simpl in Hp. rewrite Hp.
    simpl. eauto.
Qed.

Lemma process_relationships_spec fuel rels :
  entity_spec schemaMap universe fuel ->
  NoDup (AList.keys rels) ->
  forall pe ents,
    (forall k cfg, In (k, cfg) rels -> field_ready schemaMap universe fuel cfg (get pe k)) ->
    exists pe' ents',
      process_relationships schemaMap (processEntity schemaMap fuel)
                            rels pe ents = Ok (pe', ents')
      /\ extends schemaMap universe ents ents'
      /\ forall k cfg o,
           In (k, cfg) rels ->
           In o (field_occurrences schemaMap cfg (get pe k)) ->
           written schemaMap ents' o.
Proof.
  intros IH. induction rels as [|[key cfg] rels IHr]; intros Hnd pe ents Hf.
  - exists pe, ents. simpl. repeat split; auto using extends_refl.
    intros ? ? ? [].
  - inversion Hnd as [|? ? Hni Hnd']; subst.
    rewrite process_relationships_step.
    destruct (process_field_spec fuel cfg (get pe key) ents IH
                (Hf key cfg (or_introl eq_refl)))
      as (x & e1 & Hx & He1 & Hw1).
    rewrite Hx. simpl.
    assert (Hother : forall k c, In (k, c) rels ->
                                 get (write_field pe key x) k = get pe k).
    { intros k c Hin. apply write_field_get_other. intros <-.
      apply Hni. change key with (fst (key, c)). now apply in_map. }
    destruct (IHr Hnd' (write_field pe key x) e1) as (pe' & e2 & Hl & He2 & Hw2).
    { intros k c Hin. rewrite (Hother _ _ Hin). apply Hf. now right. }
    exists pe', e2. repeat split; eauto using extends_trans.
    intros k c o [Heq|Hin] Ho.
    + injection Heq as <- <-.
      eapply written_extends; eauto.
      eapply field_ready_incl; eauto. apply Hf. now left.
    + eapply Hw2; eauto. now rewrite (Hother _ _ Hin).
Qed.

Lemma nested_under_depth fields schema cfg x :
  nested_under fields schema cfg x -> depth x < depth (VObj fields).
Proof.
  intros (k & v & _ & Hl & Hx). apply depth_field in Hl.
  destruct (isArray cfg).
  - destruct Hx as (items & -> & Hin). apply depth_item in Hin. lia.
  - now subst.
Qed.

Lemma nested_under_occurrences ty fields schema cfg x :
  AList.lookup schemaMap ty = Some schema ->
  nested_under fields schema cfg x ->
  incl (occurrences schemaMap (type cfg) x)
       (occurrences schemaMap ty (VObj fields)).
Proof.
  intros Hs (k & v & Hc & Hl & Hx) o Ho.
  eapply field_occurrences_incl; [exact Hs|exact Hc|exact Hl|].
  unfold field_occurrences. destruct (isArray cfg).
  - destruct Hx as (items & -> & Hin). apply in_flat_map. eauto.
  - now subst.
Qed.

Lemma fields_shape (P : string -> value -> Prop) ty fields schema :
  conforms schemaMap ty (VObj fields) = true ->
  AList.lookup schemaMap ty = Some schema ->
  (forall cfg x,
      nested_under fields schema cfg x ->
      conforms schemaMap (type cfg) x = true -> P (type cfg) x) ->
  forall k cfg,
    In (k, cfg) (relationships_of schema) ->
    field_shape P cfg (get fields k).
Proof.
  intros Hc Hs HP k cfg Hin.
  destruct (conforms_inv schemaMap ty _ Hc)
    as (f & schema' & [= <-] & Hs' & Hndf & Hid & Hrel).
  rewrite Hs in Hs'. injection Hs' as <-.
  assert (Hnd : NoDup (AList.keys (relationships_of schema)))
    by (eapply wf_schemas_nodup; eauto).
  apply AListFacts.in_lookup in Hin; auto.
  unfold get. destruct (AList.lookup fields k) as [v|] eqn:Hl;
    [|now left].
  right. apply AListFacts.lookup_in in Hl as Hlin.
  specialize (Hrel k cfg v Hin Hlin).
  destruct (isArray cfg) eqn:Ha.
  - left. split; auto. destruct Hrel as (items & -> & Hi).
    exists items. split; auto. intros x Hx.
    apply HP; auto. exists k, (VArr items). rewrite Ha. eauto.
  - right. split; auto. destruct Hrel as [->|Hcv]; [now left|right].
    apply HP; auto. exists k, v. rewrite Ha. auto.
Qed.

Lemma fields_ready fuel ty fields schema :
  conforms schemaMap ty (VObj fields) = true ->
  AList.lookup schemaMap ty = Some schema ->
  depth (VObj fields) < S fuel ->
  incl (occurrences schemaMap ty (VObj fields)) universe ->
  forall k cfg,
    In (k, cfg) (relationships_of schema) ->
    field_ready schemaMap universe fuel cfg (get fields k).
Proof.
  intros Hc Hs Hd Hincl. apply (fields_shape _ ty); auto.
  intros cfg x Hx Hcx. split; [exact Hcx|]. split.
  - apply nested_under_depth in Hx. lia.
  - intros o Ho. apply Hincl. eapply nested_under_occurrences; eauto.
Qed.

Lemma processEntity_spec : forall fuel, entity_spec schemaMap universe fuel.
Proof.
  induction fuel as [|fuel IH]; intros e ty ents (Hc & Hd & Hincl); [lia|].
  destruct (conforms_inv schemaMap ty _ Hc)
    as (fields & schema & -> & Hs & Hndf & Hid & Hrel).
  assert (Hnd : NoDup (AList.keys (relationships_of schema)))
    by (eapply wf_schemas_nodup; eauto).
  destruct (is_entity_id_defined _ Hid) as (Hu & _).
  destruct (process_relationships_spec fuel (relationships_of schema) IH
              Hnd fields (ensure_collection ents ty)
              (fields_ready fuel ty fields schema Hc Hs Hd Hincl))
    as (pe' & e1 & Hl & He & Hw).
  assert (Hpe : pe' = normal_form schemaMap ty (VObj fields))
    by (eapply process_relationships_normal_form; eauto).
  assert (Hself : In (ty, VObj fields) universe)
    by (apply Hincl; rewrite occurrences_obj; now left).
  assert (Hid_of : id_of schemaMap ty (VObj fields)
                   = get fields (id_key schema))
    by (unfold id_of; now rewrite Hs).
  exists (store_entity e1 ty
            (to_string (get fields (id_key schema))) pe').
  split; [|split].
  - simpl. rewrite Hs. cbn [bind]. rewrite Hu.
    rewrite process_relationships_of. unfold own_props.
    rewrite Hl. cbn [bind]. now rewrite Hid_of.
  - apply extends_trans with (ensure_collection ents ty).
    { intros t k. left. apply entity_at_ensure. }
    apply extends_trans with e1; auto.
    intros t k.
    destruct (String.eqb_spec t ty) as [->|Ht];
      [destruct (String.eqb_spec k (to_string (get fields (id_key schema))))
        as [->|Hk]|].
    + right. exists (VObj fields). rewrite Hid_of.
      repeat split; auto. rewrite entity_at_store_same. now rewrite Hpe.
    + left. apply entity_at_store_other. congruence.
    + left. apply entity_at_store_other. congruence.
  - assert (Hst : extends schemaMap universe e1
              (store_entity e1 ty
                 (to_string (get fields (id_key schema))) pe')).
    { intros t k.
      destruct (String.eqb_spec t ty) as [->|Ht];
        [destruct (String.eqb_spec k
                     (to_string (get fields (id_key schema))))
          as [->|Hk]|].
      + right. exists (VObj fields). rewrite Hid_of.
        repeat split; auto. rewrite entity_at_store_same. now rewrite Hpe.
      + left. apply entity_at_store_other. congruence.
      + left. apply entity_at_store_other. congruence. }
    intros o Ho. rewrite occurrences_obj, Hs in Ho.
    destruct Ho as [<-|Ho].
    + unfold written. simpl. rewrite Hid_of, entity_at_store_same.
      now rewrite Hpe.
    + apply in_flat_map in Ho. destruct Ho as ([k x] & Hkx & Ho).
      simpl in Ho.
      destruct (AList.lookup (relationships_of schema) k) as [cfg|] eqn:Hk;
        [|now elim Ho].
      apply AListFacts.in_lookup in Hkx; auto.
      eapply written_extends; [| |exact Hst].
      * apply Hincl.
        eapply field_occurrences_incl; eauto.
      * apply (Hw k cfg o).
        -- now apply AListFacts.lookup_in.
        -- unfold get. now rewrite Hkx.
Qed.

(** *** Back from the collections *)

Lemma filter_truthy_conforming ty items :
  (forall x, In x items -> conforms schemaMap ty x = true) ->
  filter truthy items = items.
Proof.
  induction items as [|x items IH]; intros H; simpl; auto.
  rewrite (conforms_truthy schemaMap ty x) by (apply H; now left).
  f_equal. apply IH. intros; apply H; now right.
Qed.

Lemma mapM_restore fuel ty ents items :
  restore_spec schemaMap fuel ->
  (forall x, In x items -> stored_ok schemaMap ents fuel ty x) ->
  mapM (fun id => denormalizeSingle schemaMap fuel id ty ents)
       (map (id_of schemaMap ty) items) = Ok items.
Proof.
  intros IH. induction items as [|x items IHl]; intros H; simpl; auto.
  rewrite (IH x ty ents) by (apply H; now left). simpl.
  rewrite IHl by (intros; apply H; now right). reflexivity.
Qed.

Lemma id_of_conforming ty x :
  conforms schemaMap ty x = true ->
  is_entity_id (id_of schemaMap ty x) = true.
Proof.
  intros Hc.
  destruct (conforms_inv schemaMap ty x Hc)
    as (fields & schema & -> & Hs & _ & Hid & _).
  unfold id_of. now rewrite Hs.
Qed.

(** Denormalizing the stored value of a field gives the field back. *)
Lemma denormalize_field_restores fuel cfg v ents :
  restore_spec schemaMap fuel ->
  field_shape (stored_ok schemaMap ents fuel) cfg v ->
  exists x,
    denormalize_field
      (fun id ty => denormalizeSingle schemaMap fuel id ty ents) cfg
      (normalize_field_value schemaMap cfg v) = Ok x
    /\ match x with
       | Some y => y
       | None => normalize_field_value schemaMap cfg v
       end = v.
Proof.
  intros IH Hsh. unfold denormalize_field, normalize_field_value.
  destruct Hsh as [->|[(Ha & items & -> & Hi)|(Ha & [->|Hok])]].
  - exists None. auto.
  - rewrite Ha. simpl.
    rewrite (mapM_restore fuel (type cfg) ents items IH Hi). simpl.
    eexists. split; [reflexivity|]. simpl. f_equal.
    apply (filter_truthy_conforming (type cfg)).
    intros x Hx. now destruct (Hi x Hx).
  - rewrite Ha. simpl. exists None. auto.
  - pose proof Hok as (Hc & _).
    pose proof (id_of_conforming _ _ Hc) as Hid.
    destruct (is_entity_id_defined _ Hid) as (Hu & Hn).
    assert (Hv : is_undefined v = false /\ is_null v = false)
      by (destruct v; try discriminate; auto).
    destruct Hv as (Hvu & Hvn).
    rewrite Ha, Hvu, Hvn, Hu, Hn, (IH v (type cfg) ents Hok). simpl.
    eexists. split; reflexivity.
Qed.

Lemma fields_stored fuel ty fields schema ents :
  conforms schemaMap ty (VObj fields) = true ->
  AList.lookup schemaMap ty = Some schema ->
  depth (VObj fields) < S fuel ->
  (forall o, In o (occurrences schemaMap ty (VObj fields)) ->
             written schemaMap ents o) ->
  forall k cfg,
    In (k, cfg) (relationships_of schema) ->
    field_shape (stored_ok schemaMap ents fuel) cfg (get fields k).
Proof.
  intros Hc Hs Hd Hw. apply (fields_shape _ ty); auto.
  intros cfg x Hx Hcx. split; [exact Hcx|]. split.
  - apply nested_under_depth in Hx. lia.
  - intros o Ho. apply Hw. eapply nested_under_occurrences; eauto.
Qed.

Lemma normal_form_lookup ty fields schema k :
  AList.lookup schemaMap ty = Some schema ->
  AList.lookup (normal_form schemaMap ty (VObj fields)) k
  = option_map
      (fun x =>
         match AList.lookup (relationships_of schema) k with
         | Some cfg => normalize_field_value schemaMap cfg x
         | None => x
         end)
      (AList.lookup fields k).
Proof.
  intros Hs. unfold normal_form. rewrite Hs. simpl.
  apply (lookup_map_values
           (fun k x =>
              match AList.lookup (relationships_of schema) k with
              | Some cfg => normalize_field_value schemaMap cfg x
              | None => x
              end)).
Qed.

Lemma normal_form_keys ty fields :
  AList.keys (normal_form schemaMap ty (VObj fields)) = AList.keys fields.
Proof.
  unfold normal_form. destruct (AList.lookup schemaMap ty) as [schema|]; auto.
  apply (keys_map_values
           (fun k x =>
              match AList.lookup (relationships_of schema) k with
              | Some cfg => normalize_field_value schemaMap cfg x
              | None => x
              end)).
Qed.

Lemma normal_form_get ty fields schema k cfg :
  AList.lookup schemaMap ty = Some schema ->
  AList.lookup (relationships_of schema) k = Some cfg ->
  get (normal_form schemaMap ty (VObj fields)) k
  = normalize_field_value schemaMap cfg (get fields k).
Proof.
  intros Hs Hc. unfold get. rewrite (normal_form_lookup _ _ schema) by auto.
  rewrite Hc. now destruct (AList.lookup fields k).
Qed.

Lemma denormalizeSingle_restores : forall fuel, restore_spec schemaMap fuel.
Proof.
  induction fuel as [|fuel IH]; intros e ty ents (Hc & Hd & Hw); [lia|].
  destruct (conforms_inv schemaMap ty e Hc)
    as (fields & schema & -> & Hs & Hndf & Hid & Hrel).
  assert (Hnd : NoDup (AList.keys (relationships_of schema)))
    by (eapply wf_schemas_nodup; eauto).
  assert (Hself : written schemaMap ents (ty, VObj fields))
    by (apply Hw; rewrite occurrences_obj; now left).
  unfold written in Hself. simpl in Hself.
  pose proof (fields_stored fuel ty fields schema ents Hc Hs Hd Hw) as Hsh.
  set (recur := fun id t => denormalizeSingle schemaMap fuel id t ents).
  set (nf := normal_form schemaMap ty (VObj fields)) in *.
  assert (Hfield : forall k cfg,
             In (k, cfg) (relationships_of schema) ->
             exists x,
               denormalize_field recur cfg (get nf k) = Ok x
               /\ match x with
                  | Some y => Some y
                  | None => AList.lookup nf k
                  end = AList.lookup fields k).
  { intros k cfg Hin. pose proof Hin as Hl.
    apply AListFacts.in_lookup in Hl; auto.
    destruct (denormalize_field_restores fuel cfg (get fields k) ents IH
                (Hsh k cfg Hin)) as (x & Hx & Hv).
    exists x. unfold nf. rewrite (normal_form_get ty fields schema k cfg)
      by auto.
    split; [exact Hx|].
    rewrite (normal_form_lookup ty fields schema) by auto. rewrite Hl.
    unfold get in Hv, Hx.
    destruct (AList.lookup fields k) as [v|] eqn:Hk.
    - simpl. destruct x; congruence.
    - simpl. destruct x as [y|]; auto. subst.
      unfold normalize_field_value, denormalize_field in Hx.
      simpl in Hx. discriminate Hx. }
  destruct (denormalize_relationships_complete recur
              (relationships_of schema) Hnd nf) as (de' & Hde).
  { intros k cfg Hin. destruct (Hfield k cfg Hin) as (x & Hx & _). eauto. }
  assert (Hfields : de' = fields).
  { pose proof Hde as Hok.
    apply denormalize_relationships_ok in Hok; auto.
    destruct Hok as (Hk & Hnone & Hsome).
    assert (Hkeys : AList.keys de' = AList.keys fields)
      by (rewrite Hk; apply normal_form_keys).
    apply AListFacts.ext; auto; [now rewrite Hkeys|].
    intros k.
    destruct (AList.lookup (relationships_of schema) k) as [cfg|] eqn:Hl.
    - apply AListFacts.lookup_in in Hl.
      destruct (Hsome k cfg Hl) as (x & Hx & Hlx).
      destruct (Hfield k cfg Hl) as (x' & Hx' & Hv).
      rewrite Hx in Hx'. injection Hx' as <-. now rewrite Hlx.
    - rewrite (Hnone k Hl). unfold nf.
      rewrite (normal_form_lookup ty fields schema) by auto. rewrite Hl.
      now destruct (AList.lookup fields k). }
  cbn [denormalizeSingle]. rewrite Hself, Hs.
  rewrite denormalize_relationships_of.
  fold recur. rewrite Hde. simpl. now rewrite Hfields.
Qed.
End RoundTrip.

(** C1, as the code has it. For an input that conforms to the schema map
    (nested in full, identifiers that are strings or numbers) and in which
    any two nested entities of one type with the same identifier key are the
    same nested object, normalize returns, and denormalizing its result from
    its collections gives the input back, property order included. The
    names of the schema map and the identifiers nested in the input are
    ordinary ones ([ordinary_schemas], [ordinary_input]): on them the
    collection key of an identifier is the string [to_string] gives, and
    every read finds an own property or nothing. *)
Theorem round_trip (schemaMap : EntitySchemaMap) (input : value)
    (rootType : string) :
  wf_schemas schemaMap = true ->
  ordinary_schemas schemaMap = true ->
  conforms_input schemaMap rootType input = true ->
  ordinary_input schemaMap rootType input = true ->
  consistent schemaMap (input_occurrences schemaMap rootType input) ->
  exists nd,
    normalize schemaMap input rootType = Ok nd
    /\ forall fuel,
         depth input < fuel ->
         denormalize schemaMap fuel (result nd) rootType (entities nd)
         = Ok input.
Proof.
  intros Hwf _ Hc _ Hcons. unfold conforms_input in Hc.
  destruct (AList.lookup schemaMap rootType) as [schema|] eqn:Hs;
    [|discriminate].
  set (universe := input_occurrences schemaMap rootType input) in *.
  pose proof (processEntity_spec schemaMap Hwf universe Hcons) as Hnorm.
  pose proof (denormalizeSingle_restores schemaMap Hwf) as Hden.
  unfold normalize, normalize_fuel. rewrite Hs.
  destruct input as [| | | | |items|fields]; try discriminate.
  - rewrite forallb_forall in Hc.
    destruct (mapS_spec schemaMap universe Hcons (S (depth (VArr items)))
                rootType (Hnorm _) items [])
      as (ents & Hm & _ & Hw).
    { intros x Hx. split; [auto|]. split.
      - apply depth_item in Hx. lia.
      - intros o Ho. unfold universe. simpl. apply in_flat_map. eauto. }
    rewrite Hs in Hm. rewrite Hm. cbn [bind].
    eexists. split; [reflexivity|]. intros fuel Hfuel. simpl.
    rewrite (mapM_restore schemaMap fuel rootType ents items (Hden fuel)).
    + simpl. f_equal. f_equal.
      apply (filter_truthy_conforming schemaMap rootType). auto.
    + intros x Hx. split; [auto|]. split.
      * apply depth_item in Hx. lia.
      * intros o Ho. apply Hw. apply in_flat_map. eauto.
  - destruct (Hnorm (S (depth (VObj fields))) (VObj fields) rootType [])
      as (ents & Hp & _ & Hw).
    { split; [auto|]. split; [lia|]. intros o Ho. exact Ho. }
    rewrite Hs in Hp. cbn [truthy]. rewrite Hp. cbn [bind].
    eexists. split; [reflexivity|]. intros fuel Hfuel. simpl result.
    simpl entities.
    pose proof (id_of_conforming schemaMap rootType _ Hc) as Hid.
    rewrite denormalize_single
      by (intros ids E; rewrite E in Hid; discriminate).
    apply Hden. split; [auto|]. split; auto.
Qed.

Lemma sampleBlogData_consistent :
  consistent blogSchemas (input_occurrences blogSchemas "posts" sampleBlogData).
Proof.
  intros ty x y Hx Hy Hk. simpl in Hx, Hy.
  repeat match goal with
         | H : _ \/ _ |- _ => destruct H as [H|H]
         | H : False |- _ => elim H
         end;
    injection Hx as <- <-; try discriminate Hy;
    injection Hy as <-; try reflexivity; vm_compute in Hk; discriminate Hk.
Qed.

Lemma round_trip_witness :
  wf_schemas blogSchemas = true
  /\ ordinary_schemas blogSchemas = true
  /\ conforms_input blogSchemas "posts" sampleBlogData = true
  /\ ordinary_input blogSchemas "posts" sampleBlogData = true
  /\ exists nd,
       normalize blogSchemas sampleBlogData "posts" = Ok nd
       /\ forall fuel,
            depth sampleBlogData < fuel ->
            denormalize blogSchemas fuel (result nd) "posts" (entities nd)
            = Ok sampleBlogData.
Proof.
  split; [reflexivity|]. split; [reflexivity|].
  split; [reflexivity|]. split; [reflexivity|].
  exact (round_trip blogSchemas sampleBlogData "posts" eq_refl eq_refl
           eq_refl eq_refl sampleBlogData_consistent).
Defined.

(** C1 as stated fails: the input below is acyclic, nested in full and
    every entity has its identifier, yet the second copy of user1
    overwrites the first one in the users collection, and what denormalize
    returns differs from the input in more than the order of properties. *)
Lemma round_trip_fails_on_conflicting_copies :
  conforms_input blogSchemas "posts" conflictingAuthors = true
  /\ exists nd,
       normalize blogSchemas conflictingAuthors "posts" = Ok nd
       /\ denormalize blogSchemas 3 (result nd) "posts" (entities nd)
          = Ok (VArr [ post "p1" (user "user1" "Bob") "first" [];
                       post "p2" (user "user1" "Bob") "second" [] ])
       /\ forall fuel out,
            denormalize blogSchemas fuel (result nd) "posts" (entities nd)
            = Ok out ->
            same_value out conflictingAuthors = false.
Proof.
  split; [reflexivity|]. eexists. split; [vm_compute; reflexivity|].
  split; [vm_compute; reflexivity|].
  intros fuel out H.
  destruct (Nat.le_gt_cases 2 fuel) as [Hle|Hlt].
  - match type of H with
    | denormalize ?sm fuel ?id ?ty ?ents = _ =>
        let r := eval vm_compute in (denormalize sm 2 id ty ents) in
        assert (H3 : denormalize sm 2 id ty ents = r)
          by (vm_compute; reflexivity);
        eapply denormalize_fuel_ok in H3; [|exact Hle]
    end.
    rewrite H3 in H. injection H as <-. vm_compute. reflexivity.
  - destruct fuel as [|[|fuel]]; try lia; vm_compute in H; discriminate H.
Qed.

(** * Further properties of the engine and of the store *)

(** ** Collections keep their keys distinct *)

Lemma keys_set_absent {A} (m : AList.t A) k v :
  AList.lookup m k = None -> AList.keys (AList.set m k v) = AList.keys m ++ [k].
Proof.
  induction m as [|[k' v'] m IH]; simpl; auto.
  destruct (String.eqb_spec k' k); [discriminate|].
  intros H. simpl. f_equal. now apply IH.
Qed.

Lemma NoDup_keys_set {A} (m : AList.t A) k v :
  NoDup (AList.keys m) -> NoDup (AList.keys (AList.set m k v)).
Proof.
  intros Hnd. destruct (AList.lookup m k) eqn:Hl.
  - rewrite AListFacts.keys_set_present; auto. congruence.
  - rewrite keys_set_absent by auto.
    apply NoDup_app; [assumption|constructor; [intros []|constructor]|].
    intros x Hx [<-|[]]. now apply AListFacts.lookup_none_keys in Hl.
Qed.

Lemma set_same {A} (m : AList.t A) k v :
  AList.lookup m k = Some v -> AList.set m k v = m.
Proof.
  induction m as [|[k' v'] m IH]; simpl; [discriminate|].
  destruct (String.eqb_spec k' k).
  - now intros [= ->].
  - intros H. f_equal. auto.
Qed.

Lemma set_set {A} (m : AList.t A) k v v' :
  AList.set (AList.set m k v) k v' = AList.set m k v'.
Proof.
  induction m as [|[k' v0] m IH]; simpl.
  - now rewrite String.eqb_refl.
  - destruct (String.eqb k' k) eqn:E; simpl; rewrite E; auto.
    now rewrite IH.
Qed.

Lemma distinct_keys_nil : distinct_keys [].
Proof. split; [constructor|discriminate]. Qed.

Lemma distinct_keys_set ents ty m :
  distinct_keys ents -> NoDup (AList.keys m) ->
  distinct_keys (AList.set ents ty m).
Proof.
  intros [Hk Hm] Hnd. split; [now apply NoDup_keys_set|].
  intros t m' Hl. destruct (String.eqb_spec ty t) as [<-|Hne].
  - rewrite AListFacts.lookup_set_eq in Hl. now injection Hl as <-.
  - rewrite AListFacts.lookup_set_neq in Hl; eauto.
Qed.

Lemma distinct_keys_ensure ents ty :
  distinct_keys ents -> distinct_keys (ensure_collection ents ty).
Proof.
  intros H. unfold ensure_collection.
  destruct (AList.lookup ents ty); auto.
  apply distinct_keys_set; auto. constructor.
Qed.

Lemma distinct_keys_store ents ty k r :
  distinct_keys ents -> distinct_keys (store_entity ents ty k r).
Proof.
  intros H. unfold store_entity.
  destruct (AList.lookup ents ty) as [m|] eqn:Hl;
    apply distinct_keys_set; auto.
  - apply NoDup_keys_set. destruct H as [_ H]. eauto.
  - simpl. constructor; [intros []|constructor].
Qed.

Section Preservation.
Variable schemaMap : EntitySchemaMap.
Variable Inv : Entities -> Prop.
Hypothesis Inv_ensure :
  forall ents ty, Inv ents -> Inv (ensure_collection ents ty).
Hypothesis Inv_store :
  forall ents ty k r, Inv ents -> Inv (store_entity ents ty k r).

Lemma mapS_preserves {A B} (f : A -> Entities -> outcome (B * Entities)) l :
  (forall x s y s', f x s = Ok (y, s') -> Inv s -> Inv s') ->
  forall s ys s', mapS f l s = Ok (ys, s') -> Inv s -> Inv s'.
Proof.
  intros Hf. induction l as [|x l IH]; intros s ys s' H Hs; simpl in H.
  - now injection H as <- <-.
  - bind_inv H. destruct a as [y s1]. bind_inv H. destruct a as [zs s2].
    injection H as <- <-. eauto.
Qed.

Lemma process_relationships_preserves recur rels :
  (forall e ty sch s y s', recur e ty sch s = Ok (y, s') -> Inv s -> Inv s') ->
  forall pe s pe' s',
    process_relationships schemaMap recur rels pe s = Ok (pe', s') ->
    Inv s -> Inv s'.
Proof.
  intros Hr. induction rels as [|[key cfg] rels IH]; intros pe s pe' s' H Hs.
  - now injection H as <- <-.
  - rewrite process_relationships_step in H. bind_inv H.
    destruct a as [x s1]. eapply IH; [exact H|].
    unfold process_field in Hc.
    destruct (is_undefined (get pe key)); [now injection Hc as <- <-|].
    destruct (isArray cfg).
    + destruct (get pe key); try (now injection Hc as <- <-).
      bind_inv Hc. destruct a as [ids s2]. injection Hc as <- <-.
      eapply mapS_preserves; [|exact Hc0|exact Hs].
      intros x0 s0 y s3 Hx Hi. cbv beta in Hx. eapply Hr; eauto.
    + destruct (is_null (get pe key)); [now injection Hc as <- <-|].
      bind_inv Hc. destruct a as [id s2]. injection Hc as <- <-. eauto.
Qed.

Lemma processEntity_preserves fuel :
  forall e ty sch s id s',
    processEntity schemaMap fuel e ty sch s = Ok (id, s') -> Inv s -> Inv s'.
Proof.
  induction fuel as [|fuel IH]; intros e ty sch s id s' H Hs;
    [discriminate|].
  simpl in H. destruct sch as [schema|]; [|discriminate].
  bind_inv H. destruct (is_undefined a); [discriminate|].
  bind_inv H. destruct a0 as [pe s1]. injection H as <- <-.
  apply Inv_store.
  destruct (relationships schema) as [rels|].
  - eapply process_relationships_preserves; [|exact Hc0|auto]. exact IH.
  - injection Hc0 as <- <-. auto.
Qed.

Lemma normalize_preserves input schemaKey nd :
  Inv [] -> normalize schemaMap input schemaKey = Ok nd -> Inv (entities nd).
Proof.
  intros H0 H. unfold normalize, normalize_fuel in H.
  destruct (AList.lookup schemaMap schemaKey) as [schema|]; [|discriminate].
  assert (Hsingle :
    (if truthy input
     then '(id, ents) <-
            processEntity schemaMap (S (depth input)) input schemaKey
                          (Some schema) [] ;;
          Ok {| entities := ents; result := id |}
     else Ok {| entities := []; result := VUndef |}) = Ok nd ->
    Inv (entities nd)).
  { destruct (truthy input).
    - intros H1. bind_inv H1. destruct a as [id ents]. injection H1 as <-.
      simpl. eapply processEntity_preserves; eauto.
    - now intros [= <-]. }
  destruct input; auto.
  bind_inv H. destruct a as [ids ents]. injection H as <-. simpl.
  eapply mapS_preserves; [|exact Hc|exact H0].
  intros x s y s' Hx Hi. cbv beta in Hx.
  eapply processEntity_preserves; eauto.
Qed.
End Preservation.

Lemma normalize_distinct_keys schemaMap input schemaKey nd :
  normalize schemaMap input schemaKey = Ok nd -> distinct_keys (entities nd).
Proof.
  apply (normalize_preserves schemaMap distinct_keys).
  - apply distinct_keys_ensure.
  - apply distinct_keys_store.
  - apply distinct_keys_nil.
Qed.

(** ** addNormalizedData: what the merge keeps and what it replaces *)

Lemma merge_entities_lookup updated normalized ty :
  NoDup (AList.keys normalized) ->
  AList.lookup (merge_entities updated normalized) ty
  = match AList.lookup normalized ty with
    | Some m => Some (AList.spread (collection_of updated ty) m)
    | None => AList.lookup updated ty
    end.
Proof.
  unfold merge_entities. revert updated.
  induction normalized as [|[t0 m0] normalized IH]; intros updated Hnd;
    simpl; auto.
  inversion Hnd as [|? ? Hni Hnd']; subst. rewrite IH by auto.
  destruct (String.eqb_spec t0 ty) as [<-|Hne].
  - apply AListFacts.lookup_none_keys in Hni. rewrite Hni.
    now rewrite AListFacts.lookup_set_eq.
  - unfold collection_of. rewrite AListFacts.lookup_set_neq by auto.
    reflexivity.
Qed.

Lemma merge_entities_entity_at updated normalized ty k :
  distinct_keys normalized ->
  entity_at (merge_entities updated normalized) ty k
  = match entity_at normalized ty k with
    | Some e => Some e
    | None => entity_at updated ty k
    end.
Proof.
  intros [Hk Hm]. unfold entity_at.
  rewrite merge_entities_lookup by auto.
  destruct (AList.lookup normalized ty) as [m|] eqn:Hl; auto.
  rewrite AListFacts.lookup_spread, lookup_rev_nodup by eauto.
  unfold collection_of. destruct (AList.lookup m k); auto.
  now destruct (AList.lookup updated ty).
Qed.

(** Merging the same collections a second time changes nothing. *)
Lemma spread_again {A} (m m2 : AList.t A) :
  NoDup (AList.keys m2) ->
  AList.spread (AList.spread m m2) m2 = AList.spread m m2.
Proof.
  intros Hnd. set (r := AList.spread m m2).
  assert (H : forall kv, In kv m2 -> AList.lookup r (fst kv) = Some (snd kv)).
  { intros [k v] Hin. unfold r. simpl. rewrite AListFacts.lookup_spread.
    rewrite lookup_rev_nodup by auto.
    now rewrite (AListFacts.in_lookup _ _ _ Hnd Hin). }
  clearbody r. unfold AList.spread. clear Hnd.
  induction m2 as [|[k v] m2 IH]; simpl; auto.
  rewrite set_same by (apply (H (k, v)); now left).
  apply IH. intros; apply H; now right.
Qed.

Lemma merge_entities_again updated normalized :
  distinct_keys normalized ->
  merge_entities (merge_entities updated normalized) normalized
  = merge_entities updated normalized.
Proof.
  intros Hd. set (r := merge_entities updated normalized).
  assert (H : forall tm, In tm normalized ->
                         AList.lookup r (fst tm)
                         = Some (AList.spread (collection_of updated (fst tm))
                                              (snd tm))).
  { intros [t m] Hin. unfold r. destruct Hd as [Hk _]. simpl.
    rewrite merge_entities_lookup by auto.
    now rewrite (AListFacts.in_lookup _ _ _ Hk Hin). }
  assert (Hm : forall tm, In tm normalized -> NoDup (AList.keys (snd tm))).
  { intros [t m] Hin. destruct Hd as [Hk Hc]. simpl.
    apply (Hc t). now apply AListFacts.in_lookup. }
  clearbody r. unfold merge_entities. clear Hd.
  induction normalized as [|[t m] normalized IH]; simpl; auto.
  assert (Hl := H (t, m) (or_introl eq_refl)). simpl in Hl.
  unfold EntityMap in *. rewrite Hl. rewrite spread_again by (apply (Hm (t, m)); now left).
  rewrite set_same by exact Hl.
  apply IH; intros; [apply H|apply Hm]; now right.
Qed.

Lemma addNormalizedData_entity_at schemas st data entityType nd :
  normalize schemas data entityType = Ok nd ->
  forall ty k,
    entity_at (st_entities (addNormalizedData schemas st data entityType))
              ty k
    = match entity_at (entities nd) ty k with
      | Some e => Some e
      | None => entity_at (st_entities st) ty k
      end.
Proof.
  intros H ty k. unfold addNormalizedData, addNormalizedData_steps.
  rewrite H. simpl. apply merge_entities_entity_at.
  eapply normalize_distinct_keys; eauto.
Qed.

(** X1. For a schema map with ordinary names, an ordinary type name and
    data whose nested entities have ordinary identifiers: after an
    addNormalizedData whose normalization returns, every entity of the
    normalized data is in the store, replacing as a whole the entity
    stored before under its identifier, every other entity of the store is
    as before, and so are the loading flags of the other types. *)
Theorem addNormalizedData_merge (schemas : EntitySchemaMap)
    (st : NormalizationState) (data : value) (entityType : string)
    (nd : NormalizedData) :
  ordinary_schemas schemas = true ->
  ordinary_name entityType = true ->
  ordinary_input schemas entityType data = true ->
  normalize schemas data entityType = Ok nd ->
  (forall ty k,
      entity_at (st_entities (addNormalizedData schemas st data entityType))
                ty k
      = match entity_at (entities nd) ty k with
        | Some e => Some e
        | None => entity_at (st_entities st) ty k
        end)
  /\ (forall ty,
         ty <> entityType ->
         AList.lookup
           (st_loading (addNormalizedData schemas st data entityType)) ty
         = AList.lookup (st_loading st) ty).
Proof.
  intros _ _ _ H. split.
  - now apply addNormalizedData_entity_at.
  - intros ty Hne. unfold addNormalizedData, addNormalizedData_steps.
    rewrite H. simpl. rewrite !AListFacts.lookup_set_neq by congruence.
    reflexivity.
Qed.

Lemma addNormalizedData_merge_witness :
  ordinary_schemas blogSchemas = true
  /\ ordinary_input blogSchemas "posts" samplePost1 = true
  /\ exists nd,
    normalize blogSchemas samplePost1 "posts" = Ok nd
    /\ forall ty k,
         entity_at
           (st_entities
              (addNormalizedData blogSchemas (initialState blogSchemas)
                                 samplePost1 "posts")) ty k
         = match entity_at (entities nd) ty k with
           | Some e => Some e
           | None => entity_at (st_entities (initialState blogSchemas)) ty k
           end.
Proof.
  split; [reflexivity|]. split; [reflexivity|].
  destruct (normalize blogSchemas samplePost1 "posts") as [nd|e|] eqn:H.
  - exists nd. split; [reflexivity|].
    exact (proj1 (addNormalizedData_merge blogSchemas
                    (initialState blogSchemas) samplePost1 "posts" nd
                    eq_refl eq_refl eq_refl H)).
  - vm_compute in H. discriminate H.
  - vm_compute in H. discriminate H.
Defined.

(** X2. Adding the same data a second time leaves the store exactly as the
    first addition left it. *)
Theorem addNormalizedData_idempotent (schemas : EntitySchemaMap)
    (st : NormalizationState) (data : value) (entityType : string) :
  addNormalizedData schemas
    (addNormalizedData schemas st data entityType) data entityType
  = addNormalizedData schemas st data entityType.
Proof.
  unfold addNormalizedData, addNormalizedData_steps.
  pose proof (normalize_not_diverge schemas data entityType) as Hnd.
  destruct (normalize schemas data entityType) as [nd|e|] eqn:H;
    [| |now elim Hnd]; simpl; unfold patch_loading, patch_entities; simpl.
  - rewrite !set_set.
    rewrite merge_entities_again
      by (eapply normalize_distinct_keys; eauto).
    reflexivity.
  - now rewrite !set_set.
Qed.

(** ** What normalize stores, and the round trip through the store *)

Lemma occurrences_nested schemaMap n :
  forall ty e,
    depth e < n ->
    conforms schemaMap ty e = true ->
    forall t x,
      In (t, x) (occurrences schemaMap ty e) ->
      conforms schemaMap t x = true
      /\ incl (occurrences schemaMap t x) (occurrences schemaMap ty e)
      /\ depth x <= depth e.
Proof.
  induction n as [|n IH]; intros ty e Hd Hc t x Hin; [lia|].
  destruct (conforms_inv schemaMap ty e Hc)
    as (fields & schema & -> & Hs & Hndf & Hid & Hrel).
  rewrite occurrences_obj, Hs in Hin. destruct Hin as [Heq|Hin].
  - injection Heq as <- <-. repeat split; auto. apply incl_refl.
  - apply in_flat_map in Hin. destruct Hin as ([k v] & Hkv & Hin).
    simpl in Hin.
    destruct (AList.lookup (relationships_of schema) k) as [cfg|] eqn:Hk;
      [|now elim Hin].
    pose proof (Hrel k cfg v Hk Hkv) as Hshape.
    assert (Hl : AList.lookup fields k = Some v)
      by (apply AListFacts.in_lookup; auto).
    assert (Hup : incl (field_occurrences schemaMap cfg v)
                       (occurrences schemaMap ty (VObj fields)))
      by (eapply field_occurrences_incl; eauto).
    assert (Hdv : depth v < depth (VObj fields))
      by (eapply depth_field; eauto).
    unfold field_occurrences in Hin, Hup.
    destruct (isArray cfg).
    + destruct Hshape as (items & -> & Hi).
      apply in_flat_map in Hin. destruct Hin as (item & Hitem & Hin).
      assert (Hdi : depth item < depth (VArr items))
        by (now apply depth_item).
      destruct (IH (type cfg) item) with (t := t) (x := x)
        as (Hcx & Hincl & Hdx); auto; [lia|].
      repeat split; auto; [|lia].
      intros o Ho. apply Hup. apply in_flat_map. eauto.
    + destruct Hshape as [->|Hcv]; [now elim Hin|].
      destruct (IH (type cfg) v) with (t := t) (x := x)
        as (Hcx & Hincl & Hdx); auto; [lia|].
      repeat split; auto; [|lia].
      intros o Ho. apply Hup. auto.
Qed.

Lemma input_occurrences_nested schemaMap rootType input t x :
  conforms_input schemaMap rootType input = true ->
  In (t, x) (input_occurrences schemaMap rootType input) ->
  conforms schemaMap t x = true
  /\ incl (occurrences schemaMap t x)
          (input_occurrences schemaMap rootType input).
Proof.
  unfold conforms_input, input_occurrences.
  destruct (AList.lookup schemaMap rootType); [|discriminate].
  intros Hc Hin.
  assert (Hone : forall e,
             conforms schemaMap rootType e = true ->
             In (t, x) (occurrences schemaMap rootType e) ->
             conforms schemaMap t x = true
             /\ incl (occurrences schemaMap t x)
                     (occurrences schemaMap rootType e)).
  { intros v0 He Hine.
    destruct (occurrences_nested schemaMap (S (depth v0)) rootType v0
                (Nat.lt_succ_diag_r _) He t x Hine) as (H1 & H2 & _).
    auto. }
  destruct input; try (now apply Hone).
  rewrite forallb_forall in Hc. apply in_flat_map in Hin.
  destruct Hin as (item & Hitem & Hin).
  destruct (Hone item (Hc _ Hitem) Hin) as (H1 & H2).
  split; auto. intros o Ho. apply in_flat_map. eauto.
Qed.

(** normalize returns on a conforming input; its collections hold the
    stored form of every nested entity and nothing else. *)
Lemma normalize_written schemaMap input rootType :
  wf_schemas schemaMap = true ->
  conforms_input schemaMap rootType input = true ->
  consistent schemaMap (input_occurrences schemaMap rootType input) ->
  exists nd,
    normalize schemaMap input rootType = Ok nd
    /\ extends schemaMap (input_occurrences schemaMap rootType input)
               [] (entities nd)
    /\ forall o, In o (input_occurrences schemaMap rootType input) ->
                 written schemaMap (entities nd) o.
Proof.
  intros Hwf Hc Hcons. unfold conforms_input in Hc.
  destruct (AList.lookup schemaMap rootType) as [schema|] eqn:Hs;
    [|discriminate].
  set (universe := input_occurrences schemaMap rootType input) in *.
  pose proof (processEntity_spec schemaMap Hwf universe Hcons) as Hnorm.
  unfold normalize, normalize_fuel. rewrite Hs.
  destruct input as [| | | | |items|fields]; try discriminate.
  - rewrite forallb_forall in Hc.
    destruct (mapS_spec schemaMap universe Hcons (S (depth (VArr items)))
                rootType (Hnorm _) items [])
      as (ents & Hm & He & Hw).
    { intros x Hx. split; [auto|]. split.
      - apply depth_item in Hx. lia.
      - intros o Ho. unfold universe. simpl. apply in_flat_map. eauto. }
    rewrite Hs in Hm. rewrite Hm. cbn [bind].
    eexists. split; [reflexivity|]. simpl. split; auto.
  - destruct (Hnorm (S (depth (VObj fields))) (VObj fields) rootType [])
      as (ents & Hp & He & Hw).
    { split; [auto|]. split; [lia|]. intros o Ho. exact Ho. }
    rewrite Hs in Hp. cbn [truthy]. rewrite Hp. cbn [bind].
    eexists. split; [reflexivity|]. simpl. split; auto.
Qed.

(** X3. For a schema map with ordinary names: after addNormalizedData of a
    conforming input whose nested entities have ordinary identifiers and
    are the same wherever they share a type and an identifier, in whatever
    state the store was, the denormalized view of the identifier of every
    entity nested in the input, at any level, is that nested entity. *)
Theorem store_round_trip (schemas : EntitySchemaMap)
    (st : NormalizationState) (input : value) (rootType : string) :
  wf_schemas schemas = true ->
  ordinary_schemas schemas = true ->
  conforms_input schemas rootType input = true ->
  ordinary_input schemas rootType input = true ->
  consistent schemas (input_occurrences schemas rootType input) ->
  forall ty x,
    In (ty, x) (input_occurrences schemas rootType input) ->
    forall fuel,
      depth x < fuel ->
      getDenormalizedEntity schemas fuel
        (addNormalizedData schemas st input rootType) ty (id_of schemas ty x)
      = Ok x.
Proof.
  intros Hwf _ Hc _ Hcons ty x Hin fuel Hfuel.
  destruct (normalize_written schemas input rootType Hwf Hc Hcons)
    as (nd & Hn & _ & Hw).
  destruct (input_occurrences_nested schemas rootType input ty x Hc Hin)
    as (Hcx & Hincl).
  pose proof (id_of_conforming schemas ty x Hcx) as Hid.
  unfold getDenormalizedEntity.
  rewrite denormalize_single
    by (intros ids E; rewrite E in Hid; discriminate).
  apply (denormalizeSingle_restores schemas Hwf).
  split; [auto|]. split; [auto|].
  intros o Ho. unfold written.
  rewrite (addNormalizedData_entity_at schemas st input rootType nd Hn).
  pose proof (Hw o (Hincl o Ho)) as Hwo. unfold written in Hwo.
  now rewrite Hwo.
Qed.

Lemma store_round_trip_witness :
  ordinary_schemas blogSchemas = true
  /\ ordinary_input blogSchemas "posts" sampleBlogData = true
  /\ In ("users", user "user3" "User 3")
        (input_occurrences blogSchemas "posts" sampleBlogData)
  /\ getDenormalizedEntity blogSchemas 2
       (addNormalizedData blogSchemas (initialState blogSchemas)
                          sampleBlogData "posts")
       "users" (id_of blogSchemas "users" (user "user3" "User 3"))
     = Ok (user "user3" "User 3").
Proof.
  assert (Hin : In ("users", user "user3" "User 3")
                   (input_occurrences blogSchemas "posts" sampleBlogData))
    by (simpl; do 5 right; left; reflexivity).
  split; [reflexivity|]. split; [reflexivity|]. split; [exact Hin|].
  exact (store_round_trip blogSchemas (initialState blogSchemas)
           sampleBlogData "posts" eq_refl eq_refl eq_refl eq_refl
           sampleBlogData_consistent
           "users" (user "user3" "User 3") Hin 2 (le_n 2)).
Defined.

(** X4. For a schema map with ordinary names and a conforming input whose
    nested entities have ordinary identifiers and are the same wherever
    they share a type and an identifier: the collections that normalize
    returns hold one entry for each distinct identifier nested in the
    input and no other: an entity is stored under a key of a type exactly
    when it is the stored form of an entity of that type nested in the
    input whose identifier gives that key; and the keys of every
    collection are pairwise distinct. *)
Theorem normalize_collections (schemaMap : EntitySchemaMap) (input : value)
    (rootType : string) :
  wf_schemas schemaMap = true ->
  ordinary_schemas schemaMap = true ->
  conforms_input schemaMap rootType input = true ->
  ordinary_input schemaMap rootType input = true ->
  consistent schemaMap (input_occurrences schemaMap rootType input) ->
  exists nd,
    normalize schemaMap input rootType = Ok nd
    /\ (forall ty k r,
           entity_at (entities nd) ty k = Some r <->
           exists x,
             In (ty, x) (input_occurrences schemaMap rootType input)
             /\ k = to_string (id_of schemaMap ty x)
             /\ r = normal_form schemaMap ty x)
    /\ (forall ty m,
           AList.lookup (entities nd) ty = Some m -> NoDup (AList.keys m)).
Proof.
  intros Hwf _ Hc _ Hcons.
  destruct (normalize_written schemaMap input rootType Hwf Hc Hcons)
    as (nd & Hn & He & Hw).
  exists nd. split; [exact Hn|]. split.
  - intros ty k r. split.
    + intros Hr. destruct (He ty k) as [H|(x & Hx & Hk & H)].
      * rewrite Hr in H. discriminate H.
      * exists x. repeat split; auto. congruence.
    + intros (x & Hx & -> & ->). apply (Hw (ty, x) Hx).
  - apply (normalize_distinct_keys schemaMap input rootType nd Hn).
Qed.

Lemma normalize_collections_witness :
  wf_schemas blogSchemas = true
  /\ ordinary_schemas blogSchemas = true
  /\ conforms_input blogSchemas "posts" sampleBlogData = true
  /\ ordinary_input blogSchemas "posts" sampleBlogData = true
  /\ exists nd,
       normalize blogSchemas sampleBlogData "posts" = Ok nd
       /\ (forall ty k r,
              entity_at (entities nd) ty k = Some r <->
              exists x,
                In (ty, x) (input_occurrences blogSchemas "posts"
                                              sampleBlogData)
                /\ k = to_string (id_of blogSchemas ty x)
                /\ r = normal_form blogSchemas ty x)
       /\ (forall ty m,
              AList.lookup (entities nd) ty = Some m ->
              NoDup (AList.keys m)).
Proof.
  split; [reflexivity|]. split; [reflexivity|].
  split; [reflexivity|]. split; [reflexivity|].
  exact (normalize_collections blogSchemas sampleBlogData "posts"
           eq_refl eq_refl eq_refl eq_refl sampleBlogData_consistent).
Defined.

Lemma forallb_map_id_of schemaMap ty items :
  (forall i, In i items -> conforms schemaMap ty i = true) ->
  forallb is_entity_id (map (id_of schemaMap ty) items) = true.
Proof.
  intros H. apply forallb_forall. intros v Hv.
  apply in_map_iff in Hv. destruct Hv as (i & <- & Hi).
  apply id_of_conforming. auto.
Qed.

(** The stored form of a conforming entity holds identifiers where the
    entity nests objects. *)
Lemma normal_form_flat schemaMap ty x schema key cfg :
  wf_schemas schemaMap = true ->
  conforms schemaMap ty x = true ->
  AList.lookup schemaMap ty = Some schema ->
  In (key, cfg) (relationships_of schema) ->
  flat_value cfg (get (normal_form schemaMap ty x) key) = true.
Proof.
  intros Hwf Hc Hs Hin.
  destruct (conforms_inv schemaMap ty x Hc)
    as (fields & schema' & -> & Hs' & Hndf & Hid & Hrel).
  rewrite Hs in Hs'. injection Hs' as <-.
  assert (Hnd : NoDup (AList.keys (relationships_of schema)))
    by (eapply wf_schemas_nodup; eauto).
  apply AListFacts.in_lookup in Hin; auto.
  rewrite (normal_form_get schemaMap ty fields schema key cfg Hs Hin).
  unfold get. destruct (AList.lookup fields key) as [v|] eqn:Hl;
    [|reflexivity].
  apply AListFacts.lookup_in in Hl.
  specialize (Hrel key cfg v Hin Hl). unfold normalize_field_value.
  destruct (isArray cfg) eqn:Ha.
  - destruct Hrel as (items & -> & Hi). simpl. rewrite Ha. simpl.
    now apply forallb_map_id_of.
  - destruct Hrel as [->|Hcv]; [simpl; now rewrite Ha|].
    pose proof (id_of_conforming schemaMap (type cfg) v Hcv) as Hidv.
    assert (Hv : is_undefined v = false /\ is_null v = false)
      by (destruct v; try discriminate; auto).
    destruct Hv as (-> & ->).
    destruct (id_of schemaMap (type cfg) v); try discriminate;
      simpl; now rewrite Ha.
Qed.

(** X5. For a schema map with ordinary names and distinct relationship
    names, and a conforming input whose nested entities have ordinary
    identifiers and are the same wherever they share a type and an
    identifier: normalize returns, and in the collections it returns no
    relationship field of a stored entity holds a nested object: a
    singular relationship holds nothing, null or an identifier, a plural
    one holds nothing or an array of identifiers. *)
Theorem normalize_stores_identifiers (schemaMap : EntitySchemaMap)
    (input : value) (rootType : string) :
  wf_schemas schemaMap = true ->
  ordinary_schemas schemaMap = true ->
  conforms_input schemaMap rootType input = true ->
  ordinary_input schemaMap rootType input = true ->
  consistent schemaMap (input_occurrences schemaMap rootType input) ->
  exists nd,
    normalize schemaMap input rootType = Ok nd
    /\ forall ty k r schema key cfg,
         entity_at (entities nd) ty k = Some r ->
         AList.lookup schemaMap ty = Some schema ->
         In (key, cfg) (relationships_of schema) ->
         flat_value cfg (get r key) = true.
Proof.
  intros Hwf _ Hc _ Hcons.
  destruct (normalize_written schemaMap input rootType Hwf Hc Hcons)
    as (nd & Hn & He & Hw).
  exists nd. split; [exact Hn|].
  intros ty k r schema key cfg Hr Hs Hin.
  destruct (He ty k) as [H|(x & Hx & Hk & H)].
  - rewrite Hr in H. discriminate H.
  - rewrite Hr in H. injection H as ->.
    destruct (input_occurrences_nested schemaMap rootType input ty x Hc Hx)
      as (Hcx & _).
    eapply normal_form_flat; eauto.
Qed.

Lemma normalize_stores_identifiers_witness :
  wf_schemas blogSchemas = true
  /\ ordinary_schemas blogSchemas = true
  /\ conforms_input blogSchemas "posts" sampleBlogData = true
  /\ ordinary_input blogSchemas "posts" sampleBlogData = true
  /\ exists nd,
       normalize blogSchemas sampleBlogData "posts" = Ok nd
       /\ forall ty k r schema key cfg,
            entity_at (entities nd) ty k = Some r ->
            AList.lookup blogSchemas ty = Some schema ->
            In (key, cfg) (relationships_of schema) ->
            flat_value cfg (get r key) = true.
Proof.
  split; [reflexivity|]. split; [reflexivity|].
  split; [reflexivity|]. split; [reflexivity|].
  exact (normalize_stores_identifiers blogSchemas sampleBlogData "posts"
           eq_refl eq_refl eq_refl eq_refl sampleBlogData_consistent).
Defined.

(** ** Termination *)

(** X6. normalize returns or throws on every input and every schema map:
    its recursion is never deeper than the nesting of the input, and
    room for deeper recursion changes nothing. *)
Theorem normalize_terminates (schemaMap : EntitySchemaMap) (input : value)
    (schemaKey : string) :
  ((exists nd, normalize schemaMap input schemaKey = Ok nd)
   \/ (exists e, normalize schemaMap input schemaKey = Throw e))
  /\ forall fuel,
       depth input < fuel ->
       normalize_fuel schemaMap fuel input schemaKey
       = normalize schemaMap input schemaKey.
Proof.
  split.
  - pose proof (normalize_not_diverge schemaMap input schemaKey) as H.
    destruct (normalize schemaMap input schemaKey); eauto. now elim H.
  - intros fuel Hf. now apply normalize_fuel_stable.
Qed.

Lemma mapM_not_diverge {A B} (f : A -> outcome B) l :
  (forall x, f x <> Diverge) -> mapM f l <> Diverge.
Proof.
  intros Hf. induction l as [|x l IH]; simpl; [discriminate|].
  apply bind_not_diverge; [apply Hf|].
  intros y _. apply bind_not_diverge; [exact IH|]. intros; discriminate.
Qed.

Lemma denormalize_relationships_not_diverge recur rels :
  (forall k cfg id, In (k, cfg) rels -> recur id (type cfg) <> Diverge) ->
  forall de, denormalize_relationships recur rels de <> Diverge.
Proof.
  induction rels as [|[key cfg] rels IH]; intros Hr de; simpl;
    [discriminate|].
  assert (Hrest : forall de', denormalize_relationships recur rels de'
                              <> Diverge)
    by (apply IH; intros; eapply Hr; right; eauto).
  destruct (is_undefined (get de key)); auto.
  destruct (isArray cfg).
  - destruct (get de key); auto.
    apply bind_not_diverge; [|intros; apply Hrest].
    apply mapM_not_diverge. intros id. apply (Hr key). now left.
  - destruct (is_null (get de key)); auto.
    apply bind_not_diverge; [|intros; apply Hrest].
    apply (Hr key). now left.
Qed.

Lemma denormalizeSingle_acyclic schemaMap n :
  forall ty,
    acyclic_from schemaMap n ty = true ->
    forall id ents, denormalizeSingle schemaMap n id ty ents <> Diverge.
Proof.
  induction n as [|n IH]; intros ty Ha id ents; [discriminate|].
  simpl in *. destruct (entity_at ents ty (to_string id)); [|discriminate].
  destruct (AList.lookup schemaMap ty) as [schema|]; [|discriminate].
  rewrite forallb_forall in Ha.
  destruct (relationships schema) as [rels|] eqn:Hr; [|discriminate].
  apply bind_not_diverge; [|intros; discriminate].
  apply denormalize_relationships_not_diverge.
  intros k cfg id' Hin. apply IH.
  apply (Ha (k, cfg)). unfold relationships_of. now rewrite Hr.
Qed.

(** X7. When following relationships from a type leads through fewer than
    [n] types in a row, denormalize of that type returns or throws within
    [n] nested calls, whatever the collections hold. *)
Theorem denormalize_terminates_when_acyclic (schemaMap : EntitySchemaMap)
    (n : nat) (entityType : string) :
  acyclic_from schemaMap n entityType = true ->
  forall id ents,
    ((exists v, denormalize schemaMap n id entityType ents = Ok v)
     \/ (exists e, denormalize schemaMap n id entityType ents = Throw e))
    /\ forall fuel,
         n <= fuel ->
         denormalize schemaMap fuel id entityType ents
         = denormalize schemaMap n id entityType ents.
Proof.
  intros Ha id ents.
  assert (Hnd : denormalize schemaMap n id entityType ents <> Diverge).
  { destruct id; simpl; try (now apply denormalizeSingle_acyclic).
    apply bind_not_diverge; [|intros; discriminate].
    apply mapM_not_diverge. intros x. now apply denormalizeSingle_acyclic. }
  split.
  - destruct (denormalize schemaMap n id entityType ents); eauto.
    now elim Hnd.
  - intros fuel Hle. now apply denormalize_fuel.
Qed.

Lemma denormalize_terminates_when_acyclic_witness :
  acyclic_from blogSchemas 3 "posts" = true
  /\ forall fuel,
       3 <= fuel ->
       denormalize blogSchemas fuel (VStr "post1") "posts" []
       = denormalize blogSchemas 3 (VStr "post1") "posts" [].
Proof.
  split; [reflexivity|].
  exact (proj2 (denormalize_terminates_when_acyclic blogSchemas 3 "posts"
                  eq_refl (VStr "post1") [])).
Defined.

(** ** Entities that refer to themselves *)

Lemma mapM_ok_in {A B} (f : A -> outcome B) l rs x :
  mapM f l = Ok rs -> In x l -> exists y, f x = Ok y.
Proof.
  revert rs. induction l as [|a l IH]; intros rs H Hin; [now elim Hin|].
  simpl in H. bind_inv H. bind_inv H. destruct Hin as [<-|Hin]; eauto.
Qed.

(** X8. denormalize has no guard against cycles: for a schema map with
    ordinary names, when an entity stored under an ordinary identifier
    holds, under a relationship to its own type, an ordinary identifier
    that gives its own key, no denormalization of that identifier ever
    returns a value. *)
Theorem denormalize_self_reference (schemaMap : EntitySchemaMap)
    (ents : Entities) (entityType : string) (id : value) (e : record)
    (schema : EntitySchema) (rels : AList.t RelationshipConfig)
    (key : string) (cfg : RelationshipConfig) :
  ordinary_schemas schemaMap = true ->
  ordinary_id id = true ->
  entity_at ents entityType (to_string id) = Some e ->
  AList.lookup schemaMap entityType = Some schema ->
  relationships schema = Some rels ->
  NoDup (AList.keys rels) ->
  In (key, cfg) rels ->
  type cfg = entityType ->
  (if isArray cfg then
     exists ids r,
       get e key = VArr ids /\ In r ids /\ ordinary_id r = true
       /\ to_string r = to_string id
   else
     ordinary_id (get e key) = true
     /\ to_string (get e key) = to_string id) ->
  forall fuel v,
    denormalize schemaMap fuel id entityType ents <> Ok v.
Proof.
  intros _ Hoid He Hs Hr Hnd Hin Hty Href.
  assert (Hna : forall ids, id <> VArr ids)
    by (intros ids E; rewrite E in Hoid; discriminate).
  assert (Hsingle : forall fuel id' v,
             to_string id' = to_string id ->
             denormalizeSingle schemaMap fuel id' entityType ents <> Ok v).
  { induction fuel as [|fuel IH]; intros id' v Hid H; [discriminate|].
    simpl in H. rewrite Hid, He, Hs, Hr in H. bind_inv H.
    apply denormalize_relationships_ok in Hc; auto.
    destruct Hc as (_ & _ & Hsome).
    destruct (Hsome key cfg Hin) as (x & Hx & _).
    unfold denormalize_field in Hx. rewrite Hty in Hx.
    destruct (isArray cfg).
    - destruct Href as (ids & r & Hg & Hr_in & _ & Hr_id).
      rewrite Hg in Hx. simpl in Hx. bind_inv Hx.
      destruct (mapM_ok_in _ _ _ r Hc Hr_in) as (y & Hy).
      exact (IH r y Hr_id Hy).
    - destruct Href as (Hord & Hself).
      destruct (get e key) eqn:Hg; try discriminate Hord; simpl in Hx;
        bind_inv Hx; exact (IH _ _ Hself Hc). }
  intros fuel v. rewrite denormalize_single by auto.
  now apply Hsingle.
Qed.

Lemma denormalize_self_reference_witness :
  normalize nodeSchemas nodeInItself "nodes"
  = Ok {| entities :=
            [("nodes", [("n1", [("id", VStr "n1"); ("parent", VStr "n1")])])];
          result := VStr "n1" |}
  /\ forall fuel v,
       denormalize nodeSchemas fuel (VStr "n1") "nodes"
         [("nodes", [("n1", [("id", VStr "n1"); ("parent", VStr "n1")])])]
       <> Ok v.
Proof.
  split; [reflexivity|].
  apply (denormalize_self_reference nodeSchemas
           [("nodes", [("n1", [("id", VStr "n1"); ("parent", VStr "n1")])])]
           "nodes" (VStr "n1") [("id", VStr "n1"); ("parent", VStr "n1")]
           (createEntitySchema (Some "id") (Some [("parent", hasOne "nodes")]))
           [("parent", hasOne "nodes")] "parent" (hasOne "nodes")).
  - reflexivity.
  - reflexivity.
  - reflexivity.
  - reflexivity.
  - reflexivity.
  - simpl. constructor; [intros []|constructor].
  - now left.
  - reflexivity.
  - simpl. split; reflexivity.
Defined.

(** ** getDenormalizedEntities *)

Lemma denormalizeSingle_present schemaMap fuel id ty ents e v :
  entity_at ents ty (to_string id) = Some e ->
  denormalizeSingle schemaMap fuel id ty ents = Ok v ->
  exists r, v = VObj r.
Proof.
  intros He H. destruct fuel as [|fuel]; [discriminate|].
  simpl in H. rewrite He in H.
  destruct (AList.lookup schemaMap ty) as [schema|]; [|discriminate].
  destruct (relationships schema).
  - bind_inv H. injection H as <-. eauto.
  - injection H as <-. eauto.
Qed.

Lemma views_of_stored_keys schemaMap fuel ty ents keys views :
  (forall k, In k keys -> entity_at ents ty k <> None) ->
  Forall2 (fun k v => denormalizeSingle schemaMap fuel (VStr k) ty ents = Ok v)
          keys views ->
  filter truthy views = views.
Proof.
  intros Hk H. induction H as [|k v keys views Hv _ IH]; simpl; auto.
  destruct (entity_at ents ty k) as [e|] eqn:He;
    [|now elim (Hk k (or_introl eq_refl))].
  destruct (denormalizeSingle_present schemaMap fuel (VStr k) ty ents e v
              He Hv) as (r & ->).
  simpl. f_equal. apply IH. intros; apply Hk; now right.
Qed.

Lemma Forall2_map_l {A B C} (f : A -> B) (P : B -> C -> Prop) l l' :
  Forall2 P (map f l) l' <-> Forall2 (fun x y => P (f x) y) l l'.
Proof.
  revert l'. induction l as [|x l IH]; intros l'; simpl.
  - split; intros H; inversion H; constructor.
  - split; intros H; inversion H; subst; constructor; auto; now apply IH.
Qed.

(** X9. For a schema map and a store with ordinary names and references
    and an ordinary type name: getDenormalizedEntities returns the empty
    list for a type without collection, and otherwise, when no key of the
    collection is the decimal form of a natural number (such keys are
    listed first, in ascending order), one denormalized entity for every
    stored identifier of the type, in the order of the collection: none is
    filtered out. *)
Theorem getDenormalizedEntities_all (schemas : EntitySchemaMap)
    (st : NormalizationState) (entityType : string) :
  ordinary_schemas schemas = true ->
  ordinary_store schemas (st_entities st) = true ->
  ordinary_name entityType = true ->
  (AList.lookup (st_entities st) entityType = None ->
   forall fuel,
     getDenormalizedEntities schemas fuel st entityType = Ok (VArr []))
  /\ (forall m fuel views,
         AList.lookup (st_entities st) entityType = Some m ->
         insertion_ordered m = true ->
         Forall2 (fun k v =>
                    getDenormalizedEntity schemas fuel st entityType (VStr k)
                    = Ok v)
                 (AList.keys m) views ->
         getDenormalizedEntities schemas fuel st entityType = Ok (VArr views))
  /\ (forall m fuel out,
         AList.lookup (st_entities st) entityType = Some m ->
         insertion_ordered m = true ->
         getDenormalizedEntities schemas fuel st entityType = Ok out ->
         exists views,
           out = VArr views
           /\ Forall2 (fun k v =>
                         getDenormalizedEntity schemas fuel st entityType
                                               (VStr k) = Ok v)
                      (AList.keys m) views).
Proof.
  intros _ _ _. unfold getDenormalizedEntities, getDenormalizedEntity.
  assert (Hstored : forall m,
             AList.lookup (st_entities st) entityType = Some m ->
             forall k, In k (AList.keys m) ->
                       entity_at (st_entities st) entityType k <> None).
  { intros m Hm k Hk. unfold entity_at. rewrite Hm.
    intros Hn. now apply AListFacts.lookup_none_keys in Hn. }
  split; [|split].
  - now intros ->.
  - intros m fuel views Hm _ Hv. rewrite Hm. simpl.
    pose proof (views_of_stored_keys schemas fuel entityType (st_entities st)
                  (AList.keys m) views (Hstored m Hm) Hv) as Hf.
    assert (Hmap : mapM (fun id => denormalizeSingle schemas fuel id entityType
                                                     (st_entities st))
                        (map VStr (AList.keys m)) = Ok views)
      by (apply mapM_Forall2, Forall2_map_l; exact Hv).
    rewrite Hmap. simpl. now rewrite Hf.
  - intros m fuel out Hm _ H. rewrite Hm in H. simpl in H. bind_inv H.
    injection H as <-.
    apply mapM_Forall2, Forall2_map_l in Hc.
    exists a. split; [|exact Hc]. f_equal.
    eapply views_of_stored_keys; [exact (Hstored m Hm)|exact Hc].
Qed.

(** In the loaded sample blog, the three users are listed in the order in
    which normalize met them, and a type without collection gives the
    empty list. *)
Lemma getDenormalizedEntities_all_witness :
  let st := addNormalizedData blogSchemas (initialState blogSchemas)
                              sampleBlogData "posts" in
  getDenormalizedEntities blogSchemas 1 st "ghosts" = Ok (VArr [])
  /\ getDenormalizedEntities blogSchemas 1 st "users"
     = Ok (VArr [user "user1" "User 1"; user "user2" "User 2";
                 user "user3" "User 3"]).
Proof.
  intros st.
  destruct (getDenormalizedEntities_all blogSchemas st "ghosts"
              eq_refl eq_refl eq_refl) as (Hnone & _).
  destruct (getDenormalizedEntities_all blogSchemas st "users"
              eq_refl eq_refl eq_refl) as (_ & Hall & _).
  split; [exact (Hnone eq_refl 1)|].
  apply (Hall [("user1", [("username", VStr "user1"); ("name", VStr "User 1")]);
               ("user2", [("username", VStr "user2"); ("name", VStr "User 2")]);
               ("user3", [("username", VStr "user3"); ("name", VStr "User 3")])]
              1
              [user "user1" "User 1"; user "user2" "User 2";
               user "user3" "User 3"]).
  - reflexivity.
  - reflexivity.
  - repeat constructor.
Defined.

(** ** An update shows in every view that embeds the entity *)

Section Replacement.
Variable schemaMap : EntitySchemaMap.
Hypothesis Hwf : wf_schemas schemaMap = true.
Variables ents ents' : Entities.
Variables (uty ukey : string) (old new : record).
Hypothesis Hplain :
  forall schema,
    AList.lookup schemaMap uty = Some schema -> relationships_of schema = [].
Hypothesis Hold : entity_at ents uty ukey = Some old.
Hypothesis Hnew : entity_at ents' uty ukey = Some new.
Hypothesis Hframe :
  forall ty k, (ty, k) <> (uty, ukey) ->
               entity_at ents' ty k = entity_at ents ty k.

Lemma denormalizeSingle_replaced fuel id :
  to_string id = ukey ->
  denormalizeSingle schemaMap fuel id uty ents' <> Diverge ->
  AList.lookup schemaMap uty <> None ->
  denormalizeSingle schemaMap fuel id uty ents' = Ok (VObj new).
Proof.
  intros Hid Hnd Hs. destruct fuel as [|fuel]; [now elim Hnd|].
  simpl. rewrite Hid, Hnew.
  destruct (AList.lookup schemaMap uty) as [schema|] eqn:Hl; [|now elim Hs].
  rewrite denormalize_relationships_of, (Hplain schema eq_refl). reflexivity.
Qed.

(** Whatever could be denormalized before the entity was replaced can
    still be denormalized afterwards. *)
Lemma denormalizeSingle_after_replacement fuel :
  forall id ty v,
    denormalizeSingle schemaMap fuel id ty ents = Ok v ->
    exists v', denormalizeSingle schemaMap fuel id ty ents' = Ok v'.
Proof.
  induction fuel as [|fuel IH]; intros id ty v H; [discriminate|].
  simpl in *.
  destruct (String.eqb_spec ty uty) as [->|Hty];
    [destruct (String.eqb_spec (to_string id) ukey) as [Hk|Hk]|].
  - rewrite Hk, Hold in H. rewrite Hk, Hnew.
    destruct (AList.lookup schemaMap uty) as [schema|] eqn:Hl;
      [|discriminate].
    rewrite denormalize_relationships_of, (Hplain schema eq_refl). simpl. eauto.
  - rewrite (Hframe uty (to_string id)) by congruence.
    destruct (entity_at ents uty (to_string id)) as [e|]; [|eauto].
    destruct (AList.lookup schemaMap uty) as [schema|] eqn:Hl;
      [|discriminate].
    rewrite denormalize_relationships_of, (Hplain schema eq_refl). simpl. eauto.
  - rewrite (Hframe ty (to_string id)) by congruence.
    destruct (entity_at ents ty (to_string id)) as [e|]; [|eauto].
    destruct (AList.lookup schemaMap ty) as [schema|] eqn:Hl;
      [|discriminate].
    rewrite denormalize_relationships_of in *.
    bind_inv H.
    assert (Hnd : NoDup (AList.keys (relationships_of schema)))
      by (eapply wf_schemas_nodup; eauto).
    apply denormalize_relationships_ok in Hc; auto.
    destruct Hc as (_ & _ & Hsome).
    destruct (@denormalize_relationships_complete
                (fun id0 ty0 => denormalizeSingle schemaMap fuel id0 ty0 ents')
                (relationships_of schema) Hnd e) as (de' & Hde).
    + intros k cfg Hin. destruct (Hsome _ _ Hin) as (x & Hx & _).
      eapply denormalize_field_transfer; [|exact Hx]. apply IH.
    + rewrite Hde. simpl. eauto.
Qed.
End Replacement.

Lemma updateEntity_stored st entityType id changes e :
  entity_at (st_entities st) entityType (to_string id) = Some e ->
  exists st',
    updateEntity st entityType id changes
    = (Success (VObj (AList.spread e changes)), st')
    /\ entity_at (st_entities st') entityType (to_string id)
       = Some (AList.spread e changes)
    /\ forall ty k, (ty, k) <> (entityType, to_string id) ->
                    entity_at (st_entities st') ty k
                    = entity_at (st_entities st) ty k.
Proof.
  unfold updateEntity, entity_at. intros He.
  destruct (AList.lookup (st_entities st) entityType) as [m|] eqn:Hm;
    [|discriminate].
  rewrite He. eexists. split; [reflexivity|]. simpl. split.
  - now rewrite !AListFacts.lookup_set_eq.
  - intros ty k Hne. destruct (String.eqb_spec entityType ty).
    + subst. rewrite AListFacts.lookup_set_eq, Hm.
      apply AListFacts.lookup_set_neq. congruence.
    + now rewrite AListFacts.lookup_set_neq.
Qed.

Lemma denormalize_field_hasOne recur ty v x :
  v <> VUndef -> v <> VNull ->
  denormalize_field recur (hasOne ty) v = Ok x ->
  exists r, recur v ty = Ok r /\ x = Some r.
Proof.
  intros Hu Hn H. unfold denormalize_field in H. simpl in H.
  destruct v; try congruence; simpl in H; bind_inv H; injection H as <-;
    eauto.
Qed.

(** X10. For a schema map and a store with ordinary names and references
    and ordinary identifiers: updating an entity of a type without
    relationships shows in the denormalized view of every entity that
    refers to it through a singular relationship: a view that could be
    computed before the update can be computed after it and embeds the
    updated entity. *)
Theorem updateEntity_propagates (schemas : EntitySchemaMap)
    (st : NormalizationState) (entityType : string) (id : value)
    (changes old : record) (pty : string) (pid : value) (parent : record)
    (pschema : EntitySchema) (key : string) (fuel : nat) (view : value) :
  wf_schemas schemas = true ->
  ordinary_schemas schemas = true ->
  ordinary_store schemas (st_entities st) = true ->
  ordinary_id id = true ->
  entity_at (st_entities st) entityType (to_string id) = Some old ->
  (forall schema, AList.lookup schemas entityType = Some schema ->
                  relationships_of schema = []) ->
  ordinary_id pid = true ->
  (pty, to_string pid) <> (entityType, to_string id) ->
  entity_at (st_entities st) pty (to_string pid) = Some parent ->
  AList.lookup schemas pty = Some pschema ->
  In (key, hasOne entityType) (relationships_of pschema) ->
  ordinary_id (get parent key) = true ->
  to_string (get parent key) = to_string id ->
  getDenormalizedEntity schemas (S fuel) st pty pid = Ok view ->
  exists r,
    getDenormalizedEntity schemas (S fuel)
      (snd (updateEntity st entityType id changes)) pty pid = Ok (VObj r)
    /\ AList.lookup r key = Some (VObj (AList.spread old changes)).
Proof.
  intros Hwf _ _ _ Hold Hplain Hopid Hne Hp Hs Hin Hokey Hkey Hview.
  assert (Hpid : forall l, pid <> VArr l)
    by (intros l E; rewrite E in Hopid; discriminate).
  assert (Hu : get parent key <> VUndef)
    by (intros E; rewrite E in Hokey; discriminate).
  assert (Hn : get parent key <> VNull)
    by (intros E; rewrite E in Hokey; discriminate).
  destruct (updateEntity_stored st entityType id changes old Hold)
    as (st' & Hup & Hnew & Hframe).
  rewrite Hup. simpl.
  unfold getDenormalizedEntity in *. rewrite denormalize_single in * by auto.
  destruct (denormalizeSingle_after_replacement schemas Hwf
              (st_entities st) (st_entities st') entityType (to_string id)
              old (AList.spread old changes) Hplain Hold Hnew Hframe
              (S fuel) pid pty view Hview) as (v' & Hv').
  rewrite Hv'. simpl in Hv'.
  rewrite (Hframe pty (to_string pid) Hne), Hp, Hs in Hv'.
  rewrite denormalize_relationships_of in Hv'.
  bind_inv Hv'. injection Hv' as <-. exists a. split; [reflexivity|].
  assert (Hnd : NoDup (AList.keys (relationships_of pschema)))
    by (eapply wf_schemas_nodup; eauto).
  apply denormalize_relationships_ok in Hc; auto.
  destruct Hc as (_ & _ & Hsome).
  destruct (Hsome key _ Hin) as (x & Hx & Hlx).
  apply denormalize_field_hasOne in Hx; auto.
  destruct Hx as (r & Hr & ->). rewrite Hlx. f_equal.
  assert (Hr' : denormalizeSingle schemas fuel (get parent key) entityType
                  (st_entities st') = Ok (VObj (AList.spread old changes))).
  { apply (denormalizeSingle_replaced schemas (st_entities st') entityType
             (to_string id) (AList.spread old changes) Hplain Hnew);
      [exact Hkey | rewrite Hr; discriminate |].
    destruct fuel; [discriminate|]. simpl in Hr. rewrite Hkey, Hnew in Hr.
    destruct (AList.lookup schemas entityType); discriminate. }
  congruence.
Qed.

Lemma updateEntity_propagates_witness :
  exists r,
    getDenormalizedEntity blogSchemas 3
      (snd (updateEntity
              (addNormalizedData blogSchemas (initialState blogSchemas)
                                 sampleBlogData "posts")
              "users" (VStr "user1") [("name", VStr "Renamed")]))
      "posts" (VStr "post1") = Ok (VObj r)
    /\ AList.lookup r "author"
       = Some (VObj (AList.spread
                       [("username", VStr "user1"); ("name", VStr "User 1")]
                       [("name", VStr "Renamed")])).
Proof.
  refine (updateEntity_propagates blogSchemas
            (addNormalizedData blogSchemas (initialState blogSchemas)
                               sampleBlogData "posts")
            "users" (VStr "user1") [("name", VStr "Renamed")]
            [("username", VStr "user1"); ("name", VStr "User 1")]
            "posts" (VStr "post1")
            [("id", VStr "post1"); ("author", VStr "user1");
             ("body", VStr "This is the first post content.");
             ("comments", VArr [VStr "comment1"; VStr "comment2"])]
            (createEntitySchema (Some "id")
               (Some [("author", hasOne "users");
                      ("comments", hasMany "comments")]))
            "author" 2 samplePost1 eq_refl eq_refl eq_refl eq_refl
            _ _ eq_refl _ _ eq_refl _ eq_refl eq_refl _).
  - vm_compute. reflexivity.
  - intros schema H. vm_compute in H. injection H as <-. reflexivity.
  - discriminate.
  - vm_compute. reflexivity.
  - simpl. left. reflexivity.
  - vm_compute. reflexivity.
Defined.

(** ** blog.normalizers.ts *)

Lemma normalize_fuel_more schemaMap input schemaKey n :
  normalize schemaMap input schemaKey
  = normalize_fuel schemaMap (n + S (depth input)) input schemaKey.
Proof. symmetry. apply normalize_fuel_stable. lia. Qed.

(** X11. normalizeBlogData of blog.normalizers.ts returns data for the
    empty list only: it returns three empty arrays for no posts, and for
    every other list of nested posts it throws the missing-identifier error
    of the users, because the authors it hands to normalize are usernames
    and not objects. *)
Theorem normalizeBlogData_throws (blogPosts : list NestedPost) :
  BlogNormalizers.normalizeBlogData blogPosts
  = match blogPosts with
    | [] => Ok {| blog_users := []; blog_comments := []; blog_posts := [] |}
    | _ :: _ => Throw (MissingIdentifier "username" "users")
    end.
Proof.
  unfold BlogNormalizers.normalizeBlogData.
  destruct blogPosts as [|p ps]; [reflexivity|].
  rewrite (normalize_fuel_more BlogNormalizers.schemaMap _ "posts" 2).
  reflexivity.
Qed.

(** ** utils/normalization.utils.ts *)

Lemma collection_of_ensure ents ty ty' :
  collection_of (ensure_collection ents ty) ty' = collection_of ents ty'.
Proof.
  unfold collection_of, ensure_collection.
  destruct (AList.lookup ents ty) eqn:Hl; auto.
  destruct (String.eqb_spec ty ty') as [<-|Hne].
  - now rewrite AListFacts.lookup_set_eq, Hl.
  - now rewrite AListFacts.lookup_set_neq.
Qed.

Lemma collection_of_store ents ty k r ty' :
  collection_of (store_entity ents ty k r) ty'
  = if String.eqb ty ty' then AList.set (collection_of ents ty) k r
    else collection_of ents ty'.
Proof.
  unfold collection_of, store_entity.
  destruct (String.eqb_spec ty ty') as [<-|Hne].
  - destruct (AList.lookup ents ty); now rewrite AListFacts.lookup_set_eq.
  - destruct (AList.lookup ents ty); now rewrite AListFacts.lookup_set_neq.
Qed.

Lemma process_author n a ents :
  processEntity blogSchemas (S n) (author_value a) "users"
                (AList.lookup blogSchemas "users") ents
  = Ok (VStr (author_username a),
        store_entity (ensure_collection ents "users") "users"
                     (author_username a) (own_props (author_value a))).
Proof. reflexivity. Qed.

Lemma process_comment n c ents :
  processEntity blogSchemas (S (S n)) (comment_value c) "comments"
                (AList.lookup blogSchemas "comments") ents
  = Ok (VStr (comment_id c),
        store_entity
          (store_entity
             (ensure_collection (ensure_collection ents "comments") "users")
             "users" (author_username (comment_author c))
             (own_props (author_value (comment_author c))))
          "comments" (comment_id c)
          (own_props (BlogNormalizers.transformComment c))).
Proof. reflexivity. Qed.

Lemma process_post n p ents :
  processEntity blogSchemas (S (S (S n))) (post_value p) "posts"
                (AList.lookup blogSchemas "posts") ents
  = ('(ids, ents2) <-
       mapS (fun item =>
               processEntity blogSchemas (S (S n)) item "comments"
                             (AList.lookup blogSchemas "comments"))
            (map comment_value (post_comments p))
            (store_entity
               (ensure_collection (ensure_collection ents "posts") "users")
               "users" (author_username (post_author p))
               (own_props (author_value (post_author p)))) ;;
     Ok (VStr (post_id p),
         store_entity ents2 "posts" (post_id p)
           [("id", VStr (post_id p));
            ("author", VStr (author_username (post_author p)));
            ("body", VStr (post_body p));
            ("comments", VArr ids)])).
Proof.
  change (processEntity blogSchemas (S (S (S n))))
    with (fun entity entityType schema ents =>
            match schema with
            | None => Throw TypeError
            | Some schema =>
                let idKey := id_key schema in
                entityId <- get_prop entity idKey ;;
                if is_undefined entityId then
                  Throw (MissingIdentifier idKey entityType)
                else
                  let ents0 := ensure_collection ents entityType in
                  let processedEntity := own_props entity in
                  '(processedEntity, ents1) <-
                     match relationships schema with
                     | Some rels =>
                         process_relationships blogSchemas
                           (processEntity blogSchemas (S (S n))) rels
                           processedEntity ents0
                     | None => Ok (processedEntity, ents0)
                     end ;;
                  Ok (entityId,
                      store_entity ents1 entityType (to_string entityId)
                                   processedEntity)
            end).
  cbn -[mapS store_entity ensure_collection processEntity].
  change (processEntity blogSchemas (S (S n)) (author_value (post_author p))
            "users" (Some (createEntitySchema (Some "username") None))
            (ensure_collection ents "posts"))
    with (Ok (VStr (author_username (post_author p)),
              store_entity
                (ensure_collection (ensure_collection ents "posts") "users")
                "users" (author_username (post_author p))
                (own_props (author_value (post_author p))))).
  cbn [bind].
  destruct (mapS _ _ _) as [[ids ents2]| |]; reflexivity.
Qed.

Section HandWritten.
Variable authors : list NestedAuthor.
Hypothesis Hcons : consistent_authors authors.

Lemma add_author_set users a :
  known_authors authors users -> In a authors ->
  NormalizationUtils.add_author users a
  = AList.set users (author_username a) (own_props (author_value a))
  /\ known_authors authors
       (AList.set users (author_username a) (own_props (author_value a))).
Proof.
  intros Hk Ha. split.
  - unfold NormalizationUtils.add_author.
    destruct (AList.lookup users (author_username a)) as [r|] eqn:Hl;
      [|reflexivity].
    destruct (Hk _ _ Hl) as (b & Hb & Hu & ->).
    pose proof (Hcons _ _ Hb Ha Hu) as Hn.
    symmetry. apply set_same. rewrite Hl. unfold author_value, own_props.
    now rewrite Hn, Hu.
  - intros k r Hl.
    destruct (String.eqb_spec (author_username a) k) as [<-|Hne].
    + rewrite AListFacts.lookup_set_eq in Hl. injection Hl as <-. eauto.
    + rewrite AListFacts.lookup_set_neq in Hl by auto. eauto.
Qed.

Lemma comments_loop n cs :
  forall ents ids,
    known_authors authors (collection_of ents "users") ->
    (forall c, In c cs -> In (comment_author c) authors) ->
    exists ents',
      mapS (fun item =>
              processEntity blogSchemas (S (S n)) item "comments"
                            (AList.lookup blogSchemas "comments"))
           (map comment_value cs) ents
      = Ok (map (fun c => VStr (comment_id c)) cs, ents')
      /\ fold_left NormalizationUtils.add_comment cs
           (collection_of ents "users", collection_of ents "comments", ids)
         = (collection_of ents' "users", collection_of ents' "comments",
            ids ++ map comment_id cs)
      /\ collection_of ents' "posts" = collection_of ents "posts"
      /\ known_authors authors (collection_of ents' "users").
Proof.
  induction cs as [|c cs IH]; intros ents ids Hk Hin.
  - exists ents. simpl. now rewrite app_nil_r.
  - cbn [map mapS]. rewrite process_comment. cbn [bind].
    destruct (add_author_set (collection_of ents "users") (comment_author c)
                Hk (Hin c (or_introl eq_refl))) as [Hadd Hk'].
    set (ents1 := store_entity _ "comments" _ _).
    assert (Hu : collection_of ents1 "users"
                 = AList.set (collection_of ents "users")
                     (author_username (comment_author c))
                     (own_props (author_value (comment_author c)))).
    { unfold ents1. rewrite !collection_of_store, !collection_of_ensure.
      reflexivity. }
    assert (Hc : collection_of ents1 "comments"
                 = AList.set (collection_of ents "comments") (comment_id c)
                     (own_props (BlogNormalizers.transformComment c))).
    { unfold ents1. rewrite !collection_of_store, !collection_of_ensure.
      reflexivity. }
    assert (Hp : collection_of ents1 "posts" = collection_of ents "posts").
    { unfold ents1. rewrite !collection_of_store, !collection_of_ensure.
      reflexivity. }
    destruct (IH ents1 (ids ++ [comment_id c])) as (ents' & Hm & Hf & Hp' & Hk'').
    + now rewrite Hu.
    + intros c' Hc'. apply Hin. now right.
    + exists ents'. rewrite Hm. cbn [bind]. split; [reflexivity|].
      split; [|split; [congruence|assumption]].
      cbn [fold_left map].
      replace (NormalizationUtils.add_comment
                 (collection_of ents "users", collection_of ents "comments",
                  ids) c)
        with (collection_of ents1 "users", collection_of ents1 "comments",
              ids ++ [comment_id c]).
      * rewrite Hf, <- app_assoc. reflexivity.
      * rewrite Hu, Hc. unfold NormalizationUtils.add_comment.
        rewrite Hadd. reflexivity.
Qed.

Lemma posts_loop n ps :
  forall ents,
    known_authors authors (collection_of ents "users") ->
    (forall a, In a (authors_of ps) -> In a authors) ->
    exists ents',
      mapS (fun item =>
              processEntity blogSchemas (S (S (S n))) item "posts"
                            (AList.lookup blogSchemas "posts"))
           (map post_value ps) ents
      = Ok (map (fun p => VStr (post_id p)) ps, ents')
      /\ fold_left NormalizationUtils.add_post ps
           (collection_of ents "users", collection_of ents "comments",
            collection_of ents "posts")
         = (collection_of ents' "users", collection_of ents' "comments",
            collection_of ents' "posts").
Proof.
  induction ps as [|p ps IH]; intros ents Hk Hin.
  - exists ents. split; reflexivity.
  - cbn [map mapS]. rewrite process_post.
    assert (Ha : In (post_author p) authors)
      by (apply Hin; simpl; now left).
    destruct (add_author_set (collection_of ents "users") (post_author p)
                Hk Ha) as [Hadd Hk'].
    set (ents1 := store_entity _ "users" _ _).
    assert (Hu : collection_of ents1 "users"
                 = AList.set (collection_of ents "users")
                     (author_username (post_author p))
                     (own_props (author_value (post_author p)))).
    { unfold ents1. rewrite !collection_of_store, !collection_of_ensure.
      reflexivity. }
    assert (Hc : collection_of ents1 "comments" = collection_of ents "comments").
    { unfold ents1. rewrite !collection_of_store, !collection_of_ensure.
      reflexivity. }
    assert (Hp : collection_of ents1 "posts" = collection_of ents "posts").
    { unfold ents1. rewrite !collection_of_store, !collection_of_ensure.
      reflexivity. }
    destruct (comments_loop n (post_comments p) ents1 [])
      as (ents2 & Hm & Hf & Hp2 & Hk2).
    + now rewrite Hu.
    + intros c Hc'. apply Hin. simpl. right. apply in_or_app. left.
      now apply in_map.
    + rewrite Hm. cbn [bind].
      set (ents3 := store_entity ents2 "posts" _ _).
      destruct (IH ents3) as (ents' & Hm' & Hf').
      * unfold ents3. now rewrite collection_of_store.
      * intros a Ha'. apply Hin. simpl. right. apply in_or_app. now right.
      * exists ents'. rewrite Hm'. cbn [bind]. split; [reflexivity|].
        cbn [fold_left map].
        replace (NormalizationUtils.add_post
                   (collection_of ents "users", collection_of ents "comments",
                    collection_of ents "posts") p)
          with (collection_of ents3 "users", collection_of ents3 "comments",
                collection_of ents3 "posts"); [exact Hf'|].
        unfold NormalizationUtils.add_post.
        rewrite Hadd, <- Hu, <- Hc. unfold EntityMap in *. rewrite Hf.
        unfold ents3. rewrite !collection_of_store. simpl String.eqb.
        cbv iota. cbn [app]. rewrite Hp2, Hp, map_map. reflexivity.
Qed.
End HandWritten.


Lemma sampleBlogData_consistent_authors :
  consistent_authors (authors_of NormalizationUtils.sampleBlogData).
Proof.
  intros a b Ha Hb H. simpl in Ha, Hb.
  repeat (destruct Ha as [<-|Ha]; [|]); try contradiction;
    repeat (destruct Hb as [<-|Hb]; [|]); try contradiction;
    try reflexivity; discriminate H.
Qed.


(** *** The three collections, each as a fold of its own *)

Section FoldSet.
Variables (X A : Type) (key : X -> string) (val : X -> A).

Lemma set_in (m : AList.t A) k0 v0 k v :
  In (k, v) (AList.set m k0 v0) -> (k, v) = (k0, v0) \/ In (k, v) m.
Proof.
  induction m as [|[k' v'] m IH]; simpl.
  - intros [H|[]]. left. congruence.
  - destruct (String.eqb_spec k' k0) as [->|Hne]; simpl.
    + intros [H|H]; [left; congruence|right; now right].
    + intros [H|H]; [right; now left|].
      destruct (IH H); [now left|right; now right].
Qed.

Lemma fold_set_snoc l x (m : AList.t A) :
  fold_left (fun m x => AList.set m (key x) (val x)) (l ++ [x]) m
  = AList.set (fold_left (fun m x => AList.set m (key x) (val x)) l m)
              (key x) (val x).
Proof. now rewrite fold_left_app. Qed.

Lemma fold_set_in l :
  forall (m : AList.t A) k v,
    In (k, v) (fold_left (fun m x => AList.set m (key x) (val x)) l m) ->
    In (k, v) m \/ exists x, In x l /\ k = key x /\ v = val x.
Proof.
  induction l as [|x l IH] using rev_ind; intros m k v H.
  - now left.
  - rewrite fold_set_snoc in H. apply set_in in H. destruct H as [H|H].
    + injection H as -> ->. right. exists x. split; auto.
      apply in_or_app. right. now left.
    + destruct (IH _ _ _ H) as [Hm|(y & Hy & Hk & Hv)]; [now left|].
      right. exists y. split; auto. apply in_or_app. now left.
Qed.

Lemma fold_set_has l :
  forall (m : AList.t A) x,
    In x l ->
    exists x', In x' l /\ key x' = key x
               /\ AList.lookup
                    (fold_left (fun m x => AList.set m (key x) (val x)) l m)
                    (key x)
                  = Some (val x').
Proof.
  induction l as [|y l IH] using rev_ind; intros m x Hin; [destruct Hin|].
  rewrite fold_set_snoc.
  destruct (String.eqb_spec (key y) (key x)) as [He|Hne].
  - exists y. split; [apply in_or_app; right; now left|]. split; auto.
    rewrite <- He. apply AListFacts.lookup_set_eq.
  - apply in_app_or in Hin. destruct Hin as [Hin|[->|[]]]; [|congruence].
    destruct (IH m x Hin) as (x' & Hx' & Hk & Hl).
    exists x'. split; [apply in_or_app; now left|]. split; auto.
    now rewrite AListFacts.lookup_set_neq.
Qed.

Lemma fold_set_nodup l :
  forall m : AList.t A,
    NoDup (AList.keys m) ->
    NoDup (AList.keys
             (fold_left (fun m x => AList.set m (key x) (val x)) l m)).
Proof.
  induction l as [|x l IH]; simpl; auto.
  intros m H. apply IH. now apply NoDup_keys_set.
Qed.
End FoldSet.

Lemma add_author_lookup users a u :
  AList.lookup (NormalizationUtils.add_author users a) u
  = match AList.lookup users u with
    | Some r => Some r
    | None => if String.eqb (author_username a) u
              then Some (author_record a) else None
    end.
Proof.
  unfold NormalizationUtils.add_author.
  destruct (AList.lookup users (author_username a)) as [r|] eqn:Hl.
  - destruct (AList.lookup users u) eqn:Hu; auto.
    destruct (String.eqb_spec (author_username a) u); congruence.
  - destruct (String.eqb_spec (author_username a) u) as [<-|Hne].
    + now rewrite AListFacts.lookup_set_eq, Hl.
    + rewrite AListFacts.lookup_set_neq by auto.
      now destruct (AList.lookup users u).
Qed.

Lemma add_author_nodup users a :
  NoDup (AList.keys users) ->
  NoDup (AList.keys (NormalizationUtils.add_author users a)).
Proof.
  intros H. unfold NormalizationUtils.add_author.
  destruct (AList.lookup users (author_username a)); auto.
  now apply NoDup_keys_set.
Qed.

Lemma fold_add_author authors :
  forall users,
    NoDup (AList.keys users) ->
    NoDup (AList.keys
             (fold_left NormalizationUtils.add_author authors users))
    /\ forall u,
         AList.lookup (fold_left NormalizationUtils.add_author authors users)
                      u
         = match AList.lookup users u with
           | Some r => Some r
           | None => option_map author_record (first_author authors u)
           end.
Proof.
  induction authors as [|a authors IH]; intros users Hnd; simpl.
  - split; auto. intros u. now destruct (AList.lookup users u).
  - destruct (IH _ (add_author_nodup users a Hnd)) as [Hnd' Hl].
    split; auto. intros u. rewrite Hl, add_author_lookup.
    destruct (AList.lookup users u); auto.
    now destruct (String.eqb (author_username a) u).
Qed.

Lemma fold_add_comment cs :
  forall users comments ids,
    fold_left NormalizationUtils.add_comment cs (users, comments, ids)
    = (fold_left NormalizationUtils.add_author (map comment_author cs) users,
       fold_left (fun m c => AList.set m (comment_id c) (comment_record c))
                 cs comments,
       ids ++ map comment_id cs).
Proof.
  induction cs as [|c cs IH]; intros users comments ids; cbn [fold_left map].
  - now rewrite app_nil_r.
  - change (NormalizationUtils.add_comment (users, comments, ids) c)
      with (NormalizationUtils.add_author users (comment_author c),
            AList.set comments (comment_id c) (comment_record c),
            ids ++ [comment_id c]).
    rewrite IH, <- app_assoc. reflexivity.
Qed.

Lemma fold_add_post ps :
  forall users comments posts,
    fold_left NormalizationUtils.add_post ps (users, comments, posts)
    = (fold_left NormalizationUtils.add_author (authors_of ps) users,
       fold_left (fun m c => AList.set m (comment_id c) (comment_record c))
                 (flat_map post_comments ps) comments,
       fold_left (fun m p => AList.set m (post_id p) (post_record p))
                 ps posts).
Proof.
  induction ps as [|p ps IH]; intros users comments posts; auto.
  cbn [fold_left flat_map authors_of].
  replace (NormalizationUtils.add_post (users, comments, posts) p)
    with (fold_left NormalizationUtils.add_author
            (map comment_author (post_comments p))
            (NormalizationUtils.add_author users (post_author p)),
          fold_left (fun m c => AList.set m (comment_id c) (comment_record c))
                    (post_comments p) comments,
          AList.set posts (post_id p) (post_record p)).
  - rewrite IH, !fold_left_app. reflexivity.
  - unfold NormalizationUtils.add_post. rewrite fold_add_comment.
    reflexivity.
Qed.

Lemma collect_folds ps :
  NormalizationUtils.collect ps
  = (fold_left NormalizationUtils.add_author (authors_of ps) [],
     fold_left (fun m c => AList.set m (comment_id c) (comment_record c))
               (flat_map post_comments ps) [],
     fold_left (fun m p => AList.set m (post_id p) (post_record p)) ps []).
Proof. apply fold_add_post. Qed.

Lemma in_object_values {A} (m : AList.t A) v :
  In v (object_values m) <-> exists k, In (k, v) m.
Proof.
  unfold object_values. rewrite in_map_iff. split.
  - intros ([k v'] & <- & H). now exists k.
  - intros (k & H). now exists (k, v).
Qed.

Lemma NoDup_map_VStr l : NoDup l -> NoDup (map VStr l).
Proof.
  induction 1 as [|x l Hx Hnd IH]; simpl; constructor; auto.
  rewrite in_map_iff. intros (y & Hy & Hin). now injection Hy as ->.
Qed.

(** X13. On nested blog data whose usernames and identifiers are ordinary
    names, the users that the hand-written normalizeBlogData returns are
    the first authors of each username, the authors being taken post by
    post, the author of the post before the authors of its comments: a
    user object is returned exactly when it is built from the first author
    carrying its username, and no two returned users share a username. *)
Theorem normalizeBlogData_first_author_wins (blogPosts : list NestedPost) :
  ordinary_blog blogPosts = true ->
  let users := blog_users (NormalizationUtils.normalizeBlogData blogPosts) in
  NoDup (map (fun r => get r "username") users)
  /\ forall r,
       In r users
       <-> exists a,
             first_author (authors_of blogPosts) (author_username a) = Some a
             /\ r = author_record a.
Proof.
  intros _.
  unfold NormalizationUtils.normalizeBlogData. rewrite collect_folds.
  cbn [blog_users].
  destruct (fold_add_author (authors_of blogPosts) [] (NoDup_nil _))
    as [Hnd Hl].
  set (m := fold_left NormalizationUtils.add_author _ _) in *.
  assert (Hfirst : forall k r,
             In (k, r) m ->
             exists a, first_author (authors_of blogPosts) k = Some a
                       /\ author_username a = k /\ r = author_record a).
  { intros k r Hin. apply AListFacts.in_lookup in Hin; auto.
    rewrite Hl in Hin. simpl in Hin.
    destruct (first_author (authors_of blogPosts) k) as [a|] eqn:Hf;
      [|discriminate].
    injection Hin as <-. exists a. repeat split.
    apply find_some in Hf. now apply String.eqb_eq. }
  split.
  - assert (Hmap : map (fun r => get r "username") (object_values m)
                   = map VStr (AList.keys m)).
    { unfold object_values, AList.keys. rewrite !map_map.
      apply map_ext_in. intros [k r] Hin.
      destruct (Hfirst _ _ Hin) as (a & _ & <- & ->). reflexivity. }
    rewrite Hmap. now apply NoDup_map_VStr.
  - intros r. rewrite in_object_values. split.
    + intros (k & Hin). destruct (Hfirst _ _ Hin) as (a & Hf & <- & ->).
      eauto.
    + intros (a & Hf & ->). exists (author_username a).
      apply AListFacts.lookup_in. rewrite Hl. simpl. now rewrite Hf.
Qed.

(** The sample blog data: the returned users have pairwise distinct
    usernames and are the first authors of their usernames. *)
Lemma normalizeBlogData_first_author_wins_witness :
  ordinary_blog NormalizationUtils.sampleBlogData = true
  /\ NoDup (map (fun r => get r "username")
                (blog_users (NormalizationUtils.normalizeBlogData
                               NormalizationUtils.sampleBlogData)))
  /\ forall r,
       In r (blog_users (NormalizationUtils.normalizeBlogData
                           NormalizationUtils.sampleBlogData))
       <-> exists a,
             first_author (authors_of NormalizationUtils.sampleBlogData)
                          (author_username a) = Some a
             /\ r = author_record a.
Proof.
  split; [reflexivity|].
  exact (normalizeBlogData_first_author_wins
           NormalizationUtils.sampleBlogData eq_refl).
Defined.

(** X14. On nested blog data whose usernames and identifiers are ordinary
    names, every reference in the output of the hand-written
    normalizeBlogData resolves within that output: the author of every
    returned post and of every returned comment is the username of a
    returned user, and the comments field of every returned post is an
    array of identifiers of returned comments. *)
Theorem normalizeBlogData_references_resolve (blogPosts : list NestedPost) :
  ordinary_blog blogPosts = true ->
  let out := NormalizationUtils.normalizeBlogData blogPosts in
  (forall p,
      In p (blog_posts out) ->
      (exists u, In u (blog_users out)
                 /\ get u "username" = get p "author")
      /\ exists ids,
           get p "comments" = VArr ids
           /\ forall i, In i ids ->
                        exists c, In c (blog_comments out)
                                  /\ get c "id" = i)
  /\ (forall c,
         In c (blog_comments out) ->
         exists u, In u (blog_users out)
                   /\ get u "username" = get c "author").
Proof.
  intros _.
  unfold NormalizationUtils.normalizeBlogData. rewrite collect_folds.
  cbn [blog_users blog_comments blog_posts].
  destruct (fold_add_author (authors_of blogPosts) [] (NoDup_nil _))
    as [_ Hl].
  set (users := fold_left NormalizationUtils.add_author _ _) in *.
  set (comments := fold_left _ (flat_map post_comments blogPosts) _).
  set (posts := fold_left _ blogPosts _).
  assert (Huser : forall a,
             In a (authors_of blogPosts) ->
             exists u, In u (object_values users)
                       /\ get u "username" = VStr (author_username a)).
  { intros a Ha.
    destruct (first_author (authors_of blogPosts) (author_username a))
      as [b|] eqn:Hf.
    - exists (author_record b). split.
      + apply in_object_values. exists (author_username a).
        apply AListFacts.lookup_in. rewrite Hl. simpl. now rewrite Hf.
      + apply find_some in Hf. destruct Hf as [_ Hf].
        apply String.eqb_eq in Hf.
        change (VStr (author_username b) = VStr (author_username a)).
        now rewrite Hf.
    - exfalso. unfold first_author in Hf.
      apply (find_none _ _ Hf) in Ha. now rewrite String.eqb_refl in Ha. }
  split.
  - intros r Hr. apply in_object_values in Hr. destruct Hr as (k & Hr).
    apply fold_set_in in Hr. destruct Hr as [[]|(p & Hp & -> & ->)].
    split.
    + apply Huser. unfold authors_of. apply in_flat_map.
      exists p. split; auto. now left.
    + eexists. split; [reflexivity|]. intros i Hi.
      rewrite map_map in Hi. apply in_map_iff in Hi.
      destruct Hi as (c & <- & Hc).
      assert (Hc' : In c (flat_map post_comments blogPosts))
        by (apply in_flat_map; eauto).
      destruct (fold_set_has _ _ comment_id comment_record _ [] c Hc')
        as (c' & _ & Hk & Hlc).
      exists (comment_record c'). split.
      * apply in_object_values. exists (comment_id c).
        now apply AListFacts.lookup_in.
      * change (VStr (comment_id c') = VStr (comment_id c)).
        now rewrite Hk.
  - intros r Hr. apply in_object_values in Hr. destruct Hr as (k & Hr).
    apply fold_set_in in Hr. destruct Hr as [[]|(c & Hc & -> & ->)].
    apply in_flat_map in Hc. destruct Hc as (p & Hp & Hc).
    apply Huser. unfold authors_of. apply in_flat_map.
    exists p. split; auto. right. now apply in_map.
Qed.

(** The sample blog data: the author of every returned post and comment
    is a returned user, and the comments of every returned post are
    returned comments. *)
Lemma normalizeBlogData_references_resolve_witness :
  ordinary_blog NormalizationUtils.sampleBlogData = true
  /\ (forall p,
         In p (blog_posts (NormalizationUtils.normalizeBlogData
                             NormalizationUtils.sampleBlogData)) ->
         (exists u,
             In u (blog_users (NormalizationUtils.normalizeBlogData
                                 NormalizationUtils.sampleBlogData))
             /\ get u "username" = get p "author")
         /\ exists ids,
              get p "comments" = VArr ids
              /\ forall i,
                   In i ids ->
                   exists c,
                     In c (blog_comments
                             (NormalizationUtils.normalizeBlogData
                                NormalizationUtils.sampleBlogData))
                     /\ get c "id" = i)
  /\ (forall c,
         In c (blog_comments (NormalizationUtils.normalizeBlogData
                                NormalizationUtils.sampleBlogData)) ->
         exists u,
           In u (blog_users (NormalizationUtils.normalizeBlogData
                               NormalizationUtils.sampleBlogData))
           /\ get u "username" = get c "author").
Proof.
  split; [reflexivity|].
  exact (normalizeBlogData_references_resolve
           NormalizationUtils.sampleBlogData eq_refl).
Defined.

(** ** normalized-blog.store.ts *)

Lemma get_set_same (r : record) k v : get (AList.set r k v) k = v.
Proof. unfold get. now rewrite AListFacts.lookup_set_eq. Qed.

Lemma get_set_other (r : record) k k' v :
  k <> k' -> get (AList.set r k v) k' = get r k'.
Proof. intros H. unfold get. now rewrite AListFacts.lookup_set_neq. Qed.

(** A comment whose author is a username cannot be normalized. *)
Lemma normalize_comment_with_username (comment : record) (id u : string) :
  get comment "author" = VStr u ->
  normalize blogSchemas (VObj (AList.set comment "id" (VStr id))) "comments"
  = Throw (MissingIdentifier "username" "users").
Proof.
  intros Ha. unfold normalize, normalize_fuel.
  cbn [depth AList.lookup blogSchemas String.eqb Ascii.eqb Bool.eqb truthy].
  cbn [processEntity id_key createEntitySchema idKey relationships get_prop
       own_props].
  rewrite get_set_same. cbn [is_undefined bind process_relationships].
  rewrite get_set_other by discriminate. rewrite Ha.
  reflexivity.
Qed.

(** X15. addComment cannot add a comment of the [Comment] model, whose
    author is a username: the call throws the missing-identifier error of
    the users, no entity is added or changed (the post does not get the new
    identifier either), the comments' loading flag is back to false and
    nothing is written to the console. *)
Theorem addComment_with_username_throws (s : BlogStoreState) (now : Z)
    (postId : string) (comment : record) (u : string) :
  get comment "author" = VStr u ->
  exists s',
    NormalizedBlogStore.addComment s now postId comment
    = (s', Throw (MissingIdentifier "username" "users"))
    /\ st_entities (bs_state s') = st_entities (bs_state s)
    /\ AList.lookup (st_loading (bs_state s')) "comments" = Some false
    /\ (forall ty, ty <> "comments" ->
                   AList.lookup (st_loading (bs_state s')) ty
                   = AList.lookup (st_loading (bs_state s)) ty)
    /\ bs_console s' = bs_console s.
Proof.
  intros Ha. unfold NormalizedBlogStore.addComment,
    NormalizedBlogStore.store_addNormalizedData, addNormalizedData_steps,
    NormalizedBlogStore.schemas.
  rewrite (normalize_comment_with_username comment _ u Ha).
  eexists. split; [reflexivity|]. simpl. repeat split.
  - apply AListFacts.lookup_set_eq.
  - intros ty Hne. now rewrite !AListFacts.lookup_set_neq by congruence.
Qed.

Lemma addComment_with_username_throws_witness :
  exists s',
    NormalizedBlogStore.addComment
      {| bs_state := addNormalizedData blogSchemas (initialState blogSchemas)
                                       sampleBlogData "posts";
         bs_console := [] |}
      1700000000000 "post1"
      [("author", VStr "user1"); ("comment", VStr "Nice!")]
    = (s', Throw (MissingIdentifier "username" "users"))
    /\ st_entities (bs_state s')
       = st_entities (addNormalizedData blogSchemas (initialState blogSchemas)
                                        sampleBlogData "posts").
Proof.
  destruct (addComment_with_username_throws
              {| bs_state := addNormalizedData blogSchemas
                               (initialState blogSchemas)
                               sampleBlogData "posts";
                 bs_console := [] |}
              1700000000000 "post1"
              [("author", VStr "user1"); ("comment", VStr "Nice!")]
              "user1" eq_refl) as (s' & H & He & _).
  exists s'. split; [exact H|exact He].
Defined.

(** *** What a denormalized view holds *)

Lemma denormalizeSingle_result schemaMap fuel id ty ents v :
  denormalizeSingle schemaMap fuel id ty ents = Ok v ->
  v = VNull \/ exists r, v = VObj r.
Proof.
  intros H. destruct fuel as [|fuel]; [discriminate|]. simpl in H.
  destruct (entity_at ents ty (to_string id)) as [e|].
  - right. destruct (AList.lookup schemaMap ty) as [schema|]; [|discriminate].
    rewrite denormalize_relationships_of in H. bind_inv H.
    injection H as <-. eauto.
  - left. now injection H.
Qed.

Lemma mapM_filter_objects {A} (f : A -> outcome value) l rs :
  (forall x v, f x = Ok v -> v = VNull \/ exists r, v = VObj r) ->
  mapM f l = Ok rs ->
  forallb is_plain_object (filter truthy rs) = true.
Proof.
  intros Hf. revert rs. induction l as [|x l IH]; intros rs H; simpl in H.
  - now injection H as <-.
  - bind_inv H. bind_inv H. injection H as <-.
    destruct (Hf _ _ Hc) as [->|(r & ->)]; simpl; eauto.
Qed.

(** In a view, an array under a plural relationship holds objects only. *)
Lemma denormalizeSingle_plural_objects schemaMap fuel id ty ents r schema
    key cty :
  wf_schemas schemaMap = true ->
  AList.lookup schemaMap ty = Some schema ->
  In (key, hasMany cty) (relationships_of schema) ->
  denormalizeSingle schemaMap fuel id ty ents = Ok (VObj r) ->
  forall l, get r key = VArr l -> forallb is_plain_object l = true.
Proof.
  intros Hwf Hs Hin H l Hl. destruct fuel as [|fuel]; [discriminate|].
  simpl in H.
  destruct (entity_at ents ty (to_string id)) as [e|]; [|discriminate].
  rewrite Hs, denormalize_relationships_of in H. bind_inv H.
  injection H as <-.
  assert (Hnd : NoDup (AList.keys (relationships_of schema)))
    by (eapply wf_schemas_nodup; eauto).
  apply denormalize_relationships_ok in Hc; auto.
  destruct Hc as (_ & _ & Hsome).
  destruct (Hsome _ _ Hin) as (x & Hx & Hlx).
  unfold get in Hl. rewrite Hlx in Hl.
  unfold denormalize_field in Hx.
  destruct (get e key) as [| | | | |ids|] eqn:Hg; simpl in Hx;
    try (injection Hx as <-; unfold get in Hg; rewrite Hl in Hg;
         discriminate).
  bind_inv Hx. injection Hx as <-. injection Hl as <-.
  eapply mapM_filter_objects; [|exact Hc].
  intros i v Hv. cbv beta in Hv.
  exact (denormalizeSingle_result _ _ _ _ _ _ Hv).
Qed.

Lemma mapM_ok_out {A B} (f : A -> outcome B) l rs y :
  mapM f l = Ok rs -> In y rs -> exists x, In x l /\ f x = Ok y.
Proof.
  revert rs. induction l as [|a l IH]; intros rs H Hin; simpl in H.
  - injection H as <-. destruct Hin.
  - bind_inv H. bind_inv H. injection H as <-.
    destruct Hin as [<-|Hin]; [eauto using in_eq|].
    destruct (IH _ Hc0 Hin) as (x & Hx & Hy). eauto using in_cons.
Qed.

Lemma forEach_unchanged {A}
    (f : A -> BlogStoreState -> BlogStoreState * outcome unit) l s :
  (forall x, In x l -> exists r, f x s = (s, r)) ->
  exists r, forEach f l s = (s, r).
Proof.
  induction l as [|x l IH]; intros H; simpl; [eauto|].
  destruct (H x (or_introl eq_refl)) as (r & ->).
  destruct r as [[]|e|]; eauto. apply IH. intros; apply H; now right.
Qed.

Lemma existsb_strict_eq_objects l s :
  forallb is_plain_object l = true ->
  existsb (fun x => strict_eq_string x s) l = false.
Proof.
  induction l as [|x l IH]; simpl; auto.
  intros H. apply andb_true_iff in H. destruct H as [Hx Hl].
  destruct x; try discriminate. simpl. auto.
Qed.

Lemma early_removeComment_post commentId r s :
  (forall l, get r "comments" = VArr l ->
             forallb is_plain_object l = true) ->
  exists res,
    NormalizedBlogStoreEarly.removeComment_post commentId (VObj r) s
    = (s, res).
Proof.
  intros Hobj. unfold NormalizedBlogStoreEarly.removeComment_post.
  cbn [get_prop bind].
  destruct (get r "comments") as [| |b|n|str|l|o] eqn:Hg; simpl; eauto.
  - destruct (string_includes str commentId); simpl; eauto.
  - rewrite (existsb_strict_eq_objects l commentId (Hobj l eq_refl)).
    eauto.
Qed.

(** X16. The earlier removeComment never touches a post: it looks for the
    identifier among the denormalized comments of each post, which are
    objects, so it finds none and updates nothing. Whatever the store
    holds, the call either ends with exactly the comment removed, or throws
    with the store as it was; a post that listed the comment still lists
    it. *)
Theorem early_removeComment_keeps_references (fuel : nat)
    (s : BlogStoreState) (commentId : string) :
  let s' := fst (NormalizedBlogStoreEarly.removeComment fuel s commentId) in
  s' = match snd (NormalizedBlogStoreEarly.removeComment fuel s commentId)
       with
       | Ok _ => with_state s (removeEntity (bs_state s) "comments"
                                            (VStr commentId))
       | _ => s
       end
  /\ forall k,
       entity_at (st_entities (bs_state s')) "posts" k
       = entity_at (st_entities (bs_state s)) "posts" k.
Proof.
  cbv zeta.
  assert (H : exists res,
             NormalizedBlogStoreEarly.removeComment fuel s commentId
             = (match res with
                | Ok _ => with_state s (removeEntity (bs_state s) "comments"
                                                     (VStr commentId))
                | _ => s
                end, res)).
  { unfold NormalizedBlogStoreEarly.removeComment, selectDenormalized,
      getDenormalizedEntities. cbn [is_undefined].
    destruct (AList.lookup (st_entities (bs_state s)) "posts") as [m|];
      [|now exists (Ok tt)].
    cbn [denormalize].
    destruct (mapM _ (map VStr (AList.keys m))) as [views|e|] eqn:Hm;
      cbn [bind as_array];
      [|now exists (Throw e)|now exists Diverge].
    destruct (forEach_unchanged
                (NormalizedBlogStoreEarly.removeComment_post commentId)
                (filter truthy views) s) as (res & ->).
    - intros post Hin. apply filter_In in Hin. destruct Hin as [Hin Ht].
      destruct (mapM_ok_out _ _ _ post Hm Hin) as (id & _ & Hid).
      destruct (denormalizeSingle_result _ _ _ _ _ _ Hid) as [->|(r & ->)];
        [discriminate|].
      apply early_removeComment_post.
      eapply (denormalizeSingle_plural_objects
                NormalizedBlogStore.schemas fuel id "posts"
                (st_entities (bs_state s)) r _ "comments" "comments");
        [reflexivity|reflexivity| |exact Hid].
      simpl. right. now left.
    - destruct res as [[]|e|];
        [now exists (Ok tt)|now exists (Throw e)|now exists Diverge]. }
  destruct H as (res & ->). simpl. split; auto.
  intros k. destruct res; auto. simpl.
  rewrite removeEntity_entity_at. reflexivity.
Qed.

(** *** Denormalizing never throws for a type of a closed schema map *)

Lemma mapM_no_throw {A B} (f : A -> outcome B) l :
  (forall x e, f x <> Throw e) -> forall e, mapM f l <> Throw e.
Proof.
  intros Hf. induction l as [|x l IH]; intros e; simpl; [discriminate|].
  destruct (f x) eqn:Hx; simpl; [|now elim (Hf x e0)|discriminate].
  destruct (mapM f l) eqn:Hl; simpl; [discriminate|now elim (IH e0)|
                                       discriminate].
Qed.

Lemma denormalize_relationships_no_throw recur rels :
  (forall k cfg id e, In (k, cfg) rels -> recur id (type cfg) <> Throw e) ->
  forall de e, denormalize_relationships recur rels de <> Throw e.
Proof.
  induction rels as [|[key cfg] rels IH]; intros Hr de e; simpl;
    [discriminate|].
  assert (Hrest : forall de' e', denormalize_relationships recur rels de'
                                 <> Throw e')
    by (apply IH; intros; eapply Hr; right; eauto).
  destruct (is_undefined (get de key)); auto.
  destruct (isArray cfg).
  - destruct (get de key); auto.
    destruct (mapM (fun id => recur id (type cfg)) items) eqn:Hm; simpl; auto;
      [|discriminate].
    exfalso. revert Hm. apply mapM_no_throw.
    intros id e'. apply (Hr key). now left.
  - destruct (is_null (get de key)); auto.
    destruct (recur (get de key) (type cfg)) eqn:Hm; simpl; auto;
      [|discriminate].
    exfalso. revert Hm. apply (Hr key). now left.
Qed.

Lemma denormalizeSingle_no_throw schemaMap :
  closed_schemas schemaMap = true ->
  forall fuel ty,
    AList.lookup schemaMap ty <> None ->
    forall id ents e, denormalizeSingle schemaMap fuel id ty ents <> Throw e.
Proof.
  intros Hclosed. induction fuel as [|fuel IH]; intros ty Hty id ents e;
    [discriminate|].
  simpl. destruct (entity_at ents ty (to_string id)); [|discriminate].
  destruct (AList.lookup schemaMap ty) as [schema|] eqn:Hs; [|now elim Hty].
  rewrite denormalize_relationships_of.
  destruct (denormalize_relationships _ (relationships_of schema) r) eqn:Hd;
    simpl; [discriminate| |discriminate].
  exfalso. revert Hd. apply denormalize_relationships_no_throw.
  intros k cfg id' e' Hin. apply IH.
  unfold closed_schemas in Hclosed. rewrite forallb_forall in Hclosed.
  pose proof (Hclosed _ (AListFacts.lookup_in _ _ Hs)) as Hc. simpl in Hc.
  rewrite forallb_forall in Hc. specialize (Hc _ Hin). simpl in Hc.
  destruct (AList.lookup schemaMap (type cfg)); congruence.
Qed.

(** X17. For a schema map whose relationships all name types of the map
    and lead through fewer than n types in a row from the requested type,
    denormalize of a type of the map always returns a value within
    recursion depth n: it neither throws nor runs on, whatever the store
    holds and whichever identifiers are asked for. *)
Theorem denormalize_returns_when_closed_acyclic (schemaMap : EntitySchemaMap)
    (n : nat) (entityType : string) :
  closed_schemas schemaMap = true ->
  acyclic_from schemaMap n entityType = true ->
  AList.lookup schemaMap entityType <> None ->
  forall id ents,
  exists v, denormalize schemaMap n id entityType ents = Ok v.
Proof.
  intros Hclosed Hacyclic Hty id ents.
  assert (Hsingle : forall i,
             exists v, denormalizeSingle schemaMap n i entityType ents = Ok v).
  { intros i.
    pose proof (denormalizeSingle_acyclic schemaMap n entityType Hacyclic
                  i ents) as Hd.
    pose proof (denormalizeSingle_no_throw schemaMap Hclosed n entityType
                  Hty i ents) as Ht.
    destruct (denormalizeSingle schemaMap n i entityType ents) as [v|e|];
      [eauto|now elim (Ht e)|now elim Hd]. }
  destruct id; try apply Hsingle.
  unfold denormalize.
  assert (Hm : exists rs,
             mapM (fun i => denormalizeSingle schemaMap n i entityType ents)
                  items = Ok rs).
  { induction items as [|i items IH]; simpl; [eauto|].
    destruct (Hsingle i) as (v & ->). destruct IH as (rs & ->).
    simpl. eauto. }
  destruct Hm as (rs & ->). simpl. eauto.
Qed.

Lemma denormalize_returns_when_closed_acyclic_witness :
  exists v,
    denormalize blogSchemas 3 (VStr "post1") "posts"
      (st_entities (addNormalizedData blogSchemas (initialState blogSchemas)
                                      sampleBlogData "posts"))
    = Ok v.
Proof.
  apply (denormalize_returns_when_closed_acyclic blogSchemas 3 "posts"
           eq_refl eq_refl).
  discriminate.
Defined.

(** *** removeComment *)

Lemma strict_eq_string_true v s : strict_eq_string v s = true -> v = VStr s.
Proof.
  destruct v; simpl; try discriminate.
  intros H. apply String.eqb_eq in H. now subst.
Qed.

Lemma typeof_strings l :
  forallb typeof_string l = true -> exists l', l = map VStr l'.
Proof.
  induction l as [|x l IH]; simpl; [now exists []|].
  intros H. apply andb_true_iff in H. destruct H as [Hx Hl].
  destruct x; try discriminate. destruct (IH Hl) as (l' & ->).
  now exists (s :: l').
Qed.

Lemma entity_at_collection ents ty k :
  entity_at ents ty k = AList.lookup (collection_of ents ty) k.
Proof. unfold entity_at, collection_of. now destruct (AList.lookup ents ty). Qed.

Lemma typed_post ents k p :
  typed_blog_store ents = true ->
  entity_at ents "posts" k = Some p ->
  get p "id" = VStr k /\ exists l, get p "comments" = VArr (map VStr l).
Proof.
  intros Ht He. unfold typed_blog_store in Ht. rewrite !andb_true_iff in Ht.
  destruct Ht as [[_ Hp] _].
  rewrite entity_at_collection in He. apply AListFacts.lookup_in in He.
  rewrite forallb_forall in Hp. specialize (Hp _ He). simpl in Hp.
  apply andb_true_iff in Hp. destruct Hp as [Hid Hc].
  split; [now apply strict_eq_string_true|].
  destruct (get p "comments"); try discriminate.
  destruct (typeof_strings _ Hc) as (l & ->). eauto.
Qed.

Lemma typed_comment ents k c :
  typed_blog_store ents = true ->
  entity_at ents "comments" k = Some c ->
  get c "id" = VStr k.
Proof.
  intros Ht He. unfold typed_blog_store in Ht. rewrite !andb_true_iff in Ht.
  destruct Ht as [_ Hc].
  rewrite entity_at_collection in He. apply AListFacts.lookup_in in He.
  rewrite forallb_forall in Hc. specialize (Hc _ He).
  now apply strict_eq_string_true.
Qed.

Lemma denormalizeSingle_S schemaMap fuel id ty ents :
  denormalizeSingle schemaMap (S fuel) id ty ents
  = match entity_at ents ty (to_string id) with
    | None => Ok VNull
    | Some entity =>
        match AList.lookup schemaMap ty with
        | None => Throw TypeError
        | Some schema =>
            r <- denormalize_relationships
                   (fun id ty => denormalizeSingle schemaMap fuel id ty ents)
                   (relationships_of schema) entity ;;
            Ok (VObj r)
        end
    end.
Proof.
  simpl. destruct (entity_at ents ty (to_string id)); auto.
  destruct (AList.lookup schemaMap ty); auto.
  apply denormalize_relationships_of.
Qed.

Lemma user_view fuel id ents :
  exists v, denormalizeSingle blogSchemas (S fuel) id "users" ents = Ok v.
Proof.
  rewrite denormalizeSingle_S.
  destruct (entity_at ents "users" (to_string id)); simpl; eauto.
Qed.

Lemma author_field fuel ents v :
  exists x,
    denormalize_field
      (fun id ty => denormalizeSingle blogSchemas (S fuel) id ty ents)
      (hasOne "users") v = Ok x.
Proof.
  unfold denormalize_field. cbn [isArray hasOne type].
  destruct (is_undefined v); [eauto|]. destruct (is_null v); [eauto|].
  destruct (user_view fuel v ents) as (r & ->). simpl. eauto.
Qed.

Lemma comment_view fuel ents i :
  typed_blog_store ents = true ->
  exists v,
    denormalizeSingle blogSchemas (S (S fuel)) (VStr i) "comments" ents = Ok v
    /\ if stored_comment ents i
       then exists cv, v = VObj cv /\ get cv "id" = VStr i
       else v = VNull.
Proof.
  intros Ht. rewrite denormalizeSingle_S. unfold stored_comment.
  cbn [to_string].
  destruct (entity_at ents "comments" i) as [c|] eqn:He; [|eauto].
  change (AList.lookup blogSchemas "comments")
    with (Some (createEntitySchema (Some "id")
                  (Some [("author", hasOne "users")]))).
  cbv iota. unfold relationships_of. cbn [relationships createEntitySchema].
  rewrite denormalize_relationships_step.
  destruct (author_field fuel ents (get c "author")) as (x & ->).
  cbn [bind denormalize_relationships]. eexists. split; [reflexivity|].
  eexists. split; [reflexivity|].
  rewrite write_field_get_other by discriminate.
  eapply typed_comment; eauto.
Qed.

Lemma comment_views fuel ents l :
  typed_blog_store ents = true ->
  exists rs,
    mapM (fun id => denormalizeSingle blogSchemas (S (S fuel)) id "comments"
                                      ents)
         (map VStr l) = Ok rs
    /\ mapM (fun comment => get_prop comment "id")
            (filter typeof_object (filter truthy rs))
       = Ok (map VStr (filter (stored_comment ents) l)).
Proof.
  intros Ht. induction l as [|i l IH]; cbn [map mapM filter].
  - exists []. split; reflexivity.
  - destruct (comment_view fuel ents i Ht) as (v & Hv & Hs). rewrite Hv.
    destruct IH as (rs & Hrs & Hids). rewrite Hrs. cbn [bind].
    eexists. split; [reflexivity|].
    destruct (stored_comment ents i).
    + destruct Hs as (cv & -> & Hid). cbn [filter truthy typeof_object mapM
                                             get_prop bind map].
      rewrite Hid, Hids. reflexivity.
    + subst v. exact Hids.
Qed.

Lemma post_view fuel ents k p l :
  typed_blog_store ents = true ->
  entity_at ents "posts" k = Some p ->
  get p "comments" = VArr (map VStr l) ->
  exists view cviews,
    denormalizeSingle blogSchemas (S (S (S fuel))) (VStr k) "posts" ents
    = Ok (VObj view)
    /\ get view "id" = get p "id"
    /\ get view "comments" = VArr cviews
    /\ mapM (fun comment => get_prop comment "id")
            (filter typeof_object cviews)
       = Ok (map VStr (filter (stored_comment ents) l)).
Proof.
  intros Ht He Hc. rewrite denormalizeSingle_S. cbn [to_string]. rewrite He.
  change (AList.lookup blogSchemas "posts")
    with (Some (createEntitySchema (Some "id")
                  (Some [("author", hasOne "users");
                         ("comments", hasMany "comments")]))).
  cbv iota. unfold relationships_of. cbn [relationships createEntitySchema].
  rewrite denormalize_relationships_step.
  destruct (author_field (S fuel) ents (get p "author")) as (x & ->).
  cbn [bind]. rewrite denormalize_relationships_step.
  rewrite write_field_get_other by discriminate. rewrite Hc.
  unfold denormalize_field. cbn [is_undefined isArray hasMany type].
  destruct (comment_views fuel ents l Ht) as (rs & Hrs & Hids).
  rewrite Hrs. cbn [bind denormalize_relationships write_field].
  eexists. eexists. split; [reflexivity|].
  rewrite get_set_other by discriminate.
  rewrite write_field_get_other by discriminate.
  rewrite get_set_same. auto.
Qed.

Lemma filter_not_listed ents commentId l :
  stored_comment ents commentId = true ->
  existsb (fun x => strict_eq_string x commentId)
          (map VStr (filter (stored_comment ents) l)) = false ->
  filter (fun id => negb (strict_eq_string id commentId)) (map VStr l)
  = map VStr l.
Proof.
  intros Hs. induction l as [|i l IH]; simpl; auto.
  destruct (String.eqb_spec i commentId) as [->|Hne].
  - rewrite Hs. simpl. rewrite String.eqb_refl. discriminate.
  - intros H. simpl. f_equal. apply IH.
    destruct (stored_comment ents i); auto.
    simpl in H. apply orb_false_iff in H. tauto.
Qed.

Lemma updateEntity_loading st entityType id changes :
  st_loading (snd (updateEntity st entityType id changes)) = st_loading st.
Proof.
  unfold updateEntity.
  destruct (AList.lookup (st_entities st) entityType) as [m|]; auto.
  destruct (AList.lookup m (to_string id)); auto.
Qed.

Lemma removeEntity_loading st entityType id :
  st_loading (removeEntity st entityType id) = st_loading st.
Proof.
  unfold removeEntity.
  destruct (AList.lookup (st_entities st) entityType) as [m|]; auto.
  destruct (AList.lookup m (to_string id)); auto.
Qed.

Lemma removeComment_post_step ents0 commentId k v s :
  stored_comment ents0 commentId = true ->
  post_view_of ents0 k v ->
  entity_at (st_entities (bs_state s)) "posts" k = entity_at ents0 "posts" k ->
  exists s',
    NormalizedBlogStore.removeComment_post commentId v s = (s', Ok tt)
    /\ bs_console s' = bs_console s
    /\ st_loading (bs_state s') = st_loading (bs_state s)
    /\ (forall ty k', (ty, k') <> ("posts", k) ->
                      entity_at (st_entities (bs_state s')) ty k'
                      = entity_at (st_entities (bs_state s)) ty k')
    /\ exists p p',
         entity_at ents0 "posts" k = Some p
         /\ entity_at (st_entities (bs_state s')) "posts" k = Some p'
         /\ cleaned_post commentId p p'.
Proof.
  intros Hs (view & cviews & p & l & -> & Hid & Hc & Hids & He & Hpc) Hcur.
  rewrite He in Hcur.
  unfold NormalizedBlogStore.removeComment_post. cbn [get_prop bind].
  rewrite Hc. cbn [as_array bind]. rewrite Hids. cbn [bind].
  destruct (existsb _ (map VStr (filter (stored_comment ents0) l))) eqn:Hex.
  - rewrite Hid. cbn [bind]. unfold getEntityById. cbn [to_string].
    rewrite Hcur. cbn [truthy get_prop bind]. rewrite Hpc. cbn [as_array bind].
    destruct (updateEntity_stored (bs_state s) "posts" (VStr k)
                [("comments",
                  VArr (filter (fun id => negb (strict_eq_string id commentId))
                               (map VStr l)))] p Hcur)
      as (st' & Hup & Hnew & Hframe).
    pose proof (updateEntity_loading (bs_state s) "posts" (VStr k)
                  [("comments",
                    VArr (filter
                            (fun id => negb (strict_eq_string id commentId))
                            (map VStr l)))]) as Hload.
    rewrite Hup in *. simpl in Hload.
    eexists. split; [reflexivity|]. simpl.
    split; [reflexivity|]. split; [exact Hload|]. split; [exact Hframe|].
    exists p. eexists. split; [exact He|]. split; [exact Hnew|].
    split.
    + exists (map VStr l). split; auto.
      unfold get. rewrite AListFacts.lookup_spread. reflexivity.
    + intros key Hne. rewrite AListFacts.lookup_spread.
      cbn [rev app AList.lookup].
      destruct (String.eqb_spec "comments" key); congruence.
  - exists s. split; [reflexivity|]. repeat split; auto.
    exists p, p. repeat split; auto.
    exists (map VStr l). split; auto.
    rewrite Hpc. f_equal. symmetry.
    eapply filter_not_listed; eauto.
Qed.

Lemma removeComment_loop ents0 commentId :
  stored_comment ents0 commentId = true ->
  forall ks views,
    Forall2 (post_view_of ents0) ks views ->
    NoDup ks ->
    forall s,
      (forall k, In k ks ->
                 entity_at (st_entities (bs_state s)) "posts" k
                 = entity_at ents0 "posts" k) ->
      exists s',
        forEach (NormalizedBlogStore.removeComment_post commentId) views s
        = (s', Ok tt)
        /\ bs_console s' = bs_console s
        /\ st_loading (bs_state s') = st_loading (bs_state s)
        /\ (forall ty k, (ty = "posts" -> ~ In k ks) ->
                         entity_at (st_entities (bs_state s')) ty k
                         = entity_at (st_entities (bs_state s)) ty k)
        /\ forall k, In k ks ->
                     exists p p',
                       entity_at ents0 "posts" k = Some p
                       /\ entity_at (st_entities (bs_state s')) "posts" k
                          = Some p'
                       /\ cleaned_post commentId p p'.
Proof.
  intros Hs ks views H.
  induction H as [|k v ks views Hv _ IH]; intros Hnd s Hcur.
  - exists s. simpl. repeat split; auto. intros k [].
  - inversion Hnd as [|? ? Hni Hnd']; subst.
    destruct (removeComment_post_step ents0 commentId k v s Hs Hv
                (Hcur k (or_introl eq_refl)))
      as (s1 & Hstep & Hcon1 & Hload1 & Hframe1 & p & p' & Hp & Hp' & Hclean).
    destruct (IH Hnd' s1) as (s' & Hloop & Hcon & Hload & Hframe & Hks).
    + intros k' Hk'. rewrite Hframe1; [apply Hcur; now right|].
      intros E. injection E as ->. contradiction.
    + exists s'. cbn [forEach]. rewrite Hstep, Hloop.
      split; [reflexivity|]. split; [congruence|]. split; [congruence|].
      split.
      * intros ty k' Hnot. rewrite Hframe.
        -- apply Hframe1. intros E. injection E as -> ->.
           apply (Hnot eq_refl). now left.
        -- intros Hty Hin. apply (Hnot Hty). now right.
      * intros k' [<-|Hk']; [|now apply Hks].
        exists p, p'. split; auto. split; auto.
        rewrite Hframe; auto.
Qed.

Lemma post_views fuel ents ks :
  typed_blog_store ents = true ->
  (forall k, In k ks -> entity_at ents "posts" k <> None) ->
  exists views,
    mapM (fun id => denormalizeSingle blogSchemas (S (S (S fuel))) id "posts"
                                      ents)
         (map VStr ks) = Ok views
    /\ filter truthy views = views
    /\ Forall2 (post_view_of ents) ks views.
Proof.
  intros Ht. induction ks as [|k ks IH]; intros Hk; cbn [map mapM].
  - exists []. repeat split. constructor.
  - destruct (entity_at ents "posts" k) as [p|] eqn:He;
      [|now elim (Hk k (or_introl eq_refl))].
    destruct (typed_post ents k p Ht He) as (Hid & l & Hl).
    destruct (post_view fuel ents k p l Ht He Hl)
      as (view & cviews & Hv & Hvid & Hvc & Hids).
    rewrite Hv. destruct IH as (views & Hm & Hf & Hall).
    { intros; apply Hk; now right. }
    rewrite Hm. cbn [bind]. eexists. split; [reflexivity|].
    cbn [filter truthy]. rewrite Hf. split; [reflexivity|].
    constructor; auto.
    exists view, cviews, p, l. repeat split; auto. congruence.
Qed.

(** X18. removeComment cascades in a store that respects the models: when
    the comment is stored, the call returns, the comment is gone, the
    comments of every post are the ones it listed before without the
    removed identifier, so that no post refers to the removed comment any
    more, and nothing else in the store changes; nothing is written to the
    console. *)
Theorem removeComment_cascades (fuel : nat) (s : BlogStoreState)
    (commentId : string) :
  3 <= fuel ->
  typed_blog_store (st_entities (bs_state s)) = true ->
  stored_comment (st_entities (bs_state s)) commentId = true ->
  exists s',
    NormalizedBlogStore.removeComment fuel s commentId = (s', Ok tt)
    /\ bs_console s' = bs_console s
    /\ st_loading (bs_state s') = st_loading (bs_state s)
    /\ entity_at (st_entities (bs_state s')) "comments" commentId = None
    /\ (forall k p,
           entity_at (st_entities (bs_state s)) "posts" k = Some p ->
           exists p',
             entity_at (st_entities (bs_state s')) "posts" k = Some p'
             /\ cleaned_post commentId p p')
    /\ (forall k p',
           entity_at (st_entities (bs_state s')) "posts" k = Some p' ->
           exists l, get p' "comments" = VArr l
                     /\ ~ In (VStr commentId) l)
    /\ (forall ty k,
           ty <> "posts" -> (ty, k) <> ("comments", commentId) ->
           entity_at (st_entities (bs_state s')) ty k
           = entity_at (st_entities (bs_state s)) ty k).
Proof.
  intros Hfuel Ht Hs.
  destruct fuel as [|[|[|fuel]]]; try lia. clear Hfuel.
  set (ents0 := st_entities (bs_state s)) in *.
  set (ks := AList.keys (collection_of ents0 "posts")).
  assert (Hks : forall k, In k ks <-> entity_at ents0 "posts" k <> None).
  { intros k. rewrite entity_at_collection. unfold ks. split.
    - intros Hin Hn. now apply AListFacts.lookup_none_keys in Hn.
    - intros Hn. destruct (in_dec string_dec k
                             (AList.keys (collection_of ents0 "posts")));
        auto.
      now apply AListFacts.lookup_none_keys in n. }
  assert (Hnd : NoDup ks).
  { unfold typed_blog_store in Ht. rewrite !andb_true_iff in Ht.
    apply nodupb_NoDup. tauto. }
  destruct (post_views fuel ents0 ks Ht) as (views & Hm & Hf & Hall).
  { intros k Hk. now apply Hks. }
  destruct (removeComment_loop ents0 commentId Hs ks views Hall Hnd s)
    as (s1 & Hloop & Hcon & Hload & Hframe & Hclean); [reflexivity|].
  assert (Hposts : NormalizedBlogStore.getAllPosts (S (S (S fuel))) s
                   = Ok (VArr views)).
  { unfold NormalizedBlogStore.getAllPosts, selectDenormalized,
      getDenormalizedEntities. cbn [is_undefined].
    fold ents0. unfold ks, collection_of in Hm, Hall.
    destruct (AList.lookup ents0 "posts") as [m|].
    - cbn [denormalize]. unfold NormalizedBlogStore.schemas.
      rewrite Hm. cbn [bind]. now rewrite Hf.
    - inversion Hall. reflexivity. }
  unfold NormalizedBlogStore.removeComment. rewrite Hposts.
  cbn [bind as_array]. rewrite Hloop.
  eexists. split; [reflexivity|]. cbn [bs_console bs_state with_state].
  split; [exact Hcon|]. split; [now rewrite removeEntity_loading|].
  assert (Hfinal_posts : forall k,
             entity_at (st_entities (removeEntity (bs_state s1) "comments"
                                                  (VStr commentId)))
                       "posts" k
             = entity_at (st_entities (bs_state s1)) "posts" k).
  { intros k. now rewrite removeEntity_entity_at. }
  split; [|split; [|split]].
  - rewrite removeEntity_entity_at. simpl. now rewrite String.eqb_refl.
  - intros k p Hp. rewrite Hfinal_posts.
    destruct (Hclean k) as (p0 & p' & Hp0 & Hp' & Hc).
    { apply Hks. congruence. }
    exists p'. split; auto. congruence.
  - intros k p' Hp'. rewrite Hfinal_posts in Hp'.
    destruct (in_dec string_dec k ks) as [Hin|Hout].
    + destruct (Hclean k Hin) as (p0 & p1 & Hp0 & Hp1 & (l & Hl & Hl') & _).
      rewrite Hp' in Hp1. injection Hp1 as <-.
      eexists. split; [exact Hl'|].
      intros Hc. apply filter_In in Hc. destruct Hc as [_ Hc].
      simpl in Hc. now rewrite String.eqb_refl in Hc.
    + rewrite Hframe in Hp' by (intros _; exact Hout).
      exfalso. apply Hout, Hks. fold ents0 in Hp'. congruence.
  - intros ty k Hty Hne. rewrite removeEntity_entity_at.
    destruct (String.eqb_spec ty "comments") as [->|Hc]; simpl.
    + destruct (String.eqb_spec k commentId) as [->|Hk]; [congruence|].
      apply Hframe. congruence.
    + apply Hframe. congruence.
Qed.

Lemma removeComment_cascades_witness :
  exists s',
    NormalizedBlogStore.removeComment 3
      {| bs_state := addNormalizedData blogSchemas (initialState blogSchemas)
                                       sampleBlogData "posts";
         bs_console := [] |}
      "comment1"
    = (s', Ok tt)
    /\ entity_at (st_entities (bs_state s')) "comments" "comment1" = None
    /\ forall k p',
         entity_at (st_entities (bs_state s')) "posts" k = Some p' ->
         exists l, get p' "comments" = VArr l
                   /\ ~ In (VStr "comment1") l.
Proof.
  destruct (removeComment_cascades 3
              {| bs_state := addNormalizedData blogSchemas
                               (initialState blogSchemas)
                               sampleBlogData "posts";
                 bs_console := [] |}
              "comment1" (le_n 3) eq_refl eq_refl)
    as (s' & H & _ & _ & Hgone & _ & Hrefs & _).
  exists s'. split; [exact H|]. split; [exact Hgone|exact Hrefs].
Defined.

(** X19. In a store with ordinary names and references and for an ordinary
    post identifier: getCommentsForPost returns exactly the comments
    embedded in the denormalized view of the post, and the empty array
    when getPostById finds no post: the comments of a view are objects, so
    the lookup of string entries and the filter of null entries never
    apply. *)
Theorem getCommentsForPost_view (fuel : nat) (s : BlogStoreState)
    (postId : string) :
  ordinary_store blogSchemas (st_entities (bs_state s)) = true ->
  ordinary_name postId = true ->
  (NormalizedBlogStore.getPostById fuel s postId = Ok VNull ->
   NormalizedBlogStore.getCommentsForPost fuel s postId = Ok (VArr []))
  /\ (forall view cviews,
         NormalizedBlogStore.getPostById fuel s postId = Ok (VObj view) ->
         get view "comments" = VArr cviews ->
         NormalizedBlogStore.getCommentsForPost fuel s postId
         = Ok (VArr cviews)).
Proof.
  intros _ _. unfold NormalizedBlogStore.getCommentsForPost. split.
  - intros ->. reflexivity.
  - intros view cviews Hv Hc. rewrite Hv. cbn [bind truthy negb get_prop].
    rewrite Hc. cbn [as_array bind].
    assert (Hobj : forallb is_plain_object cviews = true).
    { unfold NormalizedBlogStore.getPostById, selectDenormalized,
        getDenormalizedEntity in Hv. cbn [is_undefined denormalize] in Hv.
      eapply (denormalizeSingle_plural_objects
                NormalizedBlogStore.schemas fuel (VStr postId) "posts"
                (st_entities (bs_state s)) view _ "comments" "comments");
        [reflexivity|reflexivity| |exact Hv|exact Hc].
      simpl. right. now left. }
    assert (Hm : forall l,
               forallb is_plain_object l = true ->
               mapM (fun comment =>
                       if typeof_string comment
                       then selectDenormalized NormalizedBlogStore.schemas
                              fuel (bs_state s) "comments" comment
                       else Ok comment) l = Ok l
               /\ filter (fun comment => negb (is_null comment)) l = l).
    { induction l as [|x l IH]; simpl; auto.
      intros H. apply andb_true_iff in H. destruct H as [Hx Hl].
      destruct x; try discriminate. simpl.
      destruct (IH Hl) as (-> & ->). auto. }
    destruct (Hm cviews Hobj) as (-> & Hf). cbn [bind]. now rewrite Hf.
Qed.

(** In the loaded sample blog, the comments of post1 are the two comments
    of its view, and a post that is not stored has none. *)
Lemma getCommentsForPost_view_witness :
  let s := {| bs_state :=
                addNormalizedData blogSchemas (initialState blogSchemas)
                                  sampleBlogData "posts";
              bs_console := [] |} in
  NormalizedBlogStore.getCommentsForPost 3 s "post9" = Ok (VArr [])
  /\ NormalizedBlogStore.getCommentsForPost 3 s "post1"
     = Ok (VArr [comment "comment1" (user "user2" "User 2") "Great post!";
                 comment "comment2" (user "user3" "User 3")
                         "I learned a lot from this."]).
Proof.
  intros s.
  destruct (getCommentsForPost_view 3 s "post9" eq_refl eq_refl)
    as (Hnone & _).
  destruct (getCommentsForPost_view 3 s "post1" eq_refl eq_refl)
    as (_ & Hview).
  split; [exact (Hnone eq_refl)|].
  exact (Hview (own_props samplePost1)
               [comment "comment1" (user "user2" "User 2") "Great post!";
                comment "comment2" (user "user3" "User 3")
                        "I learned a lot from this."]
               eq_refl eq_refl).
Defined.

(** *** addComment with a nested author *)

Lemma normalize_comment_with_author (comment a : record) (cid u : string) :
  get comment "author" = VObj a ->
  get a "username" = VStr u ->
  normalize blogSchemas (VObj (AList.set comment "id" (VStr cid))) "comments"
  = Ok {| entities :=
            [("comments",
              [(cid, AList.set (AList.set comment "id" (VStr cid)) "author"
                               (VStr u))]);
             ("users", [(u, a)])];
          result := VStr cid |}.
Proof.
  intros Ha Hu.
  rewrite (normalize_fuel_more blogSchemas _ "comments" 2).
  unfold normalize_fuel.
  change (AList.lookup blogSchemas "comments")
    with (Some (createEntitySchema (Some "id")
                  (Some [("author", hasOne "users")]))).
  cbv iota. cbn [truthy Nat.add].
  cbn [processEntity id_key createEntitySchema idKey relationships get_prop
       own_props].
  rewrite get_set_same. cbn [is_undefined bind process_relationships].
  rewrite get_set_other by discriminate. rewrite Ha.
  cbn [is_undefined isArray hasOne is_null type].
  change (AList.lookup blogSchemas "users")
    with (Some (createEntitySchema (Some "username") None)).
  cbn [processEntity id_key createEntitySchema idKey relationships get_prop
       own_props bind process_relationships String.eqb Ascii.eqb Bool.eqb].
  rewrite Hu. reflexivity.
Qed.

(** X20. Given a comment whose author is a nested user object with an
    ordinary username, an ordinary post identifier and a time that is a
    safe integer, addComment stores the comment under its generated
    identifier with the author replaced by the username, stores the author
    as a user, appends the identifier to the comments of the post when the
    post is stored and its comments are an array, leaves every other
    entity as it was and writes nothing to the console. *)
Theorem addComment_with_nested_author (s : BlogStoreState) (now : Z)
    (postId : string) (comment a p : record) (u : string) (l : list value) :
  ordinary_name u = true ->
  ordinary_name postId = true ->
  safe_integer now = true ->
  get comment "author" = VObj a ->
  get a "username" = VStr u ->
  entity_at (st_entities (bs_state s)) "posts" postId = Some p ->
  get p "comments" = VArr l ->
  let commentId := ("comment" ++ string_of_Z now)%string in
  exists s',
    NormalizedBlogStore.addComment s now postId comment = (s', Ok tt)
    /\ bs_console s' = bs_console s
    /\ entity_at (st_entities (bs_state s')) "comments" commentId
       = Some (AList.set (AList.set comment "id" (VStr commentId)) "author"
                         (VStr u))
    /\ entity_at (st_entities (bs_state s')) "users" u = Some a
    /\ entity_at (st_entities (bs_state s')) "posts" postId
       = Some (AList.spread p [("comments", VArr (l ++ [VStr commentId]))])
    /\ forall ty k,
         (ty, k) <> ("comments", commentId) ->
         (ty, k) <> ("users", u) ->
         (ty, k) <> ("posts", postId) ->
         entity_at (st_entities (bs_state s')) ty k
         = entity_at (st_entities (bs_state s)) ty k.
Proof.
  intros _ _ _ Ha Hu Hp Hl commentId.
  pose proof (normalize_comment_with_author comment a commentId u Ha Hu)
    as Hn.
  pose proof (addNormalizedData_entity_at blogSchemas (bs_state s) _ _ _ Hn)
    as Hmerge.
  cbn [entities] in Hmerge.
  set (st1 := addNormalizedData blogSchemas (bs_state s)
                (VObj (AList.set comment "id" (VStr commentId))) "comments")
    in *.
  assert (Hadd : NormalizedBlogStore.store_addNormalizedData s
                   (VObj (AList.set comment "id" (VStr commentId)))
                   "comments"
                 = (with_state s st1, Ok tt)).
  { unfold NormalizedBlogStore.store_addNormalizedData, st1,
      addNormalizedData, addNormalizedData_steps,
      NormalizedBlogStore.schemas.
    rewrite Hn. reflexivity. }
  assert (Hp1 : entity_at (st_entities st1) "posts" postId = Some p).
  { rewrite Hmerge. exact Hp. }
  destruct (updateEntity_stored st1 "posts" (VStr postId)
              [("comments", VArr (l ++ [VStr commentId]))] p Hp1)
    as (st2 & Hup & Hnew & Hframe).
  unfold NormalizedBlogStore.addComment. fold commentId. rewrite Hadd.
  unfold getEntityById. cbn [bs_state with_state to_string].
  rewrite Hp1. cbn [truthy get_prop bind]. rewrite Hl.
  cbn [spread_iterable]. rewrite Hup.
  eexists. split; [reflexivity|]. cbn [bs_state bs_console with_state].
  split; [reflexivity|].
  split; [|split; [|split; [exact Hnew|]]].
  - rewrite Hframe by discriminate. rewrite Hmerge.
    unfold entity_at. simpl. now rewrite String.eqb_refl.
  - rewrite Hframe by discriminate. rewrite Hmerge.
    unfold entity_at. simpl. now rewrite String.eqb_refl.
  - intros ty k Hc Hus Hpo. rewrite Hframe by exact Hpo. rewrite Hmerge.
    unfold entity_at at 1. cbn [AList.lookup].
    destruct (String.eqb_spec "comments" ty) as [<-|_].
    + cbn [AList.lookup].
      destruct (String.eqb_spec commentId k) as [<-|_]; [congruence|].
      reflexivity.
    + destruct (String.eqb_spec "users" ty) as [<-|_]; [|reflexivity].
      cbn [AList.lookup].
      destruct (String.eqb_spec u k) as [<-|_]; [congruence|].
      reflexivity.
Qed.

Lemma addComment_with_nested_author_witness :
  exists s',
    NormalizedBlogStore.addComment
      {| bs_state := addNormalizedData blogSchemas (initialState blogSchemas)
                                       sampleBlogData "posts";
         bs_console := [] |}
      1700000000000 "post1"
      [("author", user "user4" "User 4"); ("comment", VStr "Nice!")]
    = (s', Ok tt)
    /\ entity_at (st_entities (bs_state s')) "posts" "post1"
       = Some (AList.spread
                 [("id", VStr "post1"); ("author", VStr "user1");
                  ("body", VStr "This is the first post content.");
                  ("comments", VArr [VStr "comment1"; VStr "comment2"])]
                 [("comments",
                   VArr ([VStr "comment1"; VStr "comment2"]
                         ++ [VStr ("comment"
                                   ++ string_of_Z 1700000000000)%string]))]).
Proof.
  destruct (addComment_with_nested_author
              {| bs_state := addNormalizedData blogSchemas
                               (initialState blogSchemas)
                               sampleBlogData "posts";
                 bs_console := [] |}
              1700000000000 "post1"
              [("author", user "user4" "User 4"); ("comment", VStr "Nice!")]
              [("username", VStr "user4"); ("name", VStr "User 4")]
              [("id", VStr "post1"); ("author", VStr "user1");
               ("body", VStr "This is the first post content.");
               ("comments", VArr [VStr "comment1"; VStr "comment2"])]
              "user4" [VStr "comment1"; VStr "comment2"]
              eq_refl eq_refl eq_refl eq_refl eq_refl eq_refl eq_refl)
    as (s' & H & _ & _ & _ & Hpost & _).
  exists s'. split; [exact H|exact Hpost].
Defined.

(** *** updateUserName *)

Lemma renamed_author_in_view n ents ty id e username new :
  ty = "posts" \/ ty = "comments" ->
  entity_at ents ty id = Some e ->
  get e "author" = VStr username ->
  entity_at ents "users" username = Some new ->
  exists r,
    denormalizeSingle blogSchemas (S (S (S n))) (VStr id) ty ents
    = Ok (VObj r)
    /\ get r "author" = VObj new.
Proof.
  intros Hty He Ha Hnew.
  assert (Hs : exists schema,
             AList.lookup blogSchemas ty = Some schema
             /\ In ("author", hasOne "users") (relationships_of schema)).
  { destruct Hty as [-> | ->]; eexists; (split; [reflexivity|]); simpl; auto. }
  destruct Hs as (schema & Hs & Hin).
  assert (Hacyclic : acyclic_from blogSchemas (S (S (S n))) ty = true)
    by (destruct Hty as [-> | ->]; reflexivity).
  pose proof (denormalizeSingle_acyclic blogSchemas _ ty Hacyclic (VStr id)
                ents) as Hd.
  assert (Hknown : AList.lookup blogSchemas ty <> None) by congruence.
  pose proof (denormalizeSingle_no_throw blogSchemas eq_refl (S (S (S n))) ty
                Hknown (VStr id) ents) as Ht.
  destruct (denormalizeSingle blogSchemas (S (S (S n))) (VStr id) ty ents)
    as [v|err|] eqn:Hv; [|now elim (Ht err)|now elim Hd].
  rewrite denormalizeSingle_S in Hv. cbn [to_string] in Hv.
  rewrite He, Hs in Hv. bind_inv Hv. injection Hv as <-.
  exists a. split; [reflexivity|].
  assert (Hnd : NoDup (AList.keys (relationships_of schema)))
    by (apply (@wf_schemas_nodup blogSchemas ty schema eq_refl Hs)).
  apply denormalize_relationships_ok in Hc; auto.
  destruct Hc as (_ & _ & Hsome).
  destruct (Hsome _ _ Hin) as (x & Hx & Hlx).
  apply denormalize_field_hasOne in Hx;
    [|rewrite Ha; discriminate|rewrite Ha; discriminate].
  destruct Hx as (r & Hr & ->). unfold get. rewrite Hlx.
  rewrite Ha, denormalizeSingle_S in Hr. cbn [to_string] in Hr.
  rewrite Hnew in Hr. simpl in Hr. now injection Hr as <-.
Qed.

(** X21. After updateUserName of a stored user, the denormalized view of
    every post and of every comment written by that user embeds the user
    with the new name, and nothing is written to the console. *)
Theorem updateUserName_shows_in_views (fuel : nat) (s : BlogStoreState)
    (username name : string) (old : record) :
  3 <= fuel ->
  entity_at (st_entities (bs_state s)) "users" username = Some old ->
  let s' := NormalizedBlogStore.updateUserName s username name in
  let renamed := AList.spread old [("name", VStr name)] in
  bs_console s' = bs_console s
  /\ NormalizedBlogStore.getUserByUsername fuel s' username
     = Ok (VObj renamed)
  /\ (forall postId p,
         entity_at (st_entities (bs_state s)) "posts" postId = Some p ->
         get p "author" = VStr username ->
         exists r,
           NormalizedBlogStore.getPostById fuel s' postId = Ok (VObj r)
           /\ get r "author" = VObj renamed)
  /\ (forall commentId c,
         entity_at (st_entities (bs_state s)) "comments" commentId = Some c ->
         get c "author" = VStr username ->
         exists r,
           NormalizedBlogStore.getCommentById fuel s' commentId
           = Ok (VObj r)
           /\ get r "author" = VObj renamed).
Proof.
  intros Hfuel Hold. destruct fuel as [|[|[|n]]]; try lia. clear Hfuel.
  cbv zeta.
  destruct (updateEntity_stored (bs_state s) "users" (VStr username)
              [("name", VStr name)] old Hold) as (st' & Hup & Hnew & Hframe).
  cbn [to_string] in Hnew, Hframe.
  unfold NormalizedBlogStore.updateUserName. rewrite Hup.
  cbn [bs_console with_state].
  unfold NormalizedBlogStore.getUserByUsername,
    NormalizedBlogStore.getPostById, NormalizedBlogStore.getCommentById,
    selectDenormalized, getDenormalizedEntity, NormalizedBlogStore.schemas.
  cbn [is_undefined denormalize bs_state with_state].
  split; [reflexivity|]. split; [|split].
  - rewrite denormalizeSingle_S. cbn [to_string]. now rewrite Hnew.
  - intros postId p Hp Ha.
    apply (renamed_author_in_view n (st_entities st') "posts" postId p
             username); auto.
    rewrite Hframe by discriminate. exact Hp.
  - intros commentId c Hc Ha.
    apply (renamed_author_in_view n (st_entities st') "comments" commentId c
             username); auto.
    rewrite Hframe by discriminate. exact Hc.
Qed.

Lemma updateUserName_shows_in_views_witness :
  NormalizedBlogStore.getUserByUsername 3
    (NormalizedBlogStore.updateUserName
       {| bs_state := addNormalizedData blogSchemas (initialState blogSchemas)
                                        sampleBlogData "posts";
          bs_console := [] |}
       "user1" "Renamed")
    "user1"
  = Ok (VObj (AList.spread
                [("username", VStr "user1"); ("name", VStr "User 1")]
                [("name", VStr "Renamed")])).
Proof.
  exact (proj1 (proj2 (updateUserName_shows_in_views 3
                         {| bs_state := addNormalizedData blogSchemas
                                          (initialState blogSchemas)
                                          sampleBlogData "posts";
                            bs_console := [] |}
                         "user1" "Renamed"
                         [("username", VStr "user1"); ("name", VStr "User 1")]
                         (le_n 3) eq_refl))).
Defined.

(** *** The store before any data is added *)

Lemma fold_set_const_lookup {A} (v : A) l :
  forall (m : AList.t A) k,
    AList.lookup (fold_left (fun acc ty => AList.set acc ty v) l m) k
    = if existsb (String.eqb k) l then Some v else AList.lookup m k.
Proof.
  induction l as [|x l IH]; intros m k; simpl; auto.
  rewrite IH. destruct (existsb (String.eqb k) l); [now rewrite orb_true_r|].
  rewrite orb_false_r. destruct (String.eqb_spec k x) as [->|Hne].
  - apply AListFacts.lookup_set_eq.
  - apply AListFacts.lookup_set_neq. congruence.
Qed.

(** X22. The store starts empty. For a schema map with ordinary names and
    an ordinary type name: in the initial state the type has an empty
    collection and a false loading flag when the schema map has it and
    neither of them otherwise; for a type of the schema map the list
    selector returns the empty array and the loading selector false; and
    for every type getEntityById returns null for every ordinary
    identifier and getDenormalizedEntities returns the empty array. *)
Theorem initialState_empty (schemas : EntitySchemaMap) (entityType : string) :
  ordinary_schemas schemas = true ->
  ordinary_name entityType = true ->
  let st := initialState schemas in
  AList.lookup (st_entities st) entityType
  = (if existsb (String.eqb entityType) (AList.keys schemas)
     then Some [] else None)
  /\ AList.lookup (st_loading st) entityType
     = (if existsb (String.eqb entityType) (AList.keys schemas)
        then Some false else None)
  /\ (existsb (String.eqb entityType) (AList.keys schemas) = true ->
      entityList st entityType = []
      /\ entityLoading st entityType = false)
  /\ (forall id,
         ordinary_id id = true -> getEntityById st entityType id = VNull)
  /\ (forall fuel,
         getDenormalizedEntities schemas fuel st entityType = Ok (VArr [])).
Proof.
  intros _ _. cbv zeta.
  assert (He : AList.lookup (st_entities (initialState schemas)) entityType
               = (if existsb (String.eqb entityType) (AList.keys schemas)
                  then Some [] else None))
    by apply (fold_set_const_lookup (@nil (string * record))).
  assert (Hl : AList.lookup (st_loading (initialState schemas)) entityType
               = (if existsb (String.eqb entityType) (AList.keys schemas)
                  then Some false else None))
    by apply (fold_set_const_lookup false).
  split; [exact He|]. split; [exact Hl|].
  unfold entityList, entityLoading, getEntityById, getDenormalizedEntities,
    collection_of, entity_at.
  rewrite He, Hl.
  destruct (existsb (String.eqb entityType) (AList.keys schemas));
    repeat split; try reflexivity; discriminate.
Qed.

(** The blog store starts without users: the collection is there and
    empty, the flag is false, and no user is found. *)
Lemma initialState_empty_witness :
  let st := initialState blogSchemas in
  AList.lookup (st_entities st) "users" = Some []
  /\ AList.lookup (st_loading st) "users" = Some false
  /\ entityList st "users" = []
  /\ entityLoading st "users" = false
  /\ getEntityById st "users" (VStr "user1") = VNull
  /\ getDenormalizedEntities blogSchemas 1 st "users" = Ok (VArr []).
Proof.
  destruct (initialState_empty blogSchemas "users" eq_refl eq_refl)
    as (He & Hl & Hsel & Hget & Hall).
  destruct (Hsel eq_refl) as (Hlist & Hload).
  split; [exact He|]. split; [exact Hl|].
  split; [exact Hlist|]. split; [exact Hload|].
  split; [exact (Hget (VStr "user1") eq_refl)|exact (Hall 1)].
Defined.
